(** * YAML-Linting: a shallow embedding of the fixer pipeline

    The development follows the TypeScript sources:
    - [Js]              the JavaScript string primitives and the regular
                        expressions the sources rely on;
    - [Scorer]          confidence/scorer.ts;
    - [Tracker]         semantic/indentation-tracker.ts;
    - [Analyzer]        semantic/context-analyzer.ts;
    - [Semantic]        semantic/semantic-parser.ts and the fixers;
    - [Intelligent]     semantic/intelligent-fixer.ts;
    - [Indentation]     the indentation validator;
    - [YAMLFixer]       core/yaml-fixer.ts.

    Conventions.  A JavaScript string is a [string]: one [ascii] per code
    unit, so the texts covered are those whose code units are below 256
    (Latin-1).  Indices and line numbers are [Z] where the source can
    produce [-1] or compares signed values, [nat] for lengths and repeat
    counts.  Confidences are rationals ([Q]): a rational written as a
    decimal stands for the double nearest to it, and the arithmetic the
    source does on confidences is the arithmetic of doubles, every result
    rounded ([Double]).  The comparisons made by the source give the same
    answers on the doubles and on the decimals for the constants
    involved. *)

From Stdlib Require Import String Ascii List ZArith QArith Qminmax Qround Qpower.
From Stdlib Require Import Lia Lqa Bool.
From stdpp Require Import gmap strings list sorting.
Import ListNotations.
Set Warnings "-register-all".
Set Default Proof Using "Type".

Local Open Scope string_scope.

(* ================================================================== *)
(** * JavaScript strings *)
(* ================================================================== *)

Module Js.

Definition code (c : ascii) : N := N_of_ascii c.

Definition between (lo hi : N) (c : ascii) : bool :=
  ((lo <=? code c) && (code c <=? hi))%N.

(** [\s]: TAB, LF, VT, FF, CR, SPACE and NBSP are the white space and line
    terminator code units below 256. *)
Definition isSpace (c : ascii) : bool :=
  between 9 13 c || (code c =? 32)%N || (code c =? 160)%N.

Definition notSpace (c : ascii) : bool := negb (isSpace c).

(** [.] matches everything but a line terminator. *)
Definition isDot (c : ascii) : bool :=
  negb ((code c =? 10)%N || (code c =? 13)%N).

Definition isDigit : ascii -> bool := between 48 57.
Definition isUpper : ascii -> bool := between 65 90.
Definition isLower : ascii -> bool := between 97 122.
Definition isAlpha (c : ascii) : bool := isUpper c || isLower c.
Definition isAlnum (c : ascii) : bool := isAlpha c || isDigit c.
Definition isChar (a : ascii) (c : ascii) : bool := (code c =? code a)%N.

(** [[a-zA-Z0-9_-]] *)
Definition isKeyChar (c : ascii) : bool := isAlnum c || isChar "_" c || isChar "-" c.

(** [String.prototype.toLowerCase] on code units below 256. *)
Definition lowerChar (c : ascii) : ascii :=
  if isUpper c then ascii_of_N (code c + 32)
  else if between 192 222 c && negb (code c =? 215)%N then ascii_of_N (code c + 32)
  else c.

Fixpoint toLowerCase (s : string) : string :=
  match s with
  | EmptyString => EmptyString
  | String c r => String (lowerChar c) (toLowerCase r)
  end.

Definition isEmpty (s : string) : bool :=
  match s with EmptyString => true | _ => false end.

Fixpoint trimStart (s : string) : string :=
  match s with
  | String c r => if isSpace c then trimStart r else s
  | EmptyString => EmptyString
  end.

Fixpoint trimEnd (s : string) : string :=
  match s with
  | EmptyString => EmptyString
  | String c r =>
      let r' := trimEnd r in
      if isSpace c && isEmpty r' then EmptyString else String c r'
  end.

Definition trim (s : string) : string := trimStart (trimEnd s).

Definition startsWith (s p : string) : bool := String.prefix p s.

Fixpoint includes (s sub : string) : bool :=
  String.prefix sub s ||
  match s with
  | EmptyString => false
  | String _ r => includes r sub
  end.

(** [indexOf]: [-1] when the substring does not occur. *)
Fixpoint indexOf (s sub : string) : Z :=
  if String.prefix sub s then 0%Z
  else match s with
       | EmptyString => (-1)%Z
       | String _ r => let i := indexOf r sub in
                       if (i <? 0)%Z then (-1)%Z else (i + 1)%Z
       end.

Fixpoint endsWith (s p : string) : bool :=
  String.eqb s p ||
  match s with
  | EmptyString => false
  | String _ r => endsWith r p
  end.

(** [s.search(/\S/)] *)
Fixpoint searchNonSpace (s : string) : Z :=
  match s with
  | EmptyString => (-1)%Z
  | String c r => if isSpace c then
                    let i := searchNonSpace r in
                    if (i <? 0)%Z then (-1)%Z else (i + 1)%Z
                  else 0%Z
  end.

(** the leading white space of a line (the group of [^\s*]) and its length *)
Fixpoint leadingSpace (s : string) : string :=
  match s with
  | String c r => if isSpace c then String c (leadingSpace r) else EmptyString
  | EmptyString => EmptyString
  end.

Definition getIndent (s : string) : nat := String.length (leadingSpace s).

Fixpoint repeat (s : string) (n : nat) : string :=
  match n with
  | O => EmptyString
  | S k => s ++ repeat s k
  end.

Definition spaces (n : nat) : string := repeat " " n.

(** [s.substring(n)] *)
Fixpoint substringFrom (n : nat) (s : string) : string :=
  match n, s with
  | O, _ => s
  | S k, String _ r => substringFrom k r
  | S _, EmptyString => EmptyString
  end.

(** [s.substring(0, n)] *)
Fixpoint substringTo (n : nat) (s : string) : string :=
  match n, s with
  | O, _ => EmptyString
  | S k, String c r => String c (substringTo k r)
  | S _, EmptyString => EmptyString
  end.

Definition slice (from to : nat) (s : string) : string :=
  substringTo (to - from) (substringFrom from s).

(** [s.split('\n')] *)
Definition nl : ascii := "010"%char.
Definition NL : string := String nl EmptyString.

Fixpoint splitLines (s : string) : list string :=
  match s with
  | EmptyString => [EmptyString]
  | String c r =>
      if isChar nl c then EmptyString :: splitLines r
      else match splitLines r with
           | h :: t => String c h :: t
           | [] => [String c EmptyString]
           end
  end.

(** [a.join(sep)] *)
Fixpoint join (sep : string) (l : list string) : string :=
  match l with
  | [] => EmptyString
  | [x] => x
  | x :: rest => x ++ sep ++ join sep rest
  end.

Definition joinLines : list string -> string := join NL.

(** [s.split(/\s+/)]: every maximal run of white space separates two
    pieces; a run at either end leaves an empty piece there. *)
Fixpoint splitWs_from (s : string) (inSep : bool) : list string :=
  match s with
  | EmptyString => [EmptyString]
  | String c r =>
      if isSpace c then
        if inSep then splitWs_from r true else EmptyString :: splitWs_from r true
      else match splitWs_from r false with
           | h :: t => String c h :: t
           | [] => [String c EmptyString]
           end
  end.

Definition splitWs (s : string) : list string := splitWs_from s false.

(** [s.replace(/c/g, by)] for a one-character class *)
Fixpoint replaceAll (cls : ascii -> bool) (by_ : string) (s : string) : string :=
  match s with
  | EmptyString => EmptyString
  | String c r => if cls c then by_ ++ replaceAll cls by_ r
                  else String c (replaceAll cls by_ r)
  end.

(** [(s.match(/c/g) || []).length] *)
Fixpoint countChar (cls : ascii -> bool) (s : string) : nat :=
  match s with
  | EmptyString => O
  | String c r => (if cls c then 1 else 0) + countChar cls r
  end.

Definition charAt (n : nat) (s : string) : option ascii := String.get n s.

(** ** Regular expressions

    The expressions of the sources are sequences of quantified character
    classes with capture groups, all anchored at the start.  [run] is the
    backtracking matcher: quantifiers are greedy, and a failure further on
    makes a [*] or [+] give characters back, as in JavaScript.  Where a
    comment quotes an expression, a space parts a star from a closing
    parenthesis. *)

Inductive quant := One | Star | Plus.

Inductive atom :=
| Ch (cls : ascii -> bool) (q : quant)
| GOpen
| GClose
| NotAhead (cls : ascii -> bool)   (* (?!c) *)
| Eos.                             (* $ *)

Definition regex := list atom.

Definition mstate : Type := (nat * list nat * list (nat * nat))%type.

Fixpoint star (cls : ascii -> bool)
    (k : string -> nat -> list nat -> list (nat * nat) -> option (nat * list (nat * nat)))
    (s : string) (pos : nat) (opens : list nat) (caps : list (nat * nat))
    : option (nat * list (nat * nat)) :=
  match s with
  | String c r =>
      if cls c then
        match star cls k r (S pos) opens caps with
        | Some x => Some x
        | None => k s pos opens caps
        end
      else k s pos opens caps
  | EmptyString => k s pos opens caps
  end.

Fixpoint run (re : regex) (s : string) (pos : nat) (opens : list nat)
    (caps : list (nat * nat)) {struct re} : option (nat * list (nat * nat)) :=
  match re with
  | [] => Some (pos, List.rev caps)
  | Ch cls One :: rest =>
      match s with
      | String c r => if cls c then run rest r (S pos) opens caps else None
      | EmptyString => None
      end
  | Ch cls Star :: rest => star cls (run rest) s pos opens caps
  | Ch cls Plus :: rest =>
      match s with
      | String c r => if cls c then star cls (run rest) r (S pos) opens caps else None
      | EmptyString => None
      end
  | GOpen :: rest => run rest s pos (pos :: opens) caps
  | GClose :: rest =>
      match opens with
      | o :: os => run rest s pos os ((o, pos) :: caps)
      | [] => None
      end
  | NotAhead cls :: rest =>
      match s with
      | String c _ => if cls c then None else run rest s pos opens caps
      | EmptyString => run rest s pos opens caps
      end
  | Eos :: rest =>
      match s with
      | EmptyString => run rest s pos opens caps
      | String _ _ => None
      end
  end.

(** [s.match(re)]: the end of the match and the captured groups. *)
Definition exec (re : regex) (s : string) : option (nat * list string) :=
  match run re s 0 [] [] with
  | Some (e, caps) => Some (e, List.map (fun '(a, b) => slice a b s) caps)
  | None => None
  end.

Definition test (re : regex) (s : string) : bool :=
  match exec re s with Some _ => true | None => false end.

Definition group (n : nat) (gs : list string) : string := List.nth n gs EmptyString.

End Js.

(* ================================================================== *)
(** * semantic/types.ts *)
(* ================================================================== *)

Inductive LineSeverity := critical | error | warning | info.

Inductive LineType :=
| key_value      (* key: value *)
| key_only       (* key (missing value/colon) *)
| value_only     (* orphaned value *)
| list_item      (* - item *)
| comment        (* # comment *)
| blank          (* empty line *)
| separator      (* --- *)
| block_scalar   (* | or > *)
| unknown.

Inductive FixType :=
| missing_colon | missing_space | indentation | duplicate_key
| type_coercion | field_relocation | list_restructure | orphaned_value
| field_normalization | quote_balance | bracket_balance.

Inductive LevelType := object | array.

Record IndentLevel := mkLevel {
  lv_indent : nat;
  lv_key : string;
  lv_type : LevelType;
  lv_lineNumber : Z
}.

(** [reason] is free text for the user; no code path reads it back. *)
Record FixSuggestion := mkFix {
  lineNumber : Z;
  fixType : FixType;
  original : string;
  fixed : string;
  reason : string;
  confidence : Q;
  severity : LineSeverity;
  hasStandardPattern : bool      (* metadata: { hasStandardPattern: true } *)
}.

Record FixerOptions := mkOptions {
  confidenceThreshold : Q;
  aggressive : bool;
  maxIterations : nat;
  enableLearning : bool;
  enableRelocation : bool;
  indentSize : nat
}.

#[global] Instance LineType_eq_dec : EqDecision LineType.
Proof. solve_decision. Defined.

(** What a call can end with: a value, or an exception thrown.  The
    exceptions met are those of the YAML library, with the [mark] (when
    present) of the zero-based line and column, and [TypeError]s. *)
Record YAMLException := mkException {
  mark : option (Z * Z);
  message : string
}.

Inductive Thrown :=
| ThrowYAML (e : YAMLException)
| ThrowTypeError (msg : string).

Inductive Completion (A : Type) :=
| Normal (a : A)
| Throw (t : Thrown).
Arguments Normal {A} a.
Arguments Throw {A} t.

(** [array.sort(cmp)] is stable: [x] goes before the first element it does
    not compare above. *)
Section Sort.
Context {A : Type} (cmp : A -> A -> Z).

Fixpoint insertSorted (x : A) (l : list A) : list A :=
  match l with
  | [] => [x]
  | y :: rest => if (0 <? cmp x y)%Z then y :: insertSorted x rest
                 else x :: l
  end.

Fixpoint sort (l : list A) : list A :=
  match l with
  | [] => []
  | x :: rest => insertSorted x (sort rest)
  end.
End Sort.

(* ================================================================== *)
(** * JavaScript numbers: arithmetic on doubles

    A finite double is a rational [m * 2^u] with [|m| < 2^53] and
    [u >= -1074].  [round] gives the double nearest to a rational, ties
    going to the even mantissa, with gradual underflow; an operation of
    the source on numbers is the exact operation followed by [round].
    Results beyond the largest finite double (overflow to [Infinity]) are
    outside the model: the sums and products below stay far under it. *)
(* ================================================================== *)

Module Double.

Definition pow2 (e : Z) : Q := Qpower 2 e.

(** The exponent of the binade of a positive rational: [2^e <= q < 2^(e+1)]. *)
Definition ilog2 (q : Q) : Z :=
  let e := (Z.log2 (Qnum q) - Z.log2 (Zpos (Qden q)))%Z in
  if Qle_bool (pow2 e) q then e else (e - 1)%Z.

(** The nearest integer, a tie going to the even one. *)
Definition roundHalfEven (x : Q) : Z :=
  let f := Qfloor x in
  match (x - inject_Z f ?= 1 # 2)%Q with
  | Lt => f
  | Gt => (f + 1)%Z
  | Eq => if Z.even f then f else (f + 1)%Z
  end.

(** For a positive rational: 53 bits of mantissa, and the unit in the
    last place never below [2^-1074]. *)
Definition roundPos (q : Q) : Q :=
  let u := Z.max (ilog2 q - 52) (-1074) in
  (inject_Z (roundHalfEven (q / pow2 u)) * pow2 u)%Q.

Definition round (q : Q) : Q :=
  match Qnum q with
  | Z0 => 0
  | Zpos _ => roundPos q
  | Zneg _ => - roundPos (- q)
  end%Q.

(** The double a decimal literal, or a number held as a decimal, denotes. *)
Definition lit (q : Q) : Q := round q.

(** [a + b], [a - b], [a * b] and [a / b] on doubles. *)
Definition add (a b : Q) : Q := round (a + b).
Definition sub (a b : Q) : Q := round (a - b).
Definition mul (a b : Q) : Q := round (a * b).
Definition div (a b : Q) : Q := round (a / b).

End Double.

(* ================================================================== *)
(** * confidence/scorer.ts *)
(* ================================================================== *)

Module Scorer.

Definition weights (s : LineSeverity) : Q :=
  match s with
  | critical => 1.5
  | error => 1.0
  | warning => 0.7
  | info => 0.5
  end.

(** One turn of the [for] loop of [calculateOverallConfidence]: the state
    is the pair (totalWeightedConfidence, totalWeight), two doubles. *)
Definition accumulate (acc : Q * Q) (fix_ : FixSuggestion) : Q * Q :=
  let weight := Double.lit (weights (severity fix_)) in
  (Double.add (fst acc) (Double.mul (Double.lit (confidence fix_)) weight),
   Double.add (snd acc) weight).

Definition calculateOverallConfidence (fixes : list FixSuggestion) : Q :=
  match fixes with
  | [] => 1.0
  | _ =>
      let '(totalWeightedConfidence, totalWeight) :=
        List.fold_left accumulate fixes (0, 0)%Q in
      if Qlt_le_dec 0 totalWeight
      then Double.div totalWeightedConfidence totalWeight
      else 1.0
  end.

Definition accepts (threshold : Q) (fix_ : FixSuggestion) : bool :=
  Qle_bool threshold (confidence fix_).

Definition filterByConfidence (fixes : list FixSuggestion) (threshold : Q)
    : list FixSuggestion :=
  List.filter (accepts threshold) fixes.

(** The [context] argument of [adjustConfidenceByContext]: four optional
    flags, read as conditions (a missing flag counts as false). *)
Record ConfidenceContext := mkConfidenceContext {
  hasKnownParent : bool;
  hasSimilarSiblings : bool;
  isTopLevel : bool;
  matchesSchema : bool
}.

(** [adjusted = Math.min(adjusted + bonus, 1.0)] for every flag that is
    set; the base confidence is read as the double it denotes. *)
Definition adjustConfidenceByContext (baseConfidence : Q)
    (context : ConfidenceContext) : Q :=
  let adjusted := Double.lit baseConfidence in
  let adjusted :=
    if hasKnownParent context
    then Qmin (Double.add adjusted (Double.lit 0.05)) 1.0 else adjusted in
  let adjusted :=
    if hasSimilarSiblings context
    then Qmin (Double.add adjusted (Double.lit 0.1)) 1.0 else adjusted in
  let adjusted :=
    if isTopLevel context
    then Qmin (Double.add adjusted (Double.lit 0.05)) 1.0 else adjusted in
  let adjusted :=
    if matchesSchema context
    then Qmin (Double.add adjusted (Double.lit 0.1)) 1.0 else adjusted in
  adjusted.






End Scorer.

(* ================================================================== *)
(** * semantic/indentation-tracker.ts *)
(* ================================================================== *)

Module Tracker.

(** The indent stack is kept with its top first: the head of [indentStack]
    is the last element of the JavaScript array, [push] conses and [pop]
    drops the head.  [getStack] gives the array back, bottom first. *)
Record t := mk {
  indentStack : list IndentLevel;
  currentIndent : nat
}.

Definition init : t := mk [] 0.

Definition reset (_ : t) : t := mk [] 0.

(** [while (stack.length > 0 && indent <= stack[stack.length - 1].indent)
    stack.pop()] *)
Fixpoint popWhile (indent : nat) (stack : list IndentLevel) : list IndentLevel :=
  match stack with
  | top :: rest =>
      if (indent <=? lv_indent top)%nat then popWhile indent rest else stack
  | [] => []
  end.

Definition processLine (tr : t) (_lineNumber : nat) (content : string)
    (indent : nat) : t :=
  if String.eqb (Js.trim content) "---" then reset tr
  else mk (popWhile indent (indentStack tr)) indent.

Definition push (tr : t) (indent : nat) (key : string) (ty : LevelType)
    (lineNumber : nat) : t :=
  mk (mkLevel indent key ty (Z.of_nat lineNumber) :: indentStack tr)
     (currentIndent tr).

Definition getStack (tr : t) : list IndentLevel := List.rev (indentStack tr).

Definition getCurrentPath (tr : t) : list string :=
  List.map lv_key (getStack tr).

Definition getCurrentParent (tr : t) : option string :=
  match indentStack tr with
  | top :: _ => Some (lv_key top)
  | [] => None
  end.

Definition getDepth (tr : t) : nat := List.length (indentStack tr).

Definition getCurrentIndent (tr : t) : nat := currentIndent tr.

(** [getExpectedChildIndent(indentSize = 2)] *)
Definition getExpectedChildIndent (tr : t) (indentSize : nat) : nat :=
  match indentStack tr with
  | top :: _ => lv_indent top + indentSize
  | [] => 0
  end.

(** [indentStack.some(level => level.type === 'array')] *)
Definition isInArray (tr : t) : bool :=
  List.existsb (fun level => match lv_type level with
                             | array => true
                             | object => false
                             end) (getStack tr).

(** [isValidIndent(indent, indentSize = 2)] *)
Definition isValidIndent (tr : t) (indent indentSize : nat) : bool :=
  match indentStack tr with
  | [] => (indent =? 0)%nat
  | top :: _ =>
      let parentIndent := lv_indent top in
      let expectedChild := (parentIndent + indentSize)%nat in
      let expectedSibling := parentIndent in
      (indent =? expectedChild)%nat || (indent =? expectedSibling)%nat
  end.

(** [calculateCorrectIndent(isChild, indentSize = 2)] *)
Definition calculateCorrectIndent (tr : t) (isChild : bool) (indentSize : nat) : nat :=
  match indentStack tr with
  | [] => 0
  | top :: _ =>
      let parentIndent := lv_indent top in
      if isChild then parentIndent + indentSize else parentIndent
  end.

End Tracker.

(* ================================================================== *)
(** * semantic/context-analyzer.ts *)
(* ================================================================== *)

Record SemanticLine := mkLine {
  sl_lineNumber : nat;
  sl_content : string;
  sl_indent : nat;
  sl_type : LineType;
  sl_key : option string;
  sl_value : option string;
  sl_isListItem : bool;
  sl_hasColon : bool;
  sl_parent : option nat;     (* line number of the parent line *)
  sl_children : list nat      (* line numbers of the children *)
}.

(** A JavaScript string used as a condition: defined and not empty. *)
Definition truthy (s : option string) : bool :=
  match s with
  | Some v => negb (Js.isEmpty v)
  | None => false
  end.

Module Analyzer.

Import Js.

Record ParsingContext := mkContext {
  resourceType : option string;
  apiVersion : option string;
  currentPath : list string;
  inBlockScalar : bool;
  blockScalarIndent : option nat;
  documentIndex : nat
}.

Record t := mk {
  context : ParsingContext;
  indentTracker : Tracker.t
}.

Definition createEmptyContext : ParsingContext :=
  mkContext None None [] false None 0.

Definition init : t := mk createEmptyContext Tracker.init.

(** [/^[a-zA-Z][a-zA-Z0-9_-]*$/] *)
Definition reSingleWord : regex := [Ch isAlpha One; Ch isKeyChar Star; Eos].

Definition classifyLine (trimmed : string) : LineType :=
  if String.eqb trimmed "" then blank
  else if startsWith trimmed "#" then comment
  else if String.eqb trimmed "---" || String.eqb trimmed "..." then separator
  else if String.eqb trimmed "|" || String.eqb trimmed ">"
          || String.eqb trimmed "|-" || String.eqb trimmed ">-" then block_scalar
  else if startsWith trimmed "- " then
    let afterDash := trim (substringFrom 2 trimmed) in
    if includes afterDash ":" then list_item else list_item
  else if includes trimmed ":" then
    let colonIndex := Z.to_nat (indexOf trimmed ":") in
    let afterColon := trim (substringFrom (colonIndex + 1) trimmed) in
    if String.eqb afterColon "" || startsWith afterColon "#" then key_only
    else key_value
  else if test reSingleWord trimmed then key_only
  else value_only.

(** [extractKeyValue] returns the [key] and [value] it stores in the line. *)
Definition extractKeyValue (trimmed : string) : option string * option string :=
  let trimmed :=
    if startsWith trimmed "- " then trim (substringFrom 2 trimmed) else trimmed in
  let colonIndex := indexOf trimmed ":" in
  if negb (colonIndex =? -1)%Z then
    (Some (trim (substringTo (Z.to_nat colonIndex) trimmed)),
     Some (trim (substringFrom (Z.to_nat colonIndex + 1) trimmed)))
  else (Some trimmed, None).

Definition updateContext (a : t) (line : SemanticLine) : t :=
  let ctx := context a in
  let resourceType' :=
    if match sl_key line with Some k => String.eqb k "kind" | None => false end
       && truthy (sl_value line)
    then sl_value line else resourceType ctx in
  let apiVersion' :=
    if match sl_key line with Some k => String.eqb k "apiVersion" | None => false end
       && truthy (sl_value line)
    then sl_value line else apiVersion ctx in
  let currentPath' := Tracker.getCurrentPath (indentTracker a) in
  let '(inBlock', blockIndent') :=
    if decide (sl_type line = block_scalar) then (true, Some (sl_indent line))
    else if inBlockScalar ctx
            && (sl_indent line <=? default 0%nat (blockScalarIndent ctx))%nat
    then (false, None)
    else (inBlockScalar ctx, blockScalarIndent ctx) in
  let tracker' :=
    if truthy (sl_key line) && negb (bool_decide (sl_type line = value_only)) then
      Tracker.push (indentTracker a) (sl_indent line) (default "" (sl_key line))
        (if sl_isListItem line then array else object) (sl_lineNumber line)
    else indentTracker a in
  mk (mkContext resourceType' apiVersion' currentPath' inBlock' blockIndent'
        (documentIndex ctx))
     tracker'.

Definition analyzeLine (a : t) (lineNumber : nat) (content : string)
    : SemanticLine * t :=
  let trimmed := trim content in
  let indent := getIndent content in
  let a1 := mk (context a)
               (Tracker.processLine (indentTracker a) lineNumber content indent) in
  let lineType := classifyLine trimmed in
  let '(key, value) :=
    if bool_decide (lineType = key_value) || bool_decide (lineType = key_only)
    then extractKeyValue trimmed else (None, None) in
  let semanticLine :=
    mkLine lineNumber content indent lineType key value
      (startsWith trimmed "-") (includes trimmed ":") None [] in
  (semanticLine, updateContext a1 semanticLine).

Definition isInBlockScalar (a : t) : bool := inBlockScalar (context a).

Definition getCurrentPath (a : t) : list string := currentPath (context a).

Definition getResourceType (a : t) : option string := resourceType (context a).

Definition reset (a : t) : t :=
  mk createEmptyContext (Tracker.reset (indentTracker a)).

(** [isFieldExpectedHere]: the tests on the field name and the path, as
    written. *)
Definition isFieldExpectedHere (a : t) (fieldName : string) : bool :=
  let path := getCurrentPath a in
  let resourceType := getResourceType a in
  if negb (truthy resourceType) then true
  else if String.eqb fieldName "metadata" && (List.length path =? 0)%nat then true
  else if String.eqb fieldName "spec" && (List.length path =? 0)%nat then true
  else if String.eqb fieldName "containers" && List.existsb (String.eqb "spec") path
  then true
  else if String.eqb fieldName "volumes" && List.existsb (String.eqb "spec") path
  then true
  else true.

End Analyzer.

(* ================================================================== *)
(** * semantic/semantic-parser.ts *)
(* ================================================================== *)

Module SemanticParser.

Import Js.

Record t := mk {
  contextAnalyzer : Analyzer.t;
  lines : list SemanticLine
}.

(** The body of the [for] loop of [parse], for the line numbered
    [lineNumber]: inside a block scalar the line is recorded as such, and
    still shown to the context analyzer. *)
Definition parseLine (st : Analyzer.t * list SemanticLine) (lineNumber : nat)
    (content : string) : Analyzer.t * list SemanticLine :=
  let '(a, acc) := st in
  if Analyzer.isInBlockScalar a then
    let semanticLine :=
      mkLine lineNumber content (getIndent content) block_scalar None None
        false false None [] in
    (snd (Analyzer.analyzeLine a lineNumber content), (acc ++ [semanticLine])%list)
  else
    let '(semanticLine, a') := Analyzer.analyzeLine a lineNumber content in
    (a', (acc ++ [semanticLine])%list).

Fixpoint parseLines (st : Analyzer.t * list SemanticLine) (lineNumber : nat)
    (rawLines : list string) : Analyzer.t * list SemanticLine :=
  match rawLines with
  | [] => st
  | content :: rest => parseLines (parseLine st lineNumber content) (S lineNumber) rest
  end.

(** [buildRelationships]: the stack holds the open lines, top first; the
    result pairs every line with the line number of its parent. *)
Fixpoint popOpen (indent : nat) (stack : list SemanticLine) : list SemanticLine :=
  match stack with
  | top :: rest => if (indent <=? sl_indent top)%nat then popOpen indent rest else stack
  | [] => []
  end.

Definition canHaveChildren (ty : LineType) : bool :=
  bool_decide (ty = key_only) || bool_decide (ty = key_value)
  || bool_decide (ty = list_item).

Fixpoint linkParents (stack : list SemanticLine) (ls : list SemanticLine)
    : list SemanticLine :=
  match ls with
  | [] => []
  | line :: rest =>
      if bool_decide (sl_type line = blank) || bool_decide (sl_type line = comment)
      then line :: linkParents stack rest
      else
        let stack1 := popOpen (sl_indent line) stack in
        let parent := match stack1 with
                      | top :: _ => Some (sl_lineNumber top)
                      | [] => None
                      end in
        let line' :=
          mkLine (sl_lineNumber line) (sl_content line) (sl_indent line)
            (sl_type line) (sl_key line) (sl_value line) (sl_isListItem line)
            (sl_hasColon line) parent (sl_children line) in
        let stack2 := if canHaveChildren (sl_type line) then line' :: stack1
                      else stack1 in
        line' :: linkParents stack2 rest
  end.

Definition childrenOf (ls : list SemanticLine) (n : nat) : list nat :=
  List.map sl_lineNumber
    (List.filter (fun l => bool_decide (sl_parent l = Some n)) ls).

Definition buildRelationships (ls : list SemanticLine) : list SemanticLine :=
  let linked := linkParents [] ls in
  List.map (fun line =>
    mkLine (sl_lineNumber line) (sl_content line) (sl_indent line)
      (sl_type line) (sl_key line) (sl_value line) (sl_isListItem line)
      (sl_hasColon line) (sl_parent line) (childrenOf linked (sl_lineNumber line)))
    linked.

Definition parse (yamlContent : string) : t :=
  let rawLines := splitLines yamlContent in
  let '(a, ls) := parseLines (Analyzer.init, []) 1 rawLines in
  mk a (buildRelationships ls).

Definition getLines (p : t) : list SemanticLine := lines p.

Definition isBlankOrComment (line : SemanticLine) : bool :=
  bool_decide (sl_type line = blank) || bool_decide (sl_type line = comment).

(** [findSiblings]: two lines have the same parent when both are roots or
    both hang under the same line. *)
Definition findSiblings (p : t) (line : SemanticLine) : list SemanticLine :=
  List.filter (fun l =>
      bool_decide (sl_parent l = sl_parent line)
      && (sl_indent l =? sl_indent line)%nat
      && negb (sl_lineNumber l =? sl_lineNumber line)%nat
      && negb (isBlankOrComment l))
    (lines p).

Definition hasChildren (line : SemanticLine) : bool :=
  negb (List.length (sl_children line) =? 0)%nat.

(** [getNextNonBlankLine(lineNumber)] scans from index [lineNumber]. *)
Definition getNextNonBlankLine (p : t) (lineNumber : nat) : option SemanticLine :=
  List.find (fun l => negb (isBlankOrComment l)) (List.skipn lineNumber (lines p)).

(** [getLine]: the first line with that number. *)
Definition getLine (p : t) (lineNumber : nat) : option SemanticLine :=
  List.find (fun line => (sl_lineNumber line =? lineNumber)%nat) (lines p).

Definition findChildren (line : SemanticLine) : list nat := sl_children line.

(** [getPreviousNonBlankLine(lineNumber)] scans down from index
    [lineNumber - 2].  When that index is beyond the last line the first
    [line.type] reads a property of [undefined], which throws. *)
Definition getPreviousNonBlankLine (p : t) (lineNumber : nat)
    : Completion (option SemanticLine) :=
  match lineNumber with
  | S (S start) =>
      if (List.length (lines p) <=? start)%nat then
        Throw (ThrowTypeError "Cannot read properties of undefined (reading 'type')")
      else
        Normal (List.find (fun l => negb (isBlankOrComment l))
                  (List.rev (List.firstn (S start) (lines p))))
  | _ => Normal None
  end.

(** [/^[a-z][a-zA-Z0-9]*$/.test(text) || /^[a-z][a-z0-9-]*$/.test(text)] *)
Definition matchesFieldPattern (text : string) : bool :=
  test [Ch isLower One; Ch isAlnum Star; Eos] text
  || test [Ch isLower One; Ch (fun c => isLower c || isDigit c || isChar "-" c) Star;
           Eos] text.

Definition reset (p : t) : t := mk (Analyzer.reset (contextAnalyzer p)) [].

End SemanticParser.

(* ================================================================== *)
(** * knowledge/field-patterns.ts and knowledge/type-registry.ts *)
(* ================================================================== *)

Module Knowledge.

Import Js.

Definition inList (s : string) (l : list string) : bool :=
  List.existsb (String.eqb s) l.

(** The elements of a [Set] built from an array literal, in insertion
    order: the first occurrence of each element. *)
Fixpoint setOf (seen : list string) (l : list string) : list string :=
  match l with
  | [] => []
  | x :: rest => if inList x seen then setOf seen rest
                 else x :: setOf (x :: seen) rest
  end.

(** [/^[a-z][a-zA-Z0-9]*$/], [/^[a-z][a-z0-9-]*$/] and [/^[a-z]+$/] *)
Definition reCamelCase : regex := [Ch isLower One; Ch isAlnum Star; Eos].
Definition reHyphenated : regex :=
  [Ch isLower One; Ch (fun c => isLower c || isDigit c || isChar "-" c) Star; Eos].
Definition reLowercase : regex := [Ch isLower Plus; Eos].

Definition FIELD_PATTERNS : list regex := [reCamelCase; reHyphenated; reLowercase].

Definition KNOWN_FIELDS : list string := Eval vm_compute in setOf [] [
  "apiVersion"; "kind"; "metadata"; "spec"; "status"; "data"; "name";
  "namespace"; "labels"; "annotations"; "uid"; "resourceVersion";
  "generation"; "creationTimestamp"; "deletionTimestamp";
  "ownerReferences"; "finalizers"; "replicas"; "selector"; "template";
  "strategy"; "minReadySeconds"; "revisionHistoryLimit";
  "progressDeadlineSeconds"; "paused"; "containers"; "initContainers";
  "volumes"; "restartPolicy"; "terminationGracePeriodSeconds"; "dnsPolicy";
  "serviceAccountName"; "serviceAccount"; "nodeName"; "nodeSelector";
  "affinity"; "tolerations"; "hostNetwork"; "hostPID"; "hostIPC";
  "securityContext"; "imagePullSecrets"; "hostname"; "subdomain";
  "schedulerName"; "priorityClassName"; "priority"; "image";
  "imagePullPolicy"; "command"; "args"; "workingDir"; "ports"; "env";
  "envFrom"; "resources"; "volumeMounts"; "livenessProbe";
  "readinessProbe"; "startupProbe"; "lifecycle"; "stdin"; "stdinOnce";
  "tty"; "containerPort"; "hostPort"; "protocol"; "hostIP"; "value";
  "valueFrom"; "limits"; "requests"; "cpu"; "memory"; "storage";
  "mountPath"; "subPath"; "readOnly"; "httpGet"; "tcpSocket"; "exec";
  "initialDelaySeconds"; "timeoutSeconds"; "periodSeconds";
  "successThreshold"; "failureThreshold"; "type"; "clusterIP";
  "externalIPs"; "sessionAffinity"; "loadBalancerIP";
  "loadBalancerSourceRanges"; "externalName"; "externalTrafficPolicy";
  "healthCheckNodePort"; "publishNotReadyAddresses"; "port"; "targetPort";
  "nodePort"; "binaryData"; "stringData"; "immutable"; "emptyDir";
  "hostPath"; "configMap"; "secret"; "persistentVolumeClaim"; "nfs";
  "awsElasticBlockStore"; "gcePersistentDisk"; "azureDisk"; "azureFile";
  "csi"; "projected"; "downwardAPI"; "accessModes"; "storageClassName";
  "volumeMode"; "volumeName"; "rules"; "tls"; "backend"; "host"; "http";
  "paths"; "path"; "pathType"; "serviceName"; "servicePort"; "subjects";
  "roleRef"; "rules"; "verbs"; "apiGroups"; "resources"; "resourceNames";
  "schedule"; "concurrencyPolicy"; "suspend"; "successfulJobsHistoryLimit";
  "failedJobsHistoryLimit"; "completions"; "parallelism"; "backoffLimit";
  "activeDeadlineSeconds"; "ttlSecondsAfterFinished"].

Definition FIELD_ALIASES : list (string * list string) := [
  ("metadata", ["metdata"; "meta"; "met"]);
  ("apiVersion", ["api"; "version"; "apiv"]);
  ("kind", ["type"; "resource"]);
  ("spec", ["specification"; "spc"]);
  ("replicas", ["replica"; "reps"]);
  ("containers", ["container"; "ctr"]);
  ("image", ["img"; "imageName"]);
  ("name", ["nm"; "id"]);
  ("namespace", ["ns"; "namespaces"]);
  ("labels", ["label"; "tags"]);
  ("annotations", ["annotation"; "notes"]);
  ("selector", ["select"; "sel"]);
  ("template", ["tmpl"; "temp"]);
  ("volumeMounts", ["volumeMount"; "mounts"]);
  ("volumes", ["volume"; "vol"]);
  ("env", ["environment"; "envs"]);
  ("ports", ["port"]);
  ("resources", ["resource"; "res"]);
  ("limits", ["limit"]);
  ("requests", ["request"; "req"])].

Definition matchesKubernetesPattern (fieldName : string) : bool :=
  List.existsb (fun pattern => test pattern fieldName) FIELD_PATTERNS.

Definition isKnownField (fieldName : string) : bool := inList fieldName KNOWN_FIELDS.

Definition getCanonicalFieldName (fieldName : string) : option string :=
  option_map fst
    (List.find (fun '(_, aliases) => inList (toLowerCase fieldName) aliases)
       FIELD_ALIASES).

Inductive FieldType := Tstring | Tnumber | Tboolean | Tobject | Tarray | Tany.

#[global] Instance FieldType_eq_dec : EqDecision FieldType.
Proof. solve_decision. Defined.

(** (field, expectedType, context) *)
Definition TYPE_EXPECTATIONS : list (string * FieldType * option string) := [
  ("hostNetwork", Tboolean, None);
  ("hostPID", Tboolean, None);
  ("hostIPC", Tboolean, None);
  ("readOnly", Tboolean, None);
  ("privileged", Tboolean, None);
  ("allowPrivilegeEscalation", Tboolean, None);
  ("runAsNonRoot", Tboolean, None);
  ("stdin", Tboolean, None);
  ("stdinOnce", Tboolean, None);
  ("tty", Tboolean, None);
  ("immutable", Tboolean, None);
  ("suspend", Tboolean, None);
  ("paused", Tboolean, None);
  ("replicas", Tnumber, None);
  ("port", Tnumber, None);
  ("containerPort", Tnumber, None);
  ("targetPort", Tnumber, None);
  ("hostPort", Tnumber, None);
  ("nodePort", Tnumber, None);
  ("initialDelaySeconds", Tnumber, None);
  ("timeoutSeconds", Tnumber, None);
  ("periodSeconds", Tnumber, None);
  ("successThreshold", Tnumber, None);
  ("failureThreshold", Tnumber, None);
  ("terminationGracePeriodSeconds", Tnumber, None);
  ("minReadySeconds", Tnumber, None);
  ("revisionHistoryLimit", Tnumber, None);
  ("progressDeadlineSeconds", Tnumber, None);
  ("completions", Tnumber, None);
  ("parallelism", Tnumber, None);
  ("backoffLimit", Tnumber, None);
  ("activeDeadlineSeconds", Tnumber, None);
  ("ttlSecondsAfterFinished", Tnumber, None);
  ("successfulJobsHistoryLimit", Tnumber, None);
  ("failedJobsHistoryLimit", Tnumber, None);
  ("runAsUser", Tnumber, None);
  ("runAsGroup", Tnumber, None);
  ("fsGroup", Tnumber, None);
  ("priority", Tnumber, None);
  ("name", Tstring, None);
  ("namespace", Tstring, None);
  ("image", Tstring, None);
  ("imagePullPolicy", Tstring, None);
  ("restartPolicy", Tstring, None);
  ("dnsPolicy", Tstring, None);
  ("type", Tstring, None);
  ("protocol", Tstring, None);
  ("mountPath", Tstring, None);
  ("subPath", Tstring, None);
  ("path", Tstring, None);
  ("pathType", Tstring, None);
  ("storageClassName", Tstring, None);
  ("volumeMode", Tstring, None);
  ("concurrencyPolicy", Tstring, None);
  ("schedule", Tstring, None);
  ("apiVersion", Tstring, None);
  ("kind", Tstring, None);
  ("metadata", Tobject, None);
  ("spec", Tobject, None);
  ("template", Tobject, None);
  ("selector", Tobject, None);
  ("labels", Tobject, None);
  ("annotations", Tobject, None);
  ("resources", Tobject, None);
  ("limits", Tobject, None);
  ("requests", Tobject, None);
  ("securityContext", Tobject, None);
  ("affinity", Tobject, None);
  ("nodeSelector", Tobject, None);
  ("httpGet", Tobject, None);
  ("tcpSocket", Tobject, None);
  ("exec", Tobject, None);
  ("valueFrom", Tobject, None);
  ("configMapKeyRef", Tobject, None);
  ("secretKeyRef", Tobject, None);
  ("fieldRef", Tobject, None);
  ("resourceFieldRef", Tobject, None);
  ("containers", Tarray, None);
  ("initContainers", Tarray, None);
  ("volumes", Tarray, None);
  ("volumeMounts", Tarray, None);
  ("env", Tarray, None);
  ("envFrom", Tarray, None);
  ("ports", Tarray, None);
  ("command", Tarray, None);
  ("args", Tarray, None);
  ("tolerations", Tarray, None);
  ("imagePullSecrets", Tarray, None);
  ("finalizers", Tarray, None);
  ("ownerReferences", Tarray, None);
  ("accessModes", Tarray, None);
  ("rules", Tarray, None);
  ("paths", Tarray, None);
  ("tls", Tarray, None);
  ("subjects", Tarray, None);
  ("verbs", Tarray, None);
  ("apiGroups", Tarray, None);
  ("resources", Tarray, Some "rbac");
  ("resourceNames", Tarray, None)].

Definition getExpectedType (fieldName : string) (context : option string)
    : option FieldType :=
  option_map (fun e => snd (fst e))
    (List.find (fun '(field, _, ctx) =>
        String.eqb field fieldName &&
        match ctx with
        | None => true
        | Some c => match context with
                    | Some c' => String.eqb c c'
                    | None => false
                    end
        end)
      TYPE_EXPECTATIONS).

Definition wordToNumber : list (string * string) :=
  [("zero", "0"); ("one", "1"); ("two", "2"); ("three", "3"); ("four", "4");
   ("five", "5"); ("six", "6"); ("seven", "7"); ("eight", "8"); ("nine", "9");
   ("ten", "10")].

Definition assoc (k : string) (l : list (string * string)) : option string :=
  option_map snd (List.find (fun kv => String.eqb (fst kv) k) l).

End Knowledge.

(** Properties every object literal inherits from [Object.prototype]: a
    lookup [table[k]] that misses the table's own keys finds these.  The
    second component is the text the value gives when it is spliced into a
    template literal (functions print their native-code source). *)
Module Inherited.

Definition native (name : string) : string :=
  "function " ++ name ++ "() { [native code] }".

Definition objectPrototype : list (string * string) :=
  [("constructor", native "Object");
   ("__defineGetter__", native "__defineGetter__");
   ("__defineSetter__", native "__defineSetter__");
   ("hasOwnProperty", native "hasOwnProperty");
   ("__lookupGetter__", native "__lookupGetter__");
   ("__lookupSetter__", native "__lookupSetter__");
   ("isPrototypeOf", native "isPrototypeOf");
   ("propertyIsEnumerable", native "propertyIsEnumerable");
   ("toString", native "toString");
   ("valueOf", native "valueOf");
   ("__proto__", "[object Object]");
   ("toLocaleString", native "toLocaleString")].

(** [table[k]] for an object literal [table] with string values *)
Definition lookup (table : list (string * string)) (k : string) : option string :=
  match Knowledge.assoc k table with
  | Some v => Some v
  | None => Knowledge.assoc k objectPrototype
  end.

End Inherited.

(* ================================================================== *)
(** * fixers/utils/fuzzy-matcher.ts *)
(* ================================================================== *)

Module Fuzzy.

Import Js.

(** One row of the matrix from the row above it: [diag] is
    [matrix[i-1][j-1]], the head of [above] is [matrix[i-1][j]] and [left]
    is [matrix[i][j-1]]. *)
Fixpoint fillRow (c1 : ascii) (str2 : string) (diag : nat) (above : list nat)
    (left : nat) : list nat :=
  match str2, above with
  | String c2 r2, up :: above' =>
      let cost := if Ascii.eqb c1 c2 then 0 else 1 in
      let v := Nat.min (Nat.min (up + 1) (left + 1)) (diag + cost) in
      v :: fillRow c1 r2 up above' v
  | _, _ => []
  end.

Definition nextRow (i : nat) (c1 : ascii) (str2 : string) (above : list nat)
    : list nat :=
  match above with
  | a0 :: above' => i :: fillRow c1 str2 a0 above' i
  | [] => []
  end.

Fixpoint rows (str1 : string) (i : nat) (str2 : string) (above : list nat)
    : list nat :=
  match str1 with
  | EmptyString => above
  | String c1 r1 => rows r1 (S i) str2 (nextRow i c1 str2 above)
  end.

Definition levenshteinDistance (str1 str2 : string) : nat :=
  List.last (rows str1 1 str2 (List.seq 0 (S (String.length str2)))) 0.

(** The loop of [findClosestMatch]; [None] for [minDistance] is
    [Infinity]. *)
Fixpoint closest (target : string) (candidates : list string) (maxDistance : nat)
    (best : option (string * nat)) : option (string * nat) :=
  match candidates with
  | [] => best
  | candidate :: rest =>
      let distance :=
        levenshteinDistance (toLowerCase target) (toLowerCase candidate) in
      let better := match best with
                    | Some (_, minDistance) => (distance <? minDistance)%nat
                    | None => true
                    end in
      closest target rest maxDistance
        (if (distance <=? maxDistance)%nat && better
         then Some (candidate, distance) else best)
  end.

(** [closestMatch ? {...} : null]: an empty best candidate is falsy. *)
Definition findClosestMatch (target : string) (candidates : list string)
    (maxDistance : nat) : option (string * nat) :=
  match closest target candidates maxDistance None with
  | Some (m, d) => if isEmpty m then None else Some (m, d)
  | None => None
  end.

(** For a distance above 2 the ratio [1 - distance / targetLength],
    computed on doubles, is clamped at 0; with [targetLength = 0] the
    quotient is [Infinity] and the result 0. *)
Definition calculateFuzzyConfidence (distance targetLength : nat) : Q :=
  match distance with
  | 0%nat => 1.0
  | 1%nat => 0.9
  | 2%nat => 0.7
  | _ =>
      if (targetLength =? 0)%nat then 0
      else Qmax 0 (Double.sub 1
                     (Double.div (inject_Z (Z.of_nat distance))
                                 (inject_Z (Z.of_nat targetLength))))
  end.

(** [areSimilar(str1, str2, maxDistance = 2)] *)
Definition areSimilar (str1 str2 : string) (maxDistance : nat) : bool :=
  (levenshteinDistance str1 str2 <=? maxDistance)%nat.

End Fuzzy.

(* ================================================================== *)
(** * The fix-detection passes *)
(* ================================================================== *)

Definition DQ : string := String (ascii_of_nat 34) EmptyString.
Definition SQ : string := String (ascii_of_nat 39) EmptyString.
Definition quoted (s : string) : string := DQ ++ s ++ DQ.

Definition Qgeb (a b : Q) : bool := Qle_bool b a.
Definition Qgtb (a b : Q) : bool := negb (Qle_bool a b).

(** Every pass ends a candidate's life with
    [if (fix && fix.confidence >= this.options.confidenceThreshold)
    fixes.push(fix)]. *)
Definition pushIfConfident (options : FixerOptions) (fix_ : option FixSuggestion)
    : list FixSuggestion :=
  match fix_ with
  | Some f => if Qgeb (confidence f) (confidenceThreshold options) then [f] else []
  | None => []
  end.

(** ** fixers/context-aware-key-fixer.ts *)
Module ContextAwareKeyFixer.

Import Js Knowledge.

Definition nextIsDeeper (parser : SemanticParser.t) (line : SemanticLine) : bool :=
  match SemanticParser.getNextNonBlankLine parser (sl_lineNumber line) with
  | Some nextLine => (sl_indent line <? sl_indent nextLine)%nat
  | None => false
  end.

Definition detectMissingColonInListItem (parser : SemanticParser.t)
    (line : SemanticLine) (trimmed : string) : option FixSuggestion :=
  let afterDash := trim (substringFrom 2 trimmed) in
  let parts := splitWs afterDash in
  let key := List.hd "" parts in
  let value := join " " (List.tl parts) in
  let indent := spaces (sl_indent line) in
  let n := Z.of_nat (sl_lineNumber line) in
  if (2 <=? List.length parts)%nat && isKnownField key then
    Some (mkFix n missing_colon (sl_content line)
            (indent ++ "- " ++ key ++ ": " ++ value)
            ("Missing colon after " ++ quoted key ++ " in list item")
            0.95 error false)
  else if (2 <=? List.length parts)%nat && matchesKubernetesPattern key then
    Some (mkFix n missing_colon (sl_content line)
            (indent ++ "- " ++ key ++ ": " ++ value)
            ("Likely missing colon after " ++ quoted key ++ " in list item")
            0.7 warning false)
  else if (List.length parts =? 1)%nat && nextIsDeeper parser line then
    let confidence : Q :=
      (if isKnownField key then 0.95
       else if matchesKubernetesPattern key then 0.75 else 0.6)%Q in
    Some (mkFix n missing_colon (sl_content line)
            (indent ++ "- " ++ key ++ ":")
            ("Missing colon after " ++ quoted key ++ " (has child elements)")
            confidence (if Qgeb confidence 0.8 then error else warning) false)
  else None.

Definition detectMissingColonInKey (parser : SemanticParser.t)
    (line : SemanticLine) (trimmed : string) : option FixSuggestion :=
  let parts := splitWs trimmed in
  let key := List.hd "" parts in
  let value := join " " (List.tl parts) in
  let indent := spaces (sl_indent line) in
  let n := Z.of_nat (sl_lineNumber line) in
  if (2 <=? List.length parts)%nat && isKnownField key then
    Some (mkFix n missing_colon (sl_content line)
            (indent ++ key ++ ": " ++ value)
            ("Missing colon after known Kubernetes field " ++ quoted key)
            0.95 error false)
  else if (2 <=? List.length parts)%nat && matchesKubernetesPattern key then
    match getExpectedType key None with
    | Some expectedType =>
        if negb (bool_decide (expectedType = Tobject))
           && negb (bool_decide (expectedType = Tarray)) then
          Some (mkFix n missing_colon (sl_content line)
                  (indent ++ key ++ ": " ++ value)
                  ("Missing colon after " ++ quoted key ++ " (expects "
                   ++ match expectedType with
                      | Tstring => "string" | Tnumber => "number"
                      | Tboolean => "boolean" | Tobject => "object"
                      | Tarray => "array" | Tany => "any"
                      end ++ " value)")
                  0.85 error false)
        else
          Some (mkFix n missing_colon (sl_content line)
                  (indent ++ key ++ ": " ++ value)
                  ("Likely missing colon after " ++ quoted key)
                  0.7 warning false)
    | None =>
        Some (mkFix n missing_colon (sl_content line)
                (indent ++ key ++ ": " ++ value)
                ("Likely missing colon after " ++ quoted key)
                0.7 warning false)
    end
  else if (List.length parts =? 1)%nat && nextIsDeeper parser line then
    let confidence0 : Q :=
      (if isKnownField key then 0.95
       else if matchesKubernetesPattern key then 0.75 else 0.6)%Q in
    let siblings := SemanticParser.findSiblings parser line in
    let siblingsWithColons := List.length (List.filter sl_hasColon siblings) in
    let confidence : Q :=
      if (0 <? List.length siblings)%nat
         && Qgtb (inject_Z (Z.of_nat siblingsWithColons)
                  / inject_Z (Z.of_nat (List.length siblings))) 0.8
      then Qmax confidence0 0.85 else confidence0 in
    Some (mkFix n missing_colon (sl_content line)
            (indent ++ key ++ ":")
            ("Missing colon after " ++ quoted key ++ " (has child elements)")
            confidence (if Qgeb confidence 0.8 then error else warning) false)
  else None.

Definition detectMissingColon (parser : SemanticParser.t) (line : SemanticLine)
    : option FixSuggestion :=
  let trimmed := trim (sl_content line) in
  if startsWith trimmed "- " then detectMissingColonInListItem parser line trimmed
  else detectMissingColonInKey parser line trimmed.

Definition skips (line : SemanticLine) : bool :=
  sl_hasColon line || bool_decide (sl_type line = blank)
  || bool_decide (sl_type line = comment)
  || bool_decide (sl_type line = block_scalar).

Definition findMissingColons (parser : SemanticParser.t) (options : FixerOptions)
    : list FixSuggestion :=
  List.flat_map (fun line =>
      if skips line then []
      else pushIfConfident options (detectMissingColon parser line))
    (SemanticParser.getLines parser).

End ContextAwareKeyFixer.

(** ** fixers/field-normalizer.ts *)
Module FieldNormalizer.

Import Js Knowledge.

Definition knownFieldsArray : list string := KNOWN_FIELDS.

Definition isContextAppropriate (parser : SemanticParser.t)
    (suggestedField : string) : bool :=
  let path := Analyzer.getCurrentPath (SemanticParser.contextAnalyzer parser) in
  if (List.length path =? 0)%nat then
    inList suggestedField ["apiVersion"; "kind"; "metadata"; "spec"; "data"; "status"]
  else if inList "metadata" path then
    inList suggestedField
      ["name"; "namespace"; "labels"; "annotations"; "uid"; "resourceVersion"]
  else true.

(** The text of [reason] is the one of the source file, byte for byte. *)
Definition createTypoFix (line : SemanticLine) (correctField : string)
    (confidence : Q) (reason : string) : FixSuggestion :=
  let indent := spaces (sl_indent line) in
  let prefix := if sl_isListItem line then "- " else "" in
  let suffix :=
    if sl_hasColon line then
      ":" ++ (if truthy (sl_value line) then " " ++ default "" (sl_value line) else "")
    else "" in
  let fixed := indent ++ prefix ++ correctField ++ suffix in
  mkFix (Z.of_nat (sl_lineNumber line)) field_normalization (sl_content line) fixed
    (reason ++ ": " ++ quoted (default "" (sl_key line)) ++ " â†’ "
       ++ quoted correctField)
    confidence (if Qgeb confidence 0.85 then error else warning) false.

(** [Math.min(confidence + 0.1, 1.0)] on doubles. *)
Definition boost (confidence : Q) : Q :=
  Qmin (Double.add (Double.lit confidence) (Double.lit 0.1)) 1.0.

Definition natToString (n : nat) : string :=
  match n with
  | 0%nat => "0" | 1%nat => "1" | 2%nat => "2"
  | _ => "?"   (* [findClosestMatch] is called with a cutoff of 2 *)
  end.

Definition detectTypo (parser : SemanticParser.t) (line : SemanticLine)
    : option FixSuggestion :=
  let fieldName := default "" (sl_key line) in
  if isKnownField fieldName then None
  else match getCanonicalFieldName fieldName with
  | Some canonical =>
      if isEmpty canonical then None
      else Some (createTypoFix line canonical 0.9 "Known alias")
  | None =>
      match Fuzzy.findClosestMatch fieldName knownFieldsArray 2 with
      | Some (match_, distance) =>
          let confidence :=
            Fuzzy.calculateFuzzyConfidence distance (String.length fieldName) in
          if isContextAppropriate parser match_ then
            Some (createTypoFix line match_ (boost confidence)
                    ("Likely typo (distance: " ++ natToString distance ++ ")"))
          else
            Some (createTypoFix line match_ confidence
                    ("Possible typo (distance: " ++ natToString distance ++ ")"))
      | None => None
      end
  end.

Definition skips (line : SemanticLine) : bool :=
  negb (truthy (sl_key line)) || bool_decide (sl_type line = blank)
  || bool_decide (sl_type line = comment)
  || bool_decide (sl_type line = block_scalar).

Definition findTypos (parser : SemanticParser.t) (options : FixerOptions)
    : list FixSuggestion :=
  List.flat_map (fun line =>
      if skips line then []
      else pushIfConfident options (detectTypo parser line))
    (SemanticParser.getLines parser).

End FieldNormalizer.

(** ** fixers/list-structure-fixer.ts *)
Module ListStructureFixer.

Import Js.

(** [/^-\s+[A-Z_][A-Z0-9_]*$/] and [/^-\s+[a-z][a-z0-9-]*$/] *)
Definition reEnvItem : regex :=
  [Ch (isChar "-") One; Ch isSpace Plus;
   Ch (fun c => isUpper c || isChar "_" c) One;
   Ch (fun c => isUpper c || isDigit c || isChar "_" c) Star; Eos].

Definition reNameItem : regex :=
  [Ch (isChar "-") One; Ch isSpace Plus; Ch isLower One;
   Ch (fun c => isLower c || isDigit c || isChar "-" c) Star; Eos].

Definition keyIs (line : SemanticLine) (k : string) : bool :=
  match sl_key line with
  | Some k' => String.eqb k' k
  | None => false
  end.

Definition restructure (line : SemanticLine) (trimmed what : string)
    (confidence : Q) : FixSuggestion :=
  let name := trim (substringFrom 2 trimmed) in
  let indent := spaces (sl_indent line) in
  mkFix (Z.of_nat (sl_lineNumber line)) list_restructure (sl_content line)
    (indent ++ "- name: " ++ name)
    ("Restructuring broken " ++ what ++ " " ++ quoted name ++ " to standard format")
    confidence error true.

Definition fixBrokenEnvVar (parser : SemanticParser.t) (line : SemanticLine)
    : option FixSuggestion :=
  let trimmed := trim (sl_content line) in
  if negb (test reEnvItem trimmed) then None
  else match SemanticParser.getNextNonBlankLine parser (sl_lineNumber line) with
  | None => None
  | Some nextLine =>
      if keyIs nextLine "value" || keyIs nextLine "valueFrom"
      then Some (restructure line trimmed "env var" 0.85)
      else None
  end.

Definition fixBrokenContainer (parser : SemanticParser.t) (line : SemanticLine)
    : option FixSuggestion :=
  let trimmed := trim (sl_content line) in
  if negb (test reNameItem trimmed) then None
  else match SemanticParser.getNextNonBlankLine parser (sl_lineNumber line) with
  | None => None
  | Some nextLine =>
      if keyIs nextLine "image" && (sl_indent line <? sl_indent nextLine)%nat
      then Some (restructure line trimmed "container" 0.8)
      else None
  end.

Definition fixBrokenVolumeMount (parser : SemanticParser.t) (line : SemanticLine)
    : option FixSuggestion :=
  let trimmed := trim (sl_content line) in
  if negb (test reNameItem trimmed) then None
  else match SemanticParser.getNextNonBlankLine parser (sl_lineNumber line) with
  | None => None
  | Some nextLine =>
      if keyIs nextLine "mountPath" && (sl_indent line <? sl_indent nextLine)%nat
      then Some (restructure line trimmed "volume mount" 0.8)
      else None
  end.

Definition findBrokenLists (parser : SemanticParser.t) (options : FixerOptions)
    : list FixSuggestion :=
  List.flat_map (fun line =>
      if negb (sl_isListItem line) then []
      else (pushIfConfident options (fixBrokenEnvVar parser line)
            ++ pushIfConfident options (fixBrokenContainer parser line)
            ++ pushIfConfident options (fixBrokenVolumeMount parser line))%list)
    (SemanticParser.getLines parser).

End ListStructureFixer.

(** ** knowledge/type-registry.ts: [coerceToType] *)
Module TypeRegistry.

Import Js Knowledge.

Definition coerceToType (fieldName value : string) (context : option string)
    : string :=
  match getExpectedType fieldName context with
  | None => value
  | Some Tnumber =>
      match Inherited.lookup wordToNumber (toLowerCase value) with
      | Some v => if isEmpty v then value else v
      | None => value
      end
  | Some Tboolean =>
      if String.eqb (toLowerCase value) "yes" || String.eqb value "1" then "true"
      else if String.eqb (toLowerCase value) "no" || String.eqb value "0" then "false"
      else value
  | Some _ => value
  end.

End TypeRegistry.

(** ** fixers/type-coercer.ts *)
Module TypeCoercer.

Import Js Knowledge.

Definition reDigits : regex := [Ch isDigit Plus; Eos].

(** The text between a pair of matching quotes, when it is a number. *)
Definition unquoteNumber (value : string) : option string :=
  let n := String.length value in
  let inner := slice 1 (n - 1) value in
  if (2 <=? n)%nat
     && ((startsWith value DQ && endsWith value DQ)
         || (startsWith value SQ && endsWith value SQ))
     && test reDigits inner
  then Some inner else None.

(** Modelled from the spec: the [TypeCoercer] class that
    intelligent-fixer.ts imports from fixers/type-coercer.ts is not among
    the sources.  The spec gives its contract: for key-value lines whose
    key has a known expected scalar type, quoted numeric strings lose their
    quotes, number words become digits and yes/no/1/0 become boolean
    literals.  The candidate is built and filtered as in the sibling passes,
    with the confidence the scorer's rules give a type coercion on a known
    field (0.85). *)
Definition detectTypeMismatch (line : SemanticLine) : option FixSuggestion :=
  match sl_key line, sl_value line with
  | Some key, Some value =>
      if negb (bool_decide (sl_type line = key_value)) then None
      else
        let coerced :=
          match getExpectedType key None with
          | Some Tnumber =>
              match unquoteNumber value with
              | Some digits => digits
              | None => TypeRegistry.coerceToType key value None
              end
          | Some Tboolean => TypeRegistry.coerceToType key value None
          | _ => value
          end in
        if String.eqb coerced value then None
        else
          Some (mkFix (Z.of_nat (sl_lineNumber line)) type_coercion (sl_content line)
                  (spaces (sl_indent line) ++ key ++ ": " ++ coerced)
                  ("Coerced value of " ++ quoted key)
                  0.85 warning false)
  | _, _ => None
  end.

Definition findTypeMismatches (parser : SemanticParser.t) (options : FixerOptions)
    : list FixSuggestion :=
  List.flat_map (fun line => pushIfConfident options (detectTypeMismatch line))
    (SemanticParser.getLines parser).

End TypeCoercer.

(* ================================================================== *)
(** * The YAML library (js-yaml)

    The parser and the serializer are collaborators: [load] and [loadAll]
    either return the parsed value(s) or throw a [YAMLException], whose
    [mark] (when present) holds the zero-based line and column. *)
(* ================================================================== *)

(** The values a document parses to: trees of JSON-like values.  An array
    also carries the named properties assigned to it, as any object does. *)
Inductive JsValue :=
| JUndefined
| JNull
| JBool (b : bool)
| JNum (n : Q)
| JStr (s : string)
| JArr (items : list JsValue) (props : list (string * JsValue))
| JObj (props : list (string * JsValue)).

Class YamlLib := {
  load : string -> Completion JsValue;
  loadAll : string -> Completion (list JsValue);
  dump : nat -> JsValue -> string      (* dump(value, { indent, ... }) *)
}.

(* ================================================================== *)
(** * semantic/intelligent-fixer.ts *)
(* ================================================================== *)

Record ValidationError := mkError {
  err_line : Z;
  err_column : option Z;
  err_message : string;
  err_severity : LineSeverity;
  err_code : option string;
  err_fixable : option bool
}.

Record ValidationResult := mkResult {
  isValid : bool;
  fixes : list FixSuggestion;
  errors : list ValidationError;
  warnings : list string;
  fixedYaml : string;
  overallConfidence : Q
}.

Definition thrownMessage (t : Thrown) : string :=
  match t with
  | ThrowYAML e => message e
  | ThrowTypeError msg => msg
  end.

Definition thrownMark (t : Thrown) : option (Z * Z) :=
  match t with
  | ThrowYAML e => mark e
  | ThrowTypeError _ => None
  end.

Module Intelligent.

Import Js.

(** The constructor: in aggressive mode the threshold is lowered to at most
    0.6. *)
Definition construct (options : FixerOptions) : FixerOptions :=
  if aggressive options then
    mkOptions (Qmin (confidenceThreshold options) 0.6) (aggressive options)
      (maxIterations options) (enableLearning options) (enableRelocation options)
      (indentSize options)
  else options.

Definition defaultOptions : FixerOptions := mkOptions 0.8 false 3 true true 2.

Definition applyOne (lines : list string) (fix_ : FixSuggestion) : list string :=
  if (0 <? lineNumber fix_)%Z && (lineNumber fix_ <=? Z.of_nat (List.length lines))%Z
  then <[Z.to_nat (lineNumber fix_ - 1) := fixed fix_]> lines
  else lines.

Definition applyFixes (yamlContent : string) (fixes : list FixSuggestion) : string :=
  let lines := splitLines yamlContent in
  let sortedFixes := sort (fun a b => (lineNumber b - lineNumber a)%Z) fixes in
  joinLines (List.fold_left applyOne sortedFixes lines).

(** The fixes one iteration collects from the four passes, in the order
    they are pushed. *)
Definition iterationFixes (options : FixerOptions) (currentYaml : string)
    : list FixSuggestion :=
  let parser := SemanticParser.parse currentYaml in
  (ContextAwareKeyFixer.findMissingColons parser options
   ++ FieldNormalizer.findTypos parser options
   ++ ListStructureFixer.findBrokenLists parser options
   ++ TypeCoercer.findTypeMismatches parser options)%list.

Definition validFixes (options : FixerOptions) (currentYaml : string)
    : list FixSuggestion :=
  Scorer.filterByConfidence (iterationFixes options currentYaml)
    (confidenceThreshold options).

Record LoopState := mkState {
  allFixes : list FixSuggestion;
  currentYaml : string;
  iteration : nat
}.

Section WithYaml.
Context `{YamlLib}.

(** The [while] loop of [fix].  Each turn either leaves the loop
    ([break], or the guard fails) or goes round again after [iteration]
    has grown, so [maxIterations - iteration] turns are enough; [fuel]
    counts them. *)
Fixpoint loop (options : FixerOptions) (fuel : nat) (st : LoopState) : LoopState :=
  match fuel with
  | O => st
  | S fuel' =>
      if (iteration st <? maxIterations options)%nat then
        let iteration' := S (iteration st) in
        let valid := validFixes options (currentYaml st) in
        if (List.length valid =? 0)%nat then
          mkState (allFixes st) (currentYaml st) iteration'
        else
          let currentYaml' := applyFixes (currentYaml st) valid in
          let st' := mkState (allFixes st ++ valid)%list currentYaml' iteration' in
          match load currentYaml' with
          | Normal _ => st'
          | Throw _ => loop options fuel' st'
          end
      else st
  end.

Definition finalErrors (currentYaml : string) : bool * list ValidationError :=
  match load currentYaml with
  | Normal _ => (true, [])
  | Throw t =>
      (false,
       [mkError (match thrownMark t with Some (l, _) => l | None => 0%Z end)
          None (thrownMessage t) error None None])
  end.

(** [fix], for a fixer constructed with [construct options]. *)
Definition fix_ (options : FixerOptions) (yamlContent : string) : ValidationResult :=
  let st := loop options (maxIterations options) (mkState [] yamlContent 0) in
  let overall := Scorer.calculateOverallConfidence (allFixes st) in
  let sortedFixes := sort (fun a b => (lineNumber a - lineNumber b)%Z) (allFixes st) in
  let '(valid, errs) := finalErrors (currentYaml st) in
  mkResult valid sortedFixes errs [] (currentYaml st) overall.

End WithYaml.

End Intelligent.

(* ================================================================== *)
(** * The indentation validator: [detectIndentationStyle] *)
(* ================================================================== *)

Module Indentation.

Import Js.

(** One turn of the loop: [counts] is the pair (counts[2], counts[4]).  A
    line takes part when [/^(\s+)/] matches, that is when its leading
    white space is not empty. *)
Definition countLine (counts : nat * nat) (line : string) : nat * nat :=
  let spaces := getIndent line in
  if (spaces =? 0)%nat then counts
  else
    let c4 := if (spaces mod 4 =? 0)%nat then S (snd counts) else snd counts in
    let c2 := if (spaces mod 2 =? 0)%nat then S (fst counts) else fst counts in
    (c2, c4).

Definition detectIndentationStyle (content : string) : nat :=
  let lines := splitLines content in
  let counts := List.fold_left countLine lines (0, 0)%nat in
  if (fst counts <? snd counts)%nat then 4 else 2.

End Indentation.

(* ================================================================== *)
(** * core/yaml-fixer.ts *)
(* ================================================================== *)

Record FixChange := mkChange {
  ch_type : string;
  ch_line : Z;
  ch_original : string;
  ch_fixed : string;
  ch_reason : string;
  ch_severity : LineSeverity
}.

Record FixResult := mkFixResult {
  fr_content : string;
  fr_fixedCount : nat;
  fr_changes : list FixChange;
  fr_errors : list ValidationError
}.

Module YAMLFixer.

Import Js Knowledge.

Definition KEY_ALIASES : list (string * string) := [
  ("met", "metadata");
  ("meta", "metadata");
  ("metdata", "metadata");
  ("metadata_", "metadata");
  ("metadta", "metadata");
  ("specf", "spec");
  ("spec_", "spec");
  ("sepc", "spec");
  ("spc", "spec");
  ("contianers", "containers");
  ("containers_", "containers");
  ("conteiners", "containers");
  ("containres", "containers");
  ("volumns", "volumes");
  ("volums", "volumes");
  ("volumes_", "volumes");
  ("volumnes", "volumes");
  ("envs", "env");
  ("env_", "env");
  ("enviroment", "env");
  ("environment", "env");
  ("labels_", "labels");
  ("lables", "labels");
  ("labes", "labels");
  ("annotations_", "annotations");
  ("annotaions", "annotations");
  ("image_", "image");
  ("img", "image");
  ("ports_", "ports");
  ("port_", "ports");
  ("selector_", "selector");
  ("selecter", "selector");
  ("replicas_", "replicas");
  ("replica", "replicas");
  ("namespace_", "namespace");
  ("namespce", "namespace");
  ("namesapce", "namespace");
  ("dat", "data");
  ("securitycontext", "securityContext");
  ("fsgroup", "fsGroup");
  ("runasuser", "runAsUser");
  ("accessmodes", "accessModes")].

Definition KNOWN_K8S_KEYS : list string := setOf [] [
  "apiVersion"; "kind"; "metadata"; "spec"; "status"; "name"; "namespace";
  "labels"; "annotations"; "replicas"; "selector"; "template"; "strategy";
  "containers"; "initContainers"; "volumes"; "volumeMounts"; "image";
  "imagePullPolicy"; "command"; "args"; "env"; "envFrom"; "ports";
  "containerPort"; "hostPort"; "protocol"; "resources"; "limits";
  "requests"; "cpu"; "memory"; "restartPolicy"; "nodeSelector"; "affinity";
  "tolerations"; "serviceAccountName"; "securityContext"; "hostNetwork";
  "type"; "clusterIP"; "externalIPs"; "loadBalancerIP"; "port";
  "targetPort"; "nodePort"; "path"; "pathType"; "backend"; "serviceName";
  "servicePort"; "data"; "stringData"; "binaryData"; "rules"; "verbs";
  "apiGroups"; "resources"; "effect"; "key"; "operator"; "value";
  "tolerationSeconds"; "persistentVolumeClaim"; "accessModes"; "fsGroup";
  "runAsUser"; "matchLabels"; "claimName"; "storage"; "disktype"].

Definition NUMERIC_FIELDS : list string := setOf [] [
  "replicas"; "containerPort"; "port"; "targetPort"; "nodePort";
  "hostPort"; "timeoutSeconds"; "periodSeconds"; "successThreshold";
  "failureThreshold"; "initialDelaySeconds";
  "terminationGracePeriodSeconds"; "activeDeadlineSeconds";
  "progressDeadlineSeconds"; "revisionHistoryLimit"; "minReadySeconds";
  "weight"; "priority"].

Definition METADATA_FIELDS : list string :=
  ["name"; "namespace"; "labels"; "annotations"; "generateName"].

Definition SPEC_FIELDS : list string :=
  ["replicas"; "selector"; "template"; "strategy"; "minReadySeconds";
   "progressDeadlineSeconds"; "revisionHistoryLimit"].

Definition POD_SPEC_FIELDS : list string :=
  ["containers"; "initContainers"; "volumes"; "restartPolicy"; "nodeSelector";
   "affinity"; "tolerations"; "serviceAccountName"; "securityContext";
   "hostNetwork"; "dnsPolicy"; "imagePullSecrets"].

(** [KEY_ALIASES[a] || KEY_ALIASES[b]] *)
Definition alias2 (a b : string) : option string :=
  match Inherited.lookup KEY_ALIASES a with
  | Some v => Some v
  | None => Inherited.lookup KEY_ALIASES b
  end.

(** ** The regular expressions of phase 1 *)

Definition isValueChar (c : ascii) : bool :=
  isAlnum c || isChar "_" c || isChar "/" c || isChar ":" c || isChar "." c
  || isChar "@" c || isChar "=" c || isChar "+" c || isChar "-" c.

(** [/^(\s* )([a-zA-Z0-9_-]+)\s+([a-zA-Z0-9_\/:.@=+-]+)$/] *)
Definition reKeyValue : regex :=
  [GOpen; Ch isSpace Star; GClose; GOpen; Ch isKeyChar Plus; GClose;
   Ch isSpace Plus; GOpen; Ch isValueChar Plus; GClose; Eos].

(** [/^\s*[a-zA-Z0-9_-]+:\s/] *)
Definition reKeyColonSpace : regex :=
  [Ch isSpace Star; Ch isKeyChar Plus; Ch (isChar ":") One; Ch isSpace One].

(** [/^(\s* )-\s+([A-Z0-9_]+)$/] *)
Definition reOrphaned : regex :=
  [GOpen; Ch isSpace Star; GClose; Ch (isChar "-") One; Ch isSpace Plus;
   GOpen; Ch (fun c => isUpper c || isDigit c || isChar "_" c) Plus; GClose; Eos].

(** [/^-\s+([a-zA-Z0-9_-]+)$/] *)
Definition reListKey : regex :=
  [Ch (isChar "-") One; Ch isSpace Plus; GOpen; Ch isKeyChar Plus; GClose; Eos].

(** [/^[a-zA-Z0-9_-]+:/] *)
Definition reKeyColon : regex := [Ch isKeyChar Plus; Ch (isChar ":") One].

(** [/^(\s* )([^:\s]+):(?!\s)([^#\s].* )/] *)
Definition reColonNoSpace : regex :=
  [GOpen; Ch isSpace Star; GClose;
   GOpen; Ch (fun c => negb (isChar ":" c || isSpace c)) Plus; GClose;
   Ch (isChar ":") One; NotAhead isSpace;
   GOpen; Ch (fun c => negb (isChar "#" c || isSpace c)) One; Ch isDot Star; GClose].

(** [/^(\s* )-\s+([a-zA-Z0-9_-]+)\s+(.+)$/] *)
Definition reListItem : regex :=
  [GOpen; Ch isSpace Star; GClose; Ch (isChar "-") One; Ch isSpace Plus;
   GOpen; Ch isKeyChar Plus; GClose; Ch isSpace Plus;
   GOpen; Ch isDot Plus; GClose; Eos].

(** [/^(\s* )([a-zA-Z0-9_-]+):/] *)
Definition reIndentKey : regex :=
  [GOpen; Ch isSpace Star; GClose; GOpen; Ch isKeyChar Plus; GClose;
   Ch (isChar ":") One].

(** [/^[ -]*([a-zA-Z0-9_-]+):/] *)
Definition reKeyExtract : regex :=
  [Ch (fun c => isChar " " c || isChar "-" c) Star;
   GOpen; Ch isKeyChar Plus; GClose; Ch (isChar ":") One].

(** [/^([a-zA-Z0-9_-]+):\s*(.+)$/] *)
Definition reKeyAnyValue : regex :=
  [GOpen; Ch isKeyChar Plus; GClose; Ch (isChar ":") One; Ch isSpace Star;
   GOpen; Ch isDot Plus; GClose; Eos].

Definition TAB : ascii := "009"%char.

(** ** Phase 1: line-by-line syntax normalization *)

Record Phase1State := mkPhase1 {
  normalizedLines : list string;
  changes : list FixChange;
  inBlockScalar : bool;
  inConfigMapData : bool;
  configMapIndent : Z;
  seenKeys : gmap Z (gset string);   (* indent level -> set of keys *)
  lastIndent : Z
}.

Definition initPhase1 : Phase1State := mkPhase1 [] [] false false 0 ∅ 0.

Definition change (ty : string) (i : nat) (original fixed reason : string)
    (sev : LineSeverity) : FixChange :=
  mkChange ty (Z.of_nat i + 1) original fixed reason sev.

(** [lines[i - k]?.includes('ConfigMap')] *)
Definition mentionsConfigMap (lines : list string) (i k : nat) : bool :=
  if (k <=? i)%nat then
    match List.nth_error lines (i - k) with
    | Some l => includes l "ConfigMap"
    | None => false
    end
  else false.

(** [seenKeys.delete(l)] for every level [l] that [p] selects *)
Definition deleteLevels (p : Z -> bool) (seen : gmap Z (gset string))
    : gmap Z (gset string) :=
  filter (fun kv => p (fst kv) = false) seen.

Definition listKeys : list string :=
  ["metadata"; "spec"; "accessModes"; "volumeMounts"; "resources"; "requests";
   "limits"].

Section Phase1.
Variable indentSize : nat.
Variable lines : list string.

(** The part of the loop body between the two early [continue]s and the
    duplicate-key bookkeeping: the fixes numbered in the source, applied
    in turn to [line].  The result is the line, the changes pushed, the
    two ConfigMap variables and [updatedTrimmed]. *)
Definition rewriteLine (st : Phase1State) (i : nat) (original : string)
    : string * list FixChange * bool * Z * string :=
  let trimmed := trim original in
  let line := original in
  let cs : list FixChange := [] in
  (* 1. Convert tabs to spaces *)
  let '(line, cs) :=
    if includes line (String TAB EmptyString) then
      let line' := replaceAll (isChar TAB) (spaces indentSize) line in
      (line', cs ++ [change "INDENT" i original line'
                       "Converted tabs to spaces" warning])%list
    else (line, cs) in
  (* 2. Remove trailing whitespace *)
  let line := trimEnd line in
  (* FIX 6: ConfigMap data nesting *)
  let '(line, cs, inConfig, configIndent) :=
    if String.eqb trimmed "data:"
       && (mentionsConfigMap lines i 1 || mentionsConfigMap lines i 2) then
      (line, cs, true, searchNonSpace line)
    else if inConfigMapData st then
      if startsWith trimmed "---"
         || ((searchNonSpace line <=? configMapIndent st)%Z
             && negb (String.eqb trimmed "")) then
        (line, cs, false, configMapIndent st)
      else
        let currentIndent := searchNonSpace line in
        if (currentIndent <=? configMapIndent st)%Z then
          let newIndent := (configMapIndent st + Z.of_nat indentSize)%Z in
          let line' := spaces (Z.to_nat newIndent) ++ trimmed in
          (line', (cs ++ [change "INDENT" i original line'
                            "Fixed ConfigMap data nesting" error])%list,
           true, configMapIndent st)
        else (line, cs, true, configMapIndent st)
    else (line, cs, inConfigMapData st, configMapIndent st) in
  (* FIX 4: under-indentation relative to the previous list item *)
  let '(line, cs) :=
    match List.last (List.map Some (normalizedLines st)) None with
    | Some prevLine =>
        let prevTrimmed := trim prevLine in
        if startsWith prevTrimmed "- " && includes prevTrimmed ":" then
          let prevDashPos := indexOf prevLine "-" in
          let currentIndent := searchNonSpace line in
          let expectedIndent := (prevDashPos + 2)%Z in
          if includes trimmed ":" && (currentIndent <? expectedIndent)%Z
             && (prevDashPos <? currentIndent)%Z then
            let line' := spaces (Z.to_nat expectedIndent) ++ trimmed in
            (line', (cs ++ [change "INDENT" i original line'
                              "Fixed under-indentation relative to list item"
                              error])%list)
          else (line, cs)
        else (line, cs)
    | None => (line, cs)
    end in
  let currentTrimmed := trim line in
  (* FIX 1: missing colon, general "key value" pattern *)
  let keyValueMatch := exec reKeyValue line in
  let '(line, cs, currentTrimmed) :=
    match keyValueMatch with
    | Some (_, gs) =>
        if negb (startsWith currentTrimmed "-") && negb (test reKeyColonSpace line)
        then
          let line' := group 0 gs ++ group 1 gs ++ ": " ++ group 2 gs in
          (line', (cs ++ [change "COLON" i original line'
                            ("Added missing colon to " ++ quoted (group 1 gs))
                            critical])%list,
           trim line')
        else (line, cs, currentTrimmed)
    | None => (line, cs, currentTrimmed)
    end in
  (* FIX 3: orphaned list items *)
  let '(line, cs, currentTrimmed) :=
    match exec reOrphaned line, List.nth_error lines (i + 1) with
    | Some (_, gs), Some next =>
        if startsWith (trim next) "value:" then
          let line' := group 0 gs ++ "- name: " ++ group 1 gs in
          (line', (cs ++ [change "STRUCTURE" i original line'
                            ("Fixed orphaned list item " ++ quoted (group 1 gs))
                            error])%list,
           trim line')
        else (line, cs, currentTrimmed)
    | _, _ => (line, cs, currentTrimmed)
    end in
  (* FIX 7: list context colons *)
  let '(line, cs, currentTrimmed) :=
    if startsWith currentTrimmed "- " && negb (includes currentTrimmed ":") then
      match exec reListKey currentTrimmed with
      | Some (_, gs) =>
          let key := group 0 gs in
          if inList key listKeys then
            let line' := leadingSpace line ++ "- " ++ key ++ ":" in
            (line', (cs ++ [change "COLON" i original line'
                              ("Added missing colon to list item " ++ quoted key)
                              critical])%list,
             trim line')
          else (line, cs, currentTrimmed)
      | None => (line, cs, currentTrimmed)
      end
    else (line, cs, currentTrimmed) in
  (* 3. Missing colons for known keys *)
  let '(line, cs) :=
    if negb (test reKeyColon currentTrimmed)
       && negb (startsWith currentTrimmed "-")
       && negb (startsWith currentTrimmed "#") then
      let parts := splitWs currentTrimmed in
      let potentialKey := List.hd "" parts in
      let correctKey :=
        default potentialKey (alias2 (toLowerCase potentialKey) potentialKey) in
      if (1 <=? List.length parts)%nat
         && (inList correctKey KNOWN_K8S_KEYS || inList potentialKey KNOWN_K8S_KEYS)
      then
        let indent := leadingSpace line in
        if (List.length parts =? 1)%nat then
          let line' := indent ++ correctKey ++ ":" in
          (line', (cs ++ [change "COLON" i original line'
                            ("Added missing colon to " ++ quoted correctKey)
                            critical])%list)
        else if negb (bool_decide (is_Some keyValueMatch)) then
          let rest := join " " (List.tl parts) in
          let line' := indent ++ correctKey ++ ": " ++ rest in
          (line', (cs ++ [change "COLON" i original line'
                            ("Added missing colon to " ++ quoted correctKey)
                            critical])%list)
        else (line, cs)
      else (line, cs)
    else (line, cs) in
  let updatedTrimmed := trim line in
  (* 4. Missing space after colon *)
  let '(line, cs) :=
    if includes updatedTrimmed ":" && negb (includes updatedTrimmed "://") then
      match exec reColonNoSpace line with
      | Some (e, gs) =>
          let colonSpaceFix :=
            group 0 gs ++ group 1 gs ++ ": " ++ group 2 gs ++ substringFrom e line in
          if negb (String.eqb colonSpaceFix line) then
            (colonSpaceFix,
             (cs ++ [change "COLON" i line colonSpaceFix
                       "Added space after colon" info])%list)
          else (line, cs)
      | None => (line, cs)
      end
    else (line, cs) in
  (* 5. List item spacing *)
  let '(line, cs) :=
    if startsWith updatedTrimmed "-" && (1 <? String.length updatedTrimmed)%nat
       && negb (bool_decide (charAt 1 updatedTrimmed = Some " "%char))
       && negb (bool_decide (charAt 1 updatedTrimmed = Some "-"%char)) then
      let line' := leadingSpace line ++ "- " ++ substringFrom 1 updatedTrimmed in
      (line', (cs ++ [change "LIST" i original line'
                        "Added space after list marker" info])%list)
    else (line, cs) in
  (* 6. List items with missing colons *)
  let '(line, cs) :=
    match exec reListItem line with
    | Some (e, gs) =>
        let key := group 1 gs in
        let correctKey := default key (alias2 (toLowerCase key) key) in
        if negb (includes (substringTo e line) ":")
           && (inList correctKey KNOWN_K8S_KEYS || inList key KNOWN_K8S_KEYS) then
          let line' := group 0 gs ++ "- " ++ correctKey ++ ": " ++ group 2 gs in
          (line', (cs ++ [change "COLON" i original line'
                            ("Added missing colon in list item " ++ quoted correctKey)
                            critical])%list)
        else (line, cs)
    | None => (line, cs)
    end in
  (* 7. Common key typos *)
  let '(line, cs) :=
    match exec reIndentKey line with
    | Some (e, gs) =>
        let key := group 1 gs in
        match alias2 (toLowerCase key) key with
        | Some correctKey =>
            if negb (isEmpty correctKey) && negb (String.eqb correctKey key) then
              let line' := group 0 gs ++ correctKey ++ ":" ++ substringFrom e line in
              (line', (cs ++ [change "KEY_FIX" i original line'
                                ("Fixed typo " ++ quoted key ++ " -> "
                                 ++ quoted correctKey) warning])%list)
            else (line, cs)
        | None => (line, cs)
        end
    | None => (line, cs)
    end in
  (* 8. Unclosed quotes *)
  let doubleQuotes := countChar (isChar (ascii_of_nat 34)) line in
  let singleQuotes := countChar (isChar (ascii_of_nat 39)) line in
  let '(line, cs) :=
    if negb (doubleQuotes mod 2 =? 0)%nat then
      let line' := line ++ DQ in
      (line', (cs ++ [change "QUOTE" i original line'
                        "Closed unclosed double quote" critical])%list)
    else (line, cs) in
  let '(line, cs) :=
    if negb (singleQuotes mod 2 =? 0)%nat then
      let line' := line ++ SQ in
      (line', (cs ++ [change "QUOTE" i original line'
                        "Closed unclosed single quote" critical])%list)
    else (line, cs) in
  (line, cs, inConfig, configIndent, updatedTrimmed).

Definition pushLine (st : Phase1State) (line : string) (cs : list FixChange)
    (inBlock inConfig : bool) (configIndent : Z)
    (seen : gmap Z (gset string)) (last : Z) : Phase1State :=
  mkPhase1 (normalizedLines st ++ [line])%list (changes st ++ cs)%list
    inBlock inConfig configIndent seen last.

(** FIX 5, the duplicate-key bookkeeping at the end of the loop body. *)
Definition trackKeys (st : Phase1State) (i : nat) (original line : string)
    (cs : list FixChange) (inBlock inConfig : bool) (configIndent : Z)
    (updatedTrimmed : string) : Phase1State :=
  let currentIndent := searchNonSpace line in
  if (currentIndent =? -1)%Z then
    pushLine st line cs inBlock inConfig configIndent (seenKeys st) (lastIndent st)
  else
    (* Reset deeper levels if we dedented *)
    let seen :=
      if (currentIndent <? lastIndent st)%Z
      then deleteLevels (fun l => (currentIndent <? l)%Z) (seenKeys st)
      else seenKeys st in
    (* Reset current level (and deeper) if we start a new list item *)
    let seen :=
      if startsWith updatedTrimmed "- "
      then deleteLevels (fun l => (currentIndent <=? l)%Z) seen
      else seen in
    (* Reset ALL keys if we see a document separator *)
    if startsWith line "---" then
      pushLine st line cs inBlock inConfig configIndent ∅ 0
    else
      match exec reKeyExtract line with
      | Some (_, gs) =>
          let key := group 0 gs in
          let keyStart := indexOf line key in
          let keysAtLevel := default ∅ (seen !! keyStart) in
          let seen := <[keyStart := keysAtLevel]> seen in
          if bool_decide (key ∈ keysAtLevel) then
            (* DUPLICATE: the line is not added to normalizedLines *)
            mkPhase1 (normalizedLines st)
              (changes st ++ cs
               ++ [change "DUPLICATE" i original ""
                     ("Removed duplicate key " ++ quoted key) error])%list
              inBlock inConfig configIndent seen (lastIndent st)
          else
            pushLine st line cs inBlock inConfig configIndent
              (<[keyStart := keysAtLevel ∪ {[key]}]> seen) currentIndent
      | None =>
          pushLine st line cs inBlock inConfig configIndent seen currentIndent
      end.

(** The body of the [for] loop, for [lines[i] = original]. *)
Definition step (st : Phase1State) (i : nat) (original : string) : Phase1State :=
  let trimmed := trim original in
  (* block scalars: skip processing inside them *)
  let inBlock :=
    if endsWith trimmed "|" || endsWith trimmed ">" then true
    else if inBlockScalar st && negb (isEmpty trimmed)
            && negb (startsWith original " ") then false
    else inBlockScalar st in
  if inBlock && (0 <? i)%nat then
    pushLine st original [] inBlock (inConfigMapData st) (configMapIndent st)
      (seenKeys st) (lastIndent st)
  else if isEmpty trimmed || startsWith trimmed "#" then
    pushLine st original [] inBlock (inConfigMapData st) (configMapIndent st)
      (seenKeys st) (lastIndent st)
  else
    let '(line, cs, inConfig, configIndent, updatedTrimmed) :=
      rewriteLine st i original in
    trackKeys st i original line cs inBlock inConfig configIndent updatedTrimmed.

Fixpoint steps (st : Phase1State) (i : nat) (rest : list string) : Phase1State :=
  match rest with
  | [] => st
  | original :: rest' => steps (step st i original) (S i) rest'
  end.

End Phase1.

Definition phase1_syntaxNormalization (indentSize : nat) (content : string)
    : list string * list FixChange :=
  let lines := splitLines content in
  let st := steps indentSize lines initPhase1 0 lines in
  (normalizedLines st, changes st).

(** ** Phase 2: parsing and validation *)

Section WithYaml.
Context `{YamlLib}.

(** [valid], [errors] and [parsed] *)
Definition phase2_parseValidation (content : string)
    : bool * list ValidationError * JsValue :=
  match loadAll content with
  | Normal documents =>
      let parsed := match documents with
                    | [d] => d
                    | _ => JArr documents []
                    end in
      (true, [], parsed)
  | Throw e =>
      (false,
       [mkError
          (match thrownMark e with Some (l, _) => (l + 1)%Z | None => 0%Z end)
          (Some (match thrownMark e with Some (_, c) => (c + 1)%Z | None => 0%Z end))
          (thrownMessage e) critical (Some "YAML_PARSE_ERROR") (Some false)],
       JUndefined)
  end.

End WithYaml.

(** ** Phase 3: semantic fixes *)

Fixpoint span (cls : ascii -> bool) (s : string) : string * string :=
  match s with
  | String c r => if cls c then let '(a, b) := span cls r in (String c a, b)
                  else (EmptyString, s)
  | EmptyString => (EmptyString, EmptyString)
  end.

Definition allOf (cls : ascii -> bool) (s : string) : bool :=
  negb (isEmpty s) && isEmpty (snd (span cls s)).

(** [ExponentPart], or nothing *)
Definition exponentOrEnd (s : string) : bool :=
  match s with
  | EmptyString => true
  | String c r =>
      (isChar "e" c || isChar "E" c)
      && match r with
         | String d r' => if isChar "+" d || isChar "-" d then allOf isDigit r'
                          else allOf isDigit r
         | EmptyString => false
         end
  end.

(** [StrUnsignedDecimalLiteral] *)
Definition unsignedDecimal (s : string) : bool :=
  String.eqb s "Infinity" ||
  let '(d1, r1) := span isDigit s in
  match r1 with
  | String c r2 =>
      if isChar "." c then
        let '(d2, r3) := span isDigit r2 in
        (negb (isEmpty d1) || negb (isEmpty d2)) && exponentOrEnd r3
      else negb (isEmpty d1) && exponentOrEnd r1
  | EmptyString => negb (isEmpty d1)
  end.

Definition isHex (c : ascii) : bool :=
  isDigit c || between 97 102 c || between 65 70 c.

(** [!isNaN(Number(s))] for a trimmed, non-empty [s]: the grammar of
    [StringNumericLiteral]. *)
Definition isNumber (s : string) : bool :=
  match s with
  | String c0 (String c1 r) =>
      if isChar "0" c0 && (isChar "x" c1 || isChar "X" c1) then allOf isHex r
      else if isChar "0" c0 && (isChar "b" c1 || isChar "B" c1)
      then allOf (between 48 49) r
      else if isChar "0" c0 && (isChar "o" c1 || isChar "O" c1)
      then allOf (between 48 55) r
      else if isChar "+" c0 || isChar "-" c0 then unsignedDecimal (String c1 r)
      else unsignedDecimal s
  | _ => unsignedDecimal s
  end.

Definition WORD_TO_NUM : list (string * string) :=
  [("one", "1"); ("two", "2"); ("three", "3"); ("four", "4"); ("five", "5");
   ("six", "6"); ("seven", "7"); ("eight", "8"); ("nine", "9"); ("ten", "10")].

Definition isQuote (c : ascii) : bool :=
  isChar (ascii_of_nat 39) c || isChar (ascii_of_nat 34) c.

(** The body of the loop of [phase3_semanticFixes]: the line to keep and
    the changes pushed. *)
Definition semanticFix (i : nat) (original : string) : string * list FixChange :=
  let line := original in
  let trimmed := trim line in
  let indent := getIndent line in
  if isEmpty trimmed || startsWith trimmed "#" then (line, [])
  else
    match exec reKeyAnyValue trimmed with
    | Some (_, gs) =>
        let key := group 0 gs in
        let value := group 1 gs in
        if inList key NUMERIC_FIELDS then
          let cleanValue := trim (replaceAll isQuote "" value) in
          let lowerValue := toLowerCase cleanValue in
          if isNumber cleanValue && negb (String.eqb cleanValue "") then
            if includes value DQ || includes value SQ then
              let line' := spaces indent ++ key ++ ": " ++ cleanValue in
              (line', [change "NUMERIC" i original line'
                         ("Converted string " ++ quoted value ++ " to number") info])
            else (line, [])
          else
            match Inherited.lookup WORD_TO_NUM lowerValue with
            | Some n =>
                let line' := spaces indent ++ key ++ ": " ++ n in
                (line', [change "NUMERIC" i original line'
                           ("Converted word " ++ quoted value ++ " to number")
                           warning])
            | None => (line, [])
            end
        else (line, [])
    | None => (line, [])
    end.

Fixpoint semanticFixes (i : nat) (lines : list string)
    : list string * list FixChange :=
  match lines with
  | [] => ([], [])
  | original :: rest =>
      let '(line, cs) := semanticFix i original in
      let '(fixedLines, changes) := semanticFixes (S i) rest in
      (line :: fixedLines, (cs ++ changes)%list)
  end.

Definition phase3_semanticFixes (lines : list string) (_parsed : JsValue)
    (_aggressive : bool) : list string * list FixChange :=
  semanticFixes 0 lines.

(** ** Phase 3B: structural reorganization of the parsed value

    The code mutates the parsed object in place; here every assignment
    rebuilds the path from the root.  The two agree on values that are
    trees (no node reached twice, that is no YAML alias in the source). *)

Definition bind {A B : Type} (c : Completion A) (k : A -> Completion B)
    : Completion B :=
  match c with
  | Normal a => k a
  | Throw t => Throw t
  end.

Notation "'let*' x ':=' c 'in' k" := (bind c (fun x => k))
  (at level 10, x name, c at level 100, k at level 200).

(** [!v] is false *)
Definition truthyValue (v : JsValue) : bool :=
  match v with
  | JUndefined | JNull => false
  | JBool b => b
  | JNum n => negb (Qeq_bool n 0)
  | JStr s => negb (isEmpty s)
  | JArr _ _ | JObj _ => true
  end.

Definition isObject (v : JsValue) : bool :=       (* typeof v === 'object' *)
  match v with
  | JNull | JArr _ _ | JObj _ => true
  | _ => false
  end.

Definition isUndefined (v : JsValue) : bool :=
  match v with JUndefined => true | _ => false end.

Definition lookupProp (props : list (string * JsValue)) (k : string) : JsValue :=
  match List.find (fun kv => String.eqb (fst kv) k) props with
  | Some kv => snd kv
  | None => JUndefined
  end.

(** [v[k]] for a defined [v] and a field name [k] of this file: none of
    them is a property of a prototype, so only own properties answer. *)
Definition getProp (v : JsValue) (k : string) : JsValue :=
  match v with
  | JObj props => lookupProp props k
  | JArr _ props => lookupProp props k
  | _ => JUndefined
  end.

Fixpoint assign (props : list (string * JsValue)) (k : string) (x : JsValue)
    : list (string * JsValue) :=
  match props with
  | [] => [(k, x)]
  | (k', v) :: rest => if String.eqb k' k then (k, x) :: rest
                       else (k', v) :: assign rest k x
  end.

(** [v[k] = x] in strict code (a class body is strict code): assigning a
    property of a primitive value, of [null] or of [undefined] throws a
    [TypeError]. *)
Definition setProp (v : JsValue) (k : string) (x : JsValue) : Completion JsValue :=
  match v with
  | JObj props => Normal (JObj (assign props k x))
  | JArr items props => Normal (JArr items (assign props k x))
  | JUndefined | JNull =>
      Throw (ThrowTypeError ("Cannot set properties of undefined (setting '"
                             ++ k ++ "')"))
  | _ => Throw (ThrowTypeError ("Cannot create property '" ++ k ++ "'"))
  end.

(** [delete v[k]] *)
Definition deleteProp (v : JsValue) (k : string) : JsValue :=
  let drop := List.filter (fun kv : string * JsValue => negb (String.eqb (fst kv) k)) in
  match v with
  | JObj props => JObj (drop props)
  | JArr items props => JArr items (drop props)
  | _ => v
  end.

Definition emptyObject : JsValue := JObj [].
Definition emptyTemplate : JsValue :=
  JObj [("metadata", emptyObject); ("spec", emptyObject)].

(** [if (!v[k]) v[k] = x] *)
Definition ensure (v : JsValue) (k : string) (x : JsValue) : Completion JsValue :=
  if truthyValue (getProp v k) then Normal v else setProp v k x.

(** [v[k] = f(v[k])]: an assignment below [v[k]] *)
Definition within (v : JsValue) (k : string)
    (f : JsValue -> Completion JsValue) : Completion JsValue :=
  let* inner := f (getProp v k) in setProp v k inner.

Definition isString (v : JsValue) (s : string) : bool :=   (* v === s *)
  match v with JStr s' => String.eqb s' s | _ => false end.

Definition DocState : Type := (JsValue * string)%type.

(** 1. Move metadata fields from root to metadata *)
Definition moveToMetadata (st : Completion DocState) (field : string)
    : Completion DocState :=
  let* st := st in
  let '(parsed, explanation) := st in
  if negb (isUndefined (getProp parsed field)) then
    let* parsed := ensure parsed "metadata" emptyObject in
    let* parsed := within parsed "metadata"
                (fun m => setProp m field (getProp parsed field)) in
    Normal (deleteProp parsed field,
            explanation ++ "Moved " ++ quoted field ++ " to "
              ++ quoted ("metadata." ++ field) ++ ". ")
  else Normal (parsed, explanation).

(** 2. Move spec fields from root to spec *)
Definition moveToSpec (st : Completion DocState) (field : string)
    : Completion DocState :=
  let* st := st in
  let '(parsed, explanation) := st in
  if negb (isUndefined (getProp parsed field)) then
    let* parsed := ensure parsed "spec" emptyObject in
    let* parsed := within parsed "spec"
                (fun sp => setProp sp field (getProp parsed field)) in
    Normal (deleteProp parsed field,
            explanation ++ "Moved " ++ quoted field ++ " to "
              ++ quoted ("spec." ++ field) ++ ". ")
  else Normal (parsed, explanation).

(** 3. Ensure spec.template.metadata and spec.template.spec exist *)
Definition ensureTemplate (st : DocState) : Completion DocState :=
  let '(parsed, explanation) := st in
  let spec := getProp parsed "spec" in
  if truthyValue spec && negb (truthyValue (getProp spec "template")) then
    let* parsed := within parsed "spec"
                (fun sp => setProp sp "template" emptyTemplate) in
    Normal (parsed, explanation
              ++ "Created " ++ quoted "spec.template.metadata" ++ " and "
              ++ quoted "spec.template.spec" ++ " structure. ")
  else if truthyValue spec && truthyValue (getProp spec "template") then
    let* st :=
      (if negb (truthyValue (getProp (getProp spec "template") "metadata")) then
         let* parsed := within parsed "spec" (fun sp =>
                     within sp "template" (fun t =>
                       setProp t "metadata" emptyObject)) in
         Normal (parsed, explanation ++ "Created "
                           ++ quoted "spec.template.metadata" ++ ". ")
       else Normal (parsed, explanation)) in
    let '(parsed, explanation) := st in
    let spec := getProp parsed "spec" in
    if negb (truthyValue (getProp (getProp spec "template") "spec")) then
      let* parsed := within parsed "spec" (fun sp =>
                  within sp "template" (fun t =>
                    setProp t "spec" emptyObject)) in
      Normal (parsed, explanation ++ "Created "
                        ++ quoted "spec.template.spec" ++ ". ")
    else Normal (parsed, explanation)
  else Normal (parsed, explanation).

(** [if (!parsed.spec.template) ...; if (!parsed.spec.template.spec) ...;
    parsed.spec.template.spec[field] = x] *)
Definition intoPodSpec (parsed : JsValue) (field : string) (x : JsValue)
    : Completion JsValue :=
  let* parsed := within parsed "spec" (fun sp => ensure sp "template" emptyTemplate) in
  let* parsed := within parsed "spec" (fun sp =>
              within sp "template" (fun t => ensure t "spec" emptyObject)) in
  within parsed "spec" (fun sp =>
    within sp "template" (fun t =>
      within t "spec" (fun ps => setProp ps field x))).

(** 4. Move pod spec fields from root or spec to spec.template.spec *)
Definition moveToPodSpec (st : Completion DocState) (field : string)
    : Completion DocState :=
  let* st := st in
  let '(parsed, explanation) := st in
  if negb (isUndefined (getProp parsed field)) then
    let* parsed := ensure parsed "spec" emptyObject in
    let* parsed := intoPodSpec parsed field (getProp parsed field) in
    Normal (deleteProp parsed field,
            explanation ++ "Moved " ++ quoted field ++ " from root to "
              ++ quoted ("spec.template.spec." ++ field) ++ ". ")
  else if truthyValue (getProp parsed "spec")
          && negb (isUndefined (getProp (getProp parsed "spec") field))
          && negb (String.eqb field "selector") then
    let* parsed := intoPodSpec parsed field (getProp (getProp parsed "spec") field) in
    let* parsed := within parsed "spec" (fun sp => Normal (deleteProp sp field)) in
    Normal (parsed,
            explanation ++ "Moved " ++ quoted field ++ " from " ++ quoted "spec"
              ++ " to " ++ quoted ("spec.template.spec." ++ field) ++ ". ")
  else Normal (parsed, explanation).

(** 5. For Services, move type and ports to spec if at root *)
Definition moveServiceField (st : Completion DocState) (field : string)
    : Completion DocState :=
  let* st := st in
  let '(parsed, explanation) := st in
  if negb (isUndefined (getProp parsed field)) then
    let* parsed := ensure parsed "spec" emptyObject in
    let* parsed := within parsed "spec"
                (fun sp => setProp sp field (getProp parsed field)) in
    Normal (deleteProp parsed field,
            explanation ++ "Moved " ++ quoted field ++ " to "
              ++ quoted ("spec." ++ field) ++ ". ")
  else Normal (parsed, explanation).

Definition isWorkload (parsed : JsValue) : bool :=
  let kind := getProp parsed "kind" in
  isString kind "Deployment" || isString kind "StatefulSet"
  || isString kind "DaemonSet".

Definition fixSingleDocument (parsed : JsValue) : Completion DocState :=
  if negb (truthyValue parsed) || negb (isObject parsed) then Normal (parsed, "")
  else
    let* st := List.fold_left moveToMetadata METADATA_FIELDS (Normal (parsed, "")) in
    let* st := (if isWorkload (fst st) then
             let* st := List.fold_left moveToSpec SPEC_FIELDS (Normal st) in
             let* st := ensureTemplate st in
             List.fold_left moveToPodSpec POD_SPEC_FIELDS (Normal st)
           else Normal st) in
    let* st := (if isString (getProp (fst st) "kind") "Service" then
             List.fold_left moveServiceField ["type"; "ports"] (Normal st)
           else Normal st) in
    Normal (fst st, trim (snd st)).

Definition noChanges : string := "No structural changes needed".

Section Entry.
Context `{YamlLib}.
Variable indentSize : nat.

(** The [map] over the documents of a multi-document stream: the fixed
    documents and the explanations, each followed by a space. *)
Fixpoint fixDocuments (docs : list JsValue) : Completion (list JsValue * string) :=
  match docs with
  | [] => Normal ([], "")
  | doc :: rest =>
      let* result := fixSingleDocument doc in
      let* others := fixDocuments rest in
      Normal (fst result :: fst others,
              (if isEmpty (snd result) then "" else snd result ++ " ")
                ++ snd others)
  end.

(** [content] and [explanation] *)
Definition phase3b_structuralFixes (parsed : JsValue)
    : Completion (string * string) :=
  match parsed with
  | JArr docs _ =>
      let* fixed := fixDocuments docs in
      let dumped := join ("---" ++ NL) (List.map (dump indentSize) (fst fixed)) in
      let explanation := trim (snd fixed) in
      Normal (dumped, if isEmpty explanation then noChanges else explanation)
  | _ =>
      let* result := fixSingleDocument parsed in
      let dumped := dump indentSize (fst result) in
      Normal (dumped, if isEmpty (snd result) then noChanges else snd result)
  end.

(** [fix(content, options)]; [aggressive] is [options.aggressive || false]. *)
Definition fix_ (content : string) (aggressive : bool) : Completion FixResult :=
  (* PHASE 1: syntax normalization (always runs) *)
  let '(phase1Lines, phase1Changes) :=
    phase1_syntaxNormalization indentSize content in
  let allChanges := phase1Changes in
  let fixedContent := joinLines phase1Lines in
  (* PHASE 2: parse validation *)
  let '(valid, phase2Errors, parsed) := phase2_parseValidation fixedContent in
  if negb valid then
    Normal (mkFixResult fixedContent (List.length allChanges) allChanges phase2Errors)
  else
    (* PHASE 3: semantic fixes *)
    let '(phase3Lines, phase3Changes) :=
      phase3_semanticFixes phase1Lines parsed aggressive in
    let allChanges := (allChanges ++ phase3Changes)%list in
    let fixedContent := joinLines phase3Lines in
    (* PHASE 3B: structural reorganization (only in aggressive mode) *)
    if aggressive then
      let* structuralResult := phase3b_structuralFixes parsed in
      let '(content3b, explanation) := structuralResult in
      let allChanges :=
        if negb (isEmpty explanation) && negb (String.eqb explanation noChanges)
        then (allChanges ++ [mkChange "STRUCTURE" 0 "" "" explanation warning])%list
        else allChanges in
      Normal (mkFixResult content3b (List.length allChanges) allChanges [])
    else
      Normal (mkFixResult fixedContent (List.length allChanges) allChanges []).

(** [validate(content)]: [valid] and [errors] (there are never structural
    issues). *)
Definition validate (content : string) : Completion (bool * list ValidationError) :=
  let '(_, phase1Changes) := phase1_syntaxNormalization indentSize content in
  let errors1 :=
    List.map (fun c => mkError (ch_line c) None (ch_reason c) (ch_severity c)
                         (Some (ch_type c)) (Some true)) phase1Changes in
  let '(_, phase2Errors, _) := phase2_parseValidation content in
  let errors := (errors1 ++ phase2Errors)%list in
  Normal ((List.length errors =? 0)%nat, errors).

End Entry.

End YAMLFixer.

(* ================================================================== *)
(** * A parser given by its answers

    The lemmas about concrete inputs need the answers of the YAML library
    on the texts they meet.  [tableParser answers] parses the listed texts
    to the listed documents and rejects every other text; [load] is derived
    from [loadAll] the way js-yaml does it (no document: [undefined]; more
    than one: an exception). *)
(* ================================================================== *)

Module Oracle.

Definition rejected : Thrown :=
  ThrowYAML (mkException (Some (0, 0)%Z) "rejected").

Definition answer (answers : list (string * list JsValue)) (s : string)
    : Completion (list JsValue) :=
  match List.find (fun a => String.eqb (fst a) s) answers with
  | Some a => Normal (snd a)
  | None => Throw rejected
  end.

Definition tableParser (answers : list (string * list JsValue)) : YamlLib :=
  {| loadAll := answer answers;
     load := fun s =>
       match answer answers s with
       | Normal [] => Normal JUndefined
       | Normal [d] => Normal d
       | Normal _ =>
           Throw (ThrowYAML (mkException None
             "expected a single document in the stream, but found more"))
       | Throw t => Throw t
       end;
     dump := fun _ _ => EmptyString |}.

End Oracle.

(* ================================================================== *)
(** * Specifications and sample inputs

    What the properties below are stated with: the quantities the
    specification names (weighted average, counts of indented lines, the
    line a batch leaves at a position, ...) written down independently of
    the loops that compute them, and the concrete texts, options and parser
    answers of the witnesses and counterexamples. *)
(* ================================================================== *)

Section ScorerSpec.

Import Scorer.
Local Open Scope Q_scope.

(** The severity-weighted average as the specification words it: the sum
    of the weighted confidences over the sum of the weights. *)
Definition weightedSum (fixes : list FixSuggestion) : Q :=
  List.fold_right (fun f acc => confidence f * weights (severity f) + acc) 0 fixes.

Definition totalWeight (fixes : list FixSuggestion) : Q :=
  List.fold_right (fun f acc => weights (severity f) + acc) 0 fixes.

Definition weightedAverage (fixes : list FixSuggestion) : Q :=
  match fixes with
  | [] => 1
  | _ => weightedSum fixes / totalWeight fixes
  end.

Definition sampleFixes : list FixSuggestion :=
  [mkFix 1 missing_colon "spec" "spec:" "" 0.95 error false;
   mkFix 3 field_normalization "nmae: x" "name: x" "" 0.7 warning false;
   mkFix 4 type_coercion "a" "b" "" 0.85 info false].

(** The same average in the arithmetic of doubles: the terms of the two
    sums, a sum taken from the left with every addition rounded, and the
    rounded quotient. *)
Definition weightTerm (f : FixSuggestion) : Q := Double.lit (weights (severity f)).

Definition weightedTerm (f : FixSuggestion) : Q :=
  Double.mul (Double.lit (confidence f)) (weightTerm f).

Definition roundedSum (terms : list Q) : Q := List.fold_left Double.add terms 0.

Definition roundedAverage (fixes : list FixSuggestion) : Q :=
  match fixes with
  | [] => 1
  | _ => Double.div (roundedSum (List.map weightedTerm fixes))
                    (roundedSum (List.map weightTerm fixes))
  end.

(** Two error fixes whose exact average is 0.15. *)
Definition roundingSample : list FixSuggestion :=
  [mkFix 1 missing_colon "a" "a:" "" 0.1 error false;
   mkFix 2 missing_colon "b" "b:" "" 0.2 error false].

(** One warning fix whose confidence, 0.75, is a double. *)
Definition warningSample : list FixSuggestion :=
  [mkFix 1 missing_colon "a" "a:" "" 0.75 warning false].


End ScorerSpec.

Section IndentationSpec.

Import Js Indentation.

(** The number of indented lines whose indent width is a multiple of [k]. *)
Definition supports (k : nat) (line : string) : bool :=
  (0 <? getIndent line)%nat && (getIndent line mod k =? 0)%nat.

Definition countMultiples (k : nat) (lines : list string) : nat :=
  List.length (List.filter (supports k) lines).

End IndentationSpec.

Section TrackerSpec.

Import Js.

(** Indents grow strictly from the bottom of the stack to its top. *)
Definition increasing (stack : list IndentLevel) : Prop :=
  StronglySorted (fun a b => (lv_indent a < lv_indent b)%nat) stack.

(** The same, read from the top. *)
Fixpoint descending (stack : list IndentLevel) : Prop :=
  match stack with
  | [] => True
  | top :: rest =>
      Forall (fun l => (lv_indent l < lv_indent top)%nat) rest /\ descending rest
  end.

End TrackerSpec.

Section LineSpec.

Import Js.

(** A text without line break. *)
Fixpoint singleLine (s : string) : bool :=
  match s with
  | EmptyString => true
  | String c r => negb (isChar nl c) && singleLine r
  end.

(** A key or value, when there is one, a parsed line, and the replacement
    text of a fix, without line break. *)
Definition textOk (o : option string) : Prop :=
  match o with
  | Some s => singleLine s = true
  | None => True
  end.

Definition lineOk (line : SemanticLine) : Prop :=
  singleLine (sl_content line) = true /\ textOk (sl_key line) /\ textOk (sl_value line).

Definition fixOk (f : FixSuggestion) : Prop := singleLine (fixed f) = true.

End LineSpec.

Section ApplySpec.

Import Js Intelligent.

Definition descendingLine (a b : FixSuggestion) : Z := (lineNumber b - lineNumber a)%Z.

(** The fix that decides line [k]: the last one of the batch that targets
    it. *)
Fixpoint lastTargeting (k : Z) (fixes : list FixSuggestion) : option FixSuggestion :=
  match fixes with
  | [] => None
  | f :: rest =>
      match lastTargeting k rest with
      | Some g => Some g
      | None => if (lineNumber f =? k)%Z then Some f else None
      end
  end.

(** Line number [i + 1] after the batch. *)
Definition lineAfter (fixes : list FixSuggestion) (i : nat) (orig : string) : string :=
  match lastTargeting (Z.of_nat i + 1) fixes with
  | Some f => fixed f
  | None => orig
  end.

Definition inRange (n : nat) (f : FixSuggestion) : bool :=
  (0 <? lineNumber f)%Z && (lineNumber f <=? Z.of_nat n)%Z.

(** The line breaks inside the entries of an array of lines. *)
Definition lineBreaks (ls : list string) : nat :=
  list_sum (List.map (countChar (isChar nl)) ls).

Definition twoLineFix : FixSuggestion :=
  mkFix 1 missing_colon "a" ("x" ++ NL ++ "y") "" 0.9 error false.

Definition sampleBatch : list FixSuggestion :=
  [mkFix 2 missing_colon "spec" "spec:" "" 0.95 error false;
   mkFix 0 missing_colon "" "zero" "" 0.95 error false;
   mkFix 7 missing_colon "" "seven" "" 0.95 error false;
   mkFix 2 field_normalization "spec" "specs:" "" 0.9 error false].

Definition sampleText : string := joinLines ["kind: Pod"; "spec"; "  x: y"].

End ApplySpec.

Section LoopSpec.

Import Js Intelligent.

Context `{YamlLib}.

Definition initialState (yamlContent : string) : LoopState := mkState [] yamlContent 0.

(** The text after one more iteration, and after [k] iterations that all
    went round the loop. *)
Definition nextText (options : FixerOptions) (t : string) : string :=
  applyFixes t (validFixes options t).

Definition textAt (options : FixerOptions) (yamlContent : string) (k : nat) : string :=
  Nat.iter k (nextText options) yamlContent.

Definition rejects (s : string) : Prop := exists t, load s = Throw t.

Definition reportedError (t : Thrown) : ValidationError :=
  mkError (match thrownMark t with Some (l, _) => l | None => 0%Z end)
    None (thrownMessage t) error None None.

End LoopSpec.

(** The parser of the witness rejects every text. *)
Definition rejectAll : YamlLib := Oracle.tableParser [].

Definition strictOptions : FixerOptions := mkOptions 0.9 false 3 true true 2.

Definition brokenEnv : string := Js.joinLines ["- FOO"; "  value x"].

Definition misspelled : string := "metdata: x".

(** js-yaml reads [misspelled] as a mapping with the one key [metdata]. *)
Definition acceptsMisspelled : YamlLib :=
  Oracle.tableParser [(misspelled, [JObj [("metdata", JStr "x")]])].

Section ThresholdSpec.

Import Js Intelligent Scorer.

Local Open Scope Q_scope.

Definition withThreshold (o : FixerOptions) (t : Q) : FixerOptions :=
  mkOptions t (aggressive o) (maxIterations o) (enableLearning o)
    (enableRelocation o) (indentSize o).

Definition optionList {A : Type} (o : option A) : list A :=
  match o with Some a => [a] | None => [] end.

(** The candidates of the four passes, before any threshold is applied. *)
Definition candidates (yamlContent : string) : list FixSuggestion :=
  let parser := SemanticParser.parse yamlContent in
  let lines := SemanticParser.getLines parser in
  (List.flat_map (fun line =>
     if ContextAwareKeyFixer.skips line then []
     else optionList (ContextAwareKeyFixer.detectMissingColon parser line)) lines
   ++ List.flat_map (fun line =>
        if FieldNormalizer.skips line then []
        else optionList (FieldNormalizer.detectTypo parser line)) lines
   ++ List.flat_map (fun line =>
        if negb (sl_isListItem line) then []
        else (optionList (ListStructureFixer.fixBrokenEnvVar parser line)
              ++ optionList (ListStructureFixer.fixBrokenContainer parser line)
              ++ optionList (ListStructureFixer.fixBrokenVolumeMount parser line))%list)
        lines
   ++ List.flat_map (fun line => optionList (TypeCoercer.detectTypeMismatch line))
        lines)%list.

End ThresholdSpec.

(** A list of environment variables written without [name:]; the last
    [value] line sits at the root. *)
Definition envText : string :=
  Js.joinLines ["env:"; "- FOO"; "  value x"; "- BAR"; "value y"].

(** The answers of js-yaml on the texts the two runs below produce.  After
    the colons of the [value] lines are added, [- FOO] followed by an
    indented [value: x] is rejected (a plain scalar cannot be followed by a
    mapping entry); with [- FOO:] the text is a mapping and parses; so
    does the text in which both items have become [- name: ...]. *)
Definition envParser : YamlLib :=
  Oracle.tableParser
    [(Js.joinLines ["env:"; "- FOO:"; "  value: x"; "- BAR"; "value: y"],
      [JObj [("env", JArr [JObj [("FOO", JNull); ("value", JStr "x")]; JStr "BAR"] []);
             ("value", JStr "y")]]);
     (Js.joinLines ["env:"; "- name: FOO"; "  value: x"; "- name: BAR"; "value: y"],
      [JObj [("env", JArr [JObj [("name", JStr "FOO"); ("value", JStr "x")];
                           JObj [("name", JStr "BAR")]] []);
             ("value", JStr "y")]])].

Definition oneIteration : FixerOptions := mkOptions 0.8 false 1 true true 2.

Section ThreePhaseInputs.

Import Js YAMLFixer.

(** A list item followed by a root key with a nested [name]. *)
Definition listThenMapping : string :=
  joinLines ["list:"; "- name: a"; "x:"; "  name: b"].

(** A literal block scalar whose content looks like a quoted replica
    count. *)
Definition blockText : string :=
  joinLines ["data: |"; "  replicas: " ++ quoted "3"].

(** A document whose [metadata] is a scalar, with [name] at the root. *)
Definition scalarMetadata : string := joinLines ["metadata: foo"; "name: x"].

Definition scalarMetadataDoc : JsValue :=
  JObj [("metadata", JStr "foo"); ("name", JStr "x")].

End ThreePhaseInputs.

(** js-yaml on [blockText]: one mapping whose [data] is the text of the
    block, with the line break the clip chomping gives it. *)
Definition blockParser : YamlLib :=
  Oracle.tableParser
    [(blockText, [JObj [("data", JStr ("replicas: " ++ quoted "3" ++ Js.NL))]])].

Definition scalarMetadataParser : YamlLib :=
  Oracle.tableParser [(scalarMetadata, [scalarMetadataDoc])].

Section FuzzySpec.

(** The number of single-character insertions, deletions and substitutions
    that turn one text into the other, by the usual recurrence on the last
    characters; the texts are given last character first. *)
Fixpoint editDistance (ra rb : list ascii) : nat :=
  match ra with
  | [] => List.length rb
  | c1 :: ra' =>
      (fix inner (rb : list ascii) : nat :=
         match rb with
         | [] => List.length ra
         | c2 :: rb' =>
             Nat.min (Nat.min (editDistance ra' rb + 1) (inner rb' + 1))
                     (editDistance ra' rb' + if Ascii.eqb c1 c2 then 0 else 1)
         end) rb
  end.

Definition reversed (s : string) : list ascii := List.rev (list_ascii_of_string s).

(** The entries of a matrix row to the right of the column of [rb]: the
    distances from [ra] to [rb] extended by the characters of [s2] one
    after the other. *)
Fixpoint rowFrom (ra rb : list ascii) (s2 : string) : list nat :=
  match s2 with
  | EmptyString => []
  | String c r => editDistance ra (c :: rb) :: rowFrom ra (c :: rb) r
  end.

(** The distance of [findClosestMatch]: between the lower-cased texts. *)
Definition distanceTo (target candidate : string) : nat :=
  Fuzzy.levenshteinDistance (Js.toLowerCase target) (Js.toLowerCase candidate).

(** What the loop of [findClosestMatch] keeps about its best candidate,
    over the candidates [seen] so far. *)
Definition closestInv (target : string) (maxDistance : nat) (seen : list string)
    (best : option (string * nat)) : Prop :=
  match best with
  | Some (m, d) =>
      In m seen /\ d = distanceTo target m /\ (d <= maxDistance)%nat /\
      forall c, In c seen -> (d <= distanceTo target c)%nat
  | None => forall c, In c seen -> (maxDistance < distanceTo target c)%nat
  end.

End FuzzySpec.

Section ParserSpec.

Import Js.

(** The record [analyzeLine] builds for the line numbered [n] with text
    [content] (it does not depend on the state of the analyzer), and the
    record [parse] builds itself for a line inside a block scalar. *)
Definition analysed (n : nat) (content : string) : SemanticLine :=
  fst (Analyzer.analyzeLine Analyzer.init n content).

Definition blockLine (n : nat) (content : string) : SemanticLine :=
  mkLine n content (getIndent content) block_scalar None None false false None [].

(** The lines recorded for the texts [raw], numbered from [n]. *)
Fixpoint recorded (n : nat) (raw : list string) (new : list SemanticLine) : Prop :=
  match raw, new with
  | [], [] => True
  | content :: raw', l :: new' =>
      (l = analysed n content \/ l = blockLine n content) /\ recorded (S n) raw' new'
  | _, _ => False
  end.

(** What a line holds apart from its links to other lines. *)
Definition Core : Type :=
  (nat * string * nat * LineType * option string * option string * bool * bool)%type.

Definition core (l : SemanticLine) : Core :=
  (sl_lineNumber l, sl_content l, sl_indent l, sl_type l,
   sl_key l, sl_value l, sl_isListItem l, sl_hasColon l).

(** A line of a parse is the record of its own number and text, up to the
    links. *)
Definition lineShape (l : SemanticLine) : Prop :=
  core l = core (analysed (sl_lineNumber l) (sl_content l)) \/
  core l = core (blockLine (sl_lineNumber l) (sl_content l)).

End ParserSpec.

Section RegexSpec.

(** Every character of the text is in the class. *)
Fixpoint every (cls : ascii -> bool) (s : string) : bool :=
  match s with
  | EmptyString => true
  | String c r => cls c && every cls r
  end.

End RegexSpec.

Section ParserSamples.

Import Js.

(** A key, a blank line and a nested key, with the first and the last
    line as [parse] records them. *)
Definition nestedText : string := joinLines ["a:"; ""; "  b: 1"].

Definition nestedParent : SemanticLine :=
  mkLine 1 "a:" 0 key_only (Some "a") (Some "") false true None [3%nat].

Definition nestedChild : SemanticLine :=
  mkLine 3 "  b: 1" 2 key_value (Some "b") (Some "1") false true (Some 1%nat) [].

End ParserSamples.

(* ================================================================== *)
(** * Properties *)
(* ================================================================== *)

(** ** Rounding to doubles *)

Section DoubleFacts.

Import Double.
Local Open Scope Q_scope.

Lemma pow2_pos e : 0 < pow2 e.
Proof. apply Qpower_0_lt. reflexivity. Qed.

Lemma pow2_plus a b : pow2 (a + b) == pow2 a * pow2 b.
Proof. apply Qpower_plus. discriminate. Qed.

Lemma pow2_le a b : (a <= b)%Z -> pow2 a <= pow2 b.
Proof. intros H. apply Qpower_le_compat_l; [exact H|discriminate]. Qed.

Lemma pow2_lt a b : (a < b)%Z -> pow2 a < pow2 b.
Proof. intros H. apply Qpower_lt_compat_l; [exact H|reflexivity]. Qed.

Lemma pow2_lt_inv a b : pow2 a < pow2 b -> (a < b)%Z.
Proof. intros H. apply (Qpower_lt_compat_l_inv 2); [exact H|reflexivity]. Qed.

Lemma pow2_Z k : (0 <= k)%Z -> inject_Z (2 ^ k) == pow2 k.
Proof. intros H. apply (Zpower_Qpower 2 k H). Qed.

Lemma Qpos_num q : 0 < q <-> (0 < Qnum q)%Z.
Proof. unfold Qlt. cbn. lia. Qed.

Lemma ilog2_spec q : 0 < q -> pow2 (ilog2 q) <= q /\ q < pow2 (ilog2 q + 1).
Proof.
  intros Hq. pose proof (proj1 (Qpos_num q) Hq) as Hn.
  set (ln := Z.log2 (Qnum q)). set (ld := Z.log2 (Z.pos (Qden q))).
  pose proof (Z.log2_spec (Qnum q) Hn) as [Hn1 Hn2].
  pose proof (Z.log2_spec (Z.pos (Qden q)) ltac:(lia)) as [Hd1 Hd2].
  pose proof (Z.log2_nonneg (Qnum q)) as Hln.
  pose proof (Z.log2_nonneg (Z.pos (Qden q))) as Hld.
  fold ln in Hn1, Hn2, Hln. fold ld in Hd1, Hd2, Hld.
  set (N := inject_Z (Qnum q)). set (D := inject_Z (Z.pos (Qden q))).
  assert (HqD : q * D == N).
  { unfold N, D. destruct q as [n d]. unfold Qeq, Qmult, inject_Z. cbn. lia. }
  assert (HN1 : pow2 ln <= N).
  { rewrite <- pow2_Z by exact Hln. unfold N. rewrite <- Zle_Qle. exact Hn1. }
  assert (HN2 : N < pow2 (ln + 1)).
  { rewrite <- pow2_Z by lia. unfold N. rewrite <- Zlt_Qlt. exact Hn2. }
  assert (HD1 : pow2 ld <= D).
  { rewrite <- pow2_Z by exact Hld. unfold D. rewrite <- Zle_Qle. exact Hd1. }
  assert (HD2 : D < pow2 (ld + 1)).
  { rewrite <- pow2_Z by lia. unfold D. rewrite <- Zlt_Qlt. exact Hd2. }
  pose proof (pow2_pos ld) as Hpld. pose proof (pow2_pos (ld + 1)) as Hpld1.
  assert (Hlow : pow2 (ln - ld - 1) <= q).
  { replace (ln - ld - 1)%Z with (ln - (ld + 1))%Z by lia.
    unfold pow2 at 1. rewrite Qpower_minus by discriminate. fold (pow2 ln) (pow2 (ld + 1)).
    apply Qle_shift_div_r; [exact Hpld1|]. nra. }
  assert (Hup : q < pow2 (ln - ld + 1)).
  { replace (ln - ld + 1)%Z with (ln + 1 - ld)%Z by lia.
    unfold pow2 at 1. rewrite Qpower_minus by discriminate. fold (pow2 (ln + 1)) (pow2 ld).
    apply Qlt_shift_div_l; [exact Hpld|]. nra. }
  unfold ilog2. fold ln ld. destruct (Qle_bool (pow2 (ln - ld)) q) eqn:Hc.
  - apply Qle_bool_iff in Hc. split; assumption.
  - split; [exact Hlow|]. replace (ln - ld - 1 + 1)%Z with (ln - ld)%Z by lia.
    apply Qnot_le_lt. intros Hle. apply Qle_bool_iff in Hle. congruence.
Qed.

Lemma ilog2_unique q k : pow2 k <= q -> q < pow2 (k + 1) -> ilog2 q = k.
Proof.
  intros H1 H2.
  assert (Hq : 0 < q) by (pose proof (pow2_pos k); lra).
  destruct (ilog2_spec q Hq) as [H3 H4].
  assert (ilog2 q < k + 1)%Z by (apply pow2_lt_inv; lra).
  assert (k < ilog2 q + 1)%Z by (apply pow2_lt_inv; lra).
  lia.
Qed.

Lemma ilog2_mono a b : 0 < a -> a <= b -> (ilog2 a <= ilog2 b)%Z.
Proof.
  intros Ha Hab. destruct (ilog2_spec a Ha) as [H1 _].
  destruct (ilog2_spec b ltac:(lra)) as [_ H2].
  assert (ilog2 a < ilog2 b + 1)%Z by (apply pow2_lt_inv; lra). lia.
Qed.

Lemma roundHalfEven_bounds x :
  (Qfloor x <= roundHalfEven x <= Qfloor x + 1)%Z.
Proof.
  unfold roundHalfEven. destruct (_ ?= _); [destruct (Z.even _)| |]; lia.
Qed.

Lemma roundHalfEven_Z n : roundHalfEven (inject_Z n) = n.
Proof.
  unfold roundHalfEven. rewrite Qfloor_Z.
  destruct (inject_Z n - inject_Z n ?= 1 # 2) eqn:Hc; [|reflexivity|].
  - apply Qeq_alt in Hc. exfalso. lra.
  - apply Qgt_alt in Hc. exfalso. lra.
Qed.

Lemma roundHalfEven_mono x y : x <= y -> (roundHalfEven x <= roundHalfEven y)%Z.
Proof.
  intros Hxy. pose proof (Qfloor_resp_le x y Hxy) as Hf.
  pose proof (roundHalfEven_bounds x) as Hx. pose proof (roundHalfEven_bounds y) as Hy.
  destruct (Z.eq_dec (Qfloor x) (Qfloor y)) as [Heq|Hne]; [|lia].
  unfold roundHalfEven. rewrite <- Heq.
  destruct (x - inject_Z (Qfloor x) ?= 1 # 2) eqn:Hcx;
    destruct (y - inject_Z (Qfloor x) ?= 1 # 2) eqn:Hcy;
    try (destruct (Z.even (Qfloor x)); lia); exfalso.
  - apply Qeq_alt in Hcx. apply Qlt_alt in Hcy. lra.
  - apply Qgt_alt in Hcx. apply Qeq_alt in Hcy. lra.
  - apply Qgt_alt in Hcx. apply Qlt_alt in Hcy. lra.
Qed.

Lemma roundHalfEven_le x n : x <= inject_Z n -> (roundHalfEven x <= n)%Z.
Proof.
  intros H. rewrite <- (roundHalfEven_Z n). apply roundHalfEven_mono, H.
Qed.

Lemma roundHalfEven_ge x n : inject_Z n <= x -> (n <= roundHalfEven x)%Z.
Proof.
  intros H. rewrite <- (roundHalfEven_Z n). apply roundHalfEven_mono, H.
Qed.

Lemma roundPos_nonneg q : 0 < q -> 0 <= roundPos q.
Proof.
  intros Hq. unfold roundPos. set (u := Z.max _ _).
  pose proof (pow2_pos u) as Hu.
  assert (H : (0 <= roundHalfEven (q / pow2 u))%Z).
  { apply roundHalfEven_ge. apply Qle_shift_div_l; [exact Hu|].
    change (inject_Z 0) with 0. lra. }
  apply Qmult_le_0_compat; [|lra]. change 0 with (inject_Z 0). rewrite <- Zle_Qle. exact H.
Qed.

(** The result of rounding [q], between the powers of two around it. *)
Lemma roundPos_range q :
  0 < q ->
  let u := Z.max (ilog2 q - 52) (-1074) in
  roundPos q <= pow2 (u + 53) /\
  ((-1074 < u)%Z -> pow2 (u + 52) <= roundPos q).
Proof.
  intros Hq u. destruct (ilog2_spec q Hq) as [H1 H2].
  pose proof (pow2_pos u) as Hu. unfold roundPos. fold u.
  pose proof (pow2_Z 53 ltac:(lia)) as H53. pose proof (pow2_Z 52 ltac:(lia)) as H52.
  split.
  - assert (H : (roundHalfEven (q / pow2 u) <= 2 ^ 53)%Z).
    { apply roundHalfEven_le. apply Qle_shift_div_r; [exact Hu|].
      setoid_rewrite H53. rewrite <- pow2_plus.
      pose proof (pow2_le (ilog2 q + 1) (53 + u) ltac:(lia)). lra. }
    rewrite Z.add_comm, pow2_plus. setoid_rewrite <- H53.
    apply Qmult_le_compat_r; [|lra]. rewrite <- Zle_Qle. exact H.
  - intros Hnormal.
    assert (H : (2 ^ 52 <= roundHalfEven (q / pow2 u))%Z).
    { apply roundHalfEven_ge. apply Qle_shift_div_l; [exact Hu|].
      setoid_rewrite H52. rewrite <- pow2_plus.
      pose proof (pow2_le (52 + u) (ilog2 q) ltac:(lia)). lra. }
    rewrite Z.add_comm, pow2_plus. setoid_rewrite <- H52.
    apply Qmult_le_compat_r; [|lra]. rewrite <- Zle_Qle. exact H.
Qed.

Lemma roundPos_mono a b : 0 < a -> a <= b -> roundPos a <= roundPos b.
Proof.
  intros Ha Hab. assert (Hb : 0 < b) by lra.
  pose proof (ilog2_mono a b Ha Hab) as Hlog.
  destruct (roundPos_range a Ha) as [Hup _].
  destruct (roundPos_range b Hb) as [_ Hlow]. cbn zeta in Hup, Hlow.
  set (ua := Z.max (ilog2 a - 52) (-1074)) in *.
  set (ub := Z.max (ilog2 b - 52) (-1074)) in *.
  destruct (Z.eq_dec ua ub) as [Heq|Hne].
  - unfold roundPos. fold ua ub. rewrite Heq. pose proof (pow2_pos ub) as Hu.
    apply Qmult_le_compat_r; [|lra]. rewrite <- Zle_Qle.
    apply roundHalfEven_mono. apply Qle_shift_div_l; [exact Hu|].
    unfold Qdiv. rewrite <- Qmult_assoc, (Qmult_comm (/ pow2 ub)), Qmult_inv_r; lra.
  - assert (Hlt : (ua < ub)%Z) by lia.
    pose proof (pow2_le (ua + 53) (ub + 52) ltac:(lia)).
    specialize (Hlow ltac:(lia)). lra.
Qed.

Lemma round_pos q : 0 < q -> round q = roundPos q.
Proof.
  intros Hq%Qpos_num. unfold round. destruct (Qnum q); try lia. reflexivity.
Qed.

Lemma round_neg q : q < 0 -> round q = - roundPos (- q).
Proof.
  intros Hq. assert (Hn : (Qnum q < 0)%Z) by (unfold Qlt in Hq; cbn in Hq; lia).
  unfold round. destruct (Qnum q); try lia. reflexivity.
Qed.

Lemma round_zero q : q == 0 -> round q = 0.
Proof.
  intros Hq. assert (Hn : Qnum q = 0%Z) by (unfold Qeq in Hq; cbn in Hq; lia).
  unfold round. rewrite Hn. reflexivity.
Qed.

Lemma Qsign_cases q : q < 0 \/ q == 0 \/ 0 < q.
Proof. destruct (Q_dec q 0) as [[H|H]|H]; tauto. Qed.

(** Rounding keeps the order. *)
Lemma round_mono a b : a <= b -> round a <= round b.
Proof.
  intros Hab.
  destruct (Qsign_cases a) as [Ha|[Ha|Ha]], (Qsign_cases b) as [Hb|[Hb|Hb]];
    try (exfalso; lra).
  - rewrite (round_neg a Ha), (round_neg b Hb).
    pose proof (roundPos_mono (- b) (- a) ltac:(lra) ltac:(lra)). lra.
  - rewrite (round_neg a Ha), (round_zero b Hb).
    pose proof (roundPos_nonneg (- a) ltac:(lra)). lra.
  - rewrite (round_neg a Ha), (round_pos b Hb).
    pose proof (roundPos_nonneg (- a) ltac:(lra)).
    pose proof (roundPos_nonneg b Hb). lra.
  - rewrite (round_zero a Ha), (round_zero b Hb). lra.
  - rewrite (round_zero a Ha), (round_pos b Hb). apply roundPos_nonneg, Hb.
  - rewrite (round_pos a Ha), (round_pos b Hb). apply roundPos_mono; assumption.
Qed.

Lemma round_0 : round 0 = 0.
Proof. reflexivity. Qed.

Lemma round_1 : round 1 == 1.
Proof. vm_compute. reflexivity. Qed.

Lemma round_eq a b : a == b -> round a == round b.
Proof. intros H. apply Qle_antisym; apply round_mono; lra. Qed.

(** Rounding does not cross a double. *)
Lemma round_le_double a b : a <= b -> round b == b -> round a <= b.
Proof. intros Hab Hb. pose proof (round_mono a b Hab). lra. Qed.

Lemma round_ge_double a b : a <= b -> round a == a -> a <= round b.
Proof. intros Hab Ha. pose proof (round_mono a b Hab). lra. Qed.

Lemma round_nonneg a : 0 <= a -> 0 <= round a.
Proof. intros Ha. apply (round_mono 0 a Ha). Qed.

Lemma roundHalfEven_eq x y : x == y -> roundHalfEven x = roundHalfEven y.
Proof.
  intros H. apply Z.le_antisymm; apply roundHalfEven_mono; lra.
Qed.

Lemma roundPos_eq a b : 0 < a -> a == b -> roundPos a == roundPos b.
Proof.
  intros Ha H. apply Qle_antisym; apply roundPos_mono; lra.
Qed.

(** A number of the form [m * 2^u'], with [u'] the exponent rounding
    picks for it, is left as it is. *)
Lemma roundPos_fixed v m u' :
  0 < v -> v == inject_Z m * pow2 u' ->
  Z.max (ilog2 v - 52) (-1074) = u' -> roundPos v == v.
Proof.
  intros Hv Hm Hu. unfold roundPos. rewrite Hu.
  pose proof (pow2_pos u') as Hp.
  assert (Hdiv : v / pow2 u' == inject_Z m).
  { rewrite Hm. field. lra. }
  rewrite (roundHalfEven_eq _ _ Hdiv), roundHalfEven_Z. symmetry. exact Hm.
Qed.

Lemma roundPos_idem q : 0 < q -> 0 < roundPos q -> roundPos (roundPos q) == roundPos q.
Proof.
  intros Hq Hv. destruct (roundPos_range q Hq) as [Hup Hlow]. cbn zeta in Hup, Hlow.
  set (u := Z.max (ilog2 q - 52) (-1074)) in *.
  set (m := roundHalfEven (q / pow2 u)).
  assert (Hvm : roundPos q == inject_Z m * pow2 u) by reflexivity.
  pose proof (pow2_pos u) as Hp.
  pose proof (pow2_Z 53 ltac:(lia)) as H53. pose proof (pow2_Z 52 ltac:(lia)) as H52.
  assert (Hu : (-1074 <= u)%Z) by (unfold u; lia).
  destruct (Z_lt_le_dec m (2 ^ 53)) as [Hsmall|Hbig].
  - (* the exponent stays *)
    apply (roundPos_fixed _ m u Hv Hvm).
    assert (Hlt : roundPos q < pow2 (u + 53)).
    { rewrite Hvm, Z.add_comm, pow2_plus. setoid_rewrite <- H53.
      apply Qmult_lt_compat_r; [exact Hp|]. rewrite <- Zlt_Qlt. exact Hsmall. }
    destruct (ilog2_spec _ Hv) as [Hs1 Hs2].
    assert (Hi1 : (ilog2 (roundPos q) < u + 53)%Z) by (apply pow2_lt_inv; lra).
    destruct (Z_lt_le_dec (-1074) u) as [Hnormal|Hsub]; [|lia].
    specialize (Hlow Hnormal).
    assert (Hi2 : (u + 52 < ilog2 (roundPos q) + 1)%Z) by (apply pow2_lt_inv; lra).
    lia.
  - (* the result is the next power of two *)
    assert (Hm53 : m = (2 ^ 53)%Z).
    { apply Z.le_antisymm; [|exact Hbig]. unfold m. apply roundHalfEven_le.
      destruct (ilog2_spec q Hq) as [_ H2]. apply Qle_shift_div_r; [exact Hp|].
      setoid_rewrite H53. rewrite <- pow2_plus.
      pose proof (pow2_le (ilog2 q + 1) (53 + u) ltac:(lia)). lra. }
    assert (Hval : roundPos q == pow2 (u + 53)).
    { rewrite Hvm, Hm53, Z.add_comm, pow2_plus. setoid_rewrite H53. reflexivity. }
    assert (Hlog : ilog2 (roundPos q) = (u + 53)%Z).
    { apply ilog2_unique; [lra|]. pose proof (pow2_lt (u + 53) (u + 53 + 1) ltac:(lia)).
      lra. }
    apply (roundPos_fixed _ (2 ^ 52) (u + 1) Hv); [|lia].
    rewrite Hval. setoid_rewrite H52. rewrite <- pow2_plus.
    replace (52 + (u + 1))%Z with (u + 53)%Z by lia. reflexivity.
Qed.

(** Rounding a second time changes nothing: the results of [round] are
    the doubles. *)
Lemma round_idem q : round (round q) == round q.
Proof.
  destruct (Qsign_cases q) as [Hq|[Hq|Hq]].
  - rewrite (round_neg q Hq). pose proof (roundPos_nonneg (- q) ltac:(lra)) as Hv.
    destruct (Qle_lt_or_eq _ _ Hv) as [Hpos|Hzero].
    + rewrite round_neg by lra.
      rewrite (roundPos_eq (- - roundPos (- q)) (roundPos (- q))) by (try ring; lra).
      rewrite roundPos_idem by lra. reflexivity.
    + rewrite round_zero by lra. lra.
  - rewrite (round_zero q Hq). reflexivity.
  - rewrite (round_pos q Hq). pose proof (roundPos_nonneg q Hq) as Hv.
    destruct (Qle_lt_or_eq _ _ Hv) as [Hpos|Hzero].
    + rewrite round_pos by exact Hpos. apply roundPos_idem; assumption.
    + rewrite round_zero by lra. lra.
Qed.

End DoubleFacts.

(** ** The confidence scorer *)

Section ScorerFacts.

Import Scorer.
Local Open Scope Q_scope.

Lemma weights_range s :
  (1 # 2) <= Double.lit (weights s) /\
  Double.round (Double.lit (weights s)) == Double.lit (weights s).
Proof. split; [destruct s; vm_compute; discriminate|apply round_idem]. Qed.

(** The loop keeps the two sums the specification names. *)
Lemma accumulate_sums fixes : forall a b,
  List.fold_left accumulate fixes (a, b)
  = (List.fold_left Double.add (List.map weightedTerm fixes) a,
     List.fold_left Double.add (List.map weightTerm fixes) b).
Proof.
  induction fixes as [|f fixes IH]; intros a b; [reflexivity|].
  cbn [List.fold_left List.map]. unfold accumulate at 2. cbn [fst snd].
  apply IH.
Qed.

Lemma lit_unit c : 0 <= c <= 1 -> 0 <= Double.lit c <= 1.
Proof.
  intros [H0 H1]. unfold Double.lit. split.
  - apply round_nonneg, H0.
  - apply round_le_double; [exact H1|apply round_1].
Qed.

Lemma weightedTerm_range f :
  0 <= confidence f <= 1 -> 0 <= weightedTerm f <= weightTerm f.
Proof.
  intros Hc. apply lit_unit in Hc. unfold weightedTerm, weightTerm, Double.mul.
  destruct (weights_range (severity f)) as [Hw Hidem].
  set (w := Double.lit (weights (severity f))) in *. split.
  - apply round_nonneg. nra.
  - apply round_le_double; [nra|exact Hidem].
Qed.

(** Sum for sum, the weighted confidences stay below the weights. *)
Lemma sums_ordered fixes : forall a b,
  Forall (fun f => 0 <= confidence f <= 1) fixes ->
  0 <= a <= b ->
  0 <= List.fold_left Double.add (List.map weightedTerm fixes) a
  <= List.fold_left Double.add (List.map weightTerm fixes) b.
Proof.
  induction fixes as [|f fixes IH]; intros a b Hall Hab; [exact Hab|].
  inversion Hall as [|? ? Hf Hrest]; subst. cbn [List.map List.fold_left].
  apply IH; [exact Hrest|]. pose proof (weightedTerm_range f Hf) as Ht.
  unfold Double.add. split.
  - apply round_nonneg. lra.
  - apply round_mono. lra.
Qed.

Lemma weight_sum_pos fixes : forall b,
  (1 # 2) <= b -> (1 # 2) <= List.fold_left Double.add (List.map weightTerm fixes) b.
Proof.
  induction fixes as [|f fixes IH]; intros b Hb; [exact Hb|].
  cbn [List.map List.fold_left]. apply IH. unfold Double.add, weightTerm.
  destruct (weights_range (severity f)) as [Hw _].
  apply round_ge_double; [lra|vm_compute; reflexivity].
Qed.

Lemma totalWeight_pos f fixes :
  0 < List.fold_left Double.add (List.map weightTerm (f :: fixes)) 0.
Proof.
  cbn [List.map List.fold_left].
  assert (H : (1 # 2) <= Double.add 0 (weightTerm f)).
  { unfold Double.add, weightTerm. destruct (weights_range (severity f)) as [Hw _].
    apply round_ge_double; [lra|vm_compute; reflexivity]. }
  pose proof (weight_sum_pos fixes _ H). lra.
Qed.

(** C6, as amended.  For fixes whose confidences lie in [0,1], the overall
    confidence computed by [calculateOverallConfidence] is the
    severity-weighted average of the confidences evaluated in the
    arithmetic of doubles: the sum of the rounded products of confidence
    and weight over the sum of the weights, both summed in the order of
    the list with every sum rounded, and the quotient rounded (weights
    critical 1.5, error 1.0, warning 0.7, info 0.5, fixed by [weights]);
    it lies in [0,1] again; and the empty set of fixes has overall
    confidence 1. *)
Theorem overall_confidence_rounded_average (fixes : list FixSuggestion) :
  Forall (fun f => 0 <= confidence f <= 1) fixes ->
  calculateOverallConfidence fixes == roundedAverage fixes /\
  0 <= calculateOverallConfidence fixes <= 1 /\
  calculateOverallConfidence [] == 1 /\
  (weights critical == 1.5 /\ weights error == 1 /\
   weights warning == 0.7 /\ weights info == 0.5).
Proof.
  intros Hconf.
  assert (Havg : calculateOverallConfidence fixes == roundedAverage fixes).
  { destruct fixes as [|f fixes]; [reflexivity|].
    unfold calculateOverallConfidence, roundedAverage, roundedSum.
    rewrite accumulate_sums. pose proof (totalWeight_pos f fixes) as Hpos.
    destruct (Qlt_le_dec 0 _) as [_|Hle]; [reflexivity|lra]. }
  split; [exact Havg|]. split; [|split; [reflexivity|repeat split; reflexivity]].
  rewrite Havg. destruct fixes as [|f fixes]; [split; discriminate|].
  unfold roundedAverage, roundedSum.
  pose proof (totalWeight_pos f fixes) as Hpos.
  pose proof (sums_ordered (f :: fixes) 0 0 Hconf ltac:(lra)) as [Hlo Hhi].
  set (twc := List.fold_left _ (List.map weightedTerm _) _) in *.
  set (tw := List.fold_left _ (List.map weightTerm _) _) in *.
  unfold Double.div. split.
  - apply round_nonneg. apply Qle_shift_div_l; [exact Hpos|]. lra.
  - apply round_le_double; [|apply round_1].
    apply Qle_shift_div_r; [exact Hpos|]. lra.
Qed.

Lemma overall_confidence_rounded_average_witness :
  calculateOverallConfidence sampleFixes == roundedAverage sampleFixes /\
  0 <= calculateOverallConfidence sampleFixes <= 1 /\
  calculateOverallConfidence [] == 1 /\
  (weights critical == 1.5 /\ weights error == 1 /\
   weights warning == 0.7 /\ weights info == 0.5).
Proof.
  apply (overall_confidence_rounded_average sampleFixes).
  repeat constructor; vm_compute; discriminate.
Defined.

(** C6, as stated, fails: the product and the quotient are rounded.  One
    warning fix of confidence 0.75, itself a double, has the weighted
    average 0.75 whatever its weight; the code returns 0.7499999999999999,
    the double just below. *)
Lemma overall_confidence_not_exact :
  ~ (forall fixes : list FixSuggestion,
       Forall (fun f => 0 <= confidence f <= 1) fixes ->
       calculateOverallConfidence fixes == weightedAverage fixes).
Proof.
  intros H. specialize (H warningSample).
  assert (Hconf : Forall (fun f => 0 <= confidence f <= 1) warningSample)
    by (repeat constructor; vm_compute; discriminate).
  specialize (H Hconf). vm_compute in H. discriminate H.
Qed.

(** The value the code returns on that sample, 0.7499999999999999, and on
    two error fixes of confidences 0.1 and 0.2, where the sum is rounded
    as well: 0.15000000000000002. *)
Lemma overall_confidence_samples :
  calculateOverallConfidence warningSample
  == 6755399441055743 # 9007199254740992 /\
  weightedAverage warningSample == 0.75 /\
  calculateOverallConfidence roundingSample
  == 5404319552844596 # 36028797018963968 /\
  weightedAverage roundingSample == 0.15.
Proof. repeat split; vm_compute; reflexivity. Qed.

End ScorerFacts.

(** ** The indentation-style detector *)

Section IndentationFacts.

Import Js Indentation.

Lemma countLine_counts lines c2 c4 :
  List.fold_left countLine lines (c2, c4) =
  (c2 + countMultiples 2 lines, c4 + countMultiples 4 lines)%nat.
Proof.
  revert c2 c4; induction lines as [|l lines IH]; intros c2 c4.
  - unfold countMultiples; simpl. f_equal; lia.
  - cbn [List.fold_left]. unfold countLine at 2. unfold countMultiples, supports.
    cbn [List.filter fst snd].
    destruct (getIndent l =? 0)%nat eqn:E0.
    + apply Nat.eqb_eq in E0. rewrite E0. cbn [Nat.ltb Nat.leb andb].
      apply IH.
    + apply Nat.eqb_neq in E0.
      assert (Hpos : (0 <? getIndent l)%nat = true) by (apply Nat.ltb_lt; lia).
      rewrite Hpos. cbn [andb]. rewrite IH. unfold countMultiples, supports.
      destruct (getIndent l mod 2 =? 0)%nat, (getIndent l mod 4 =? 0)%nat;
        cbn [List.length]; f_equal; lia.
Qed.

(** C9.  [detectIndentationStyle] counts the indented lines whose indent
    width is a multiple of 4 and those whose indent width is a multiple of
    2, and answers 4 exactly when the first count is strictly above the
    second; otherwise, ties included, it answers 2. *)
Theorem detectIndentationStyle_counts (content : string) :
  detectIndentationStyle content =
  if (countMultiples 2 (splitLines content) <? countMultiples 4 (splitLines content))%nat
  then 4%nat else 2%nat.
Proof.
  unfold detectIndentationStyle. rewrite countLine_counts. reflexivity.
Qed.

(** A multiple of 4 is a multiple of 2, so the count for 4 never exceeds
    the count for 2 and the answer is 2 on every text. *)
Lemma countMultiples_4_le_2 lines :
  (countMultiples 4 lines <= countMultiples 2 lines)%nat.
Proof.
  unfold countMultiples. induction lines as [|l lines IH]; [reflexivity|].
  cbn [List.filter].
  destruct (supports 4 l) eqn:E4, (supports 2 l) eqn:E2; cbn [List.length]; try lia.
  exfalso. unfold supports in E4, E2.
  apply andb_true_iff in E4 as [Hpos E4]. rewrite Hpos in E2. cbn [andb] in E2.
  apply Nat.eqb_eq in E4. apply Nat.eqb_neq in E2. apply E2.
  pose proof (Nat.div_mod_eq (getIndent l) 4) as H4.
  pose proof (Nat.div_mod_eq (getIndent l) 2) as H2.
  pose proof (Nat.mod_upper_bound (getIndent l) 2 ltac:(lia)). lia.
Qed.

Lemma detectIndentationStyle_is_2 (content : string) :
  detectIndentationStyle content = 2%nat.
Proof.
  unfold detectIndentationStyle. rewrite countLine_counts. cbn [fst snd Nat.add].
  pose proof (countMultiples_4_le_2 (splitLines content)) as H.
  destruct (Nat.ltb_spec (countMultiples 2 (splitLines content))
                         (countMultiples 4 (splitLines content))); [lia|reflexivity].
Qed.

End IndentationFacts.

(** ** The indentation tracker *)

Section TrackerFacts.

Import Js.

Lemma descending_increasing stack : descending stack -> increasing (List.rev stack).
Proof.
  unfold increasing. induction stack as [|top rest IH]; intros Hd.
  - constructor.
  - destruct Hd as [Hall Hd]. cbn [List.rev].
    apply StronglySorted_app_2; [|auto|repeat constructor].
    intros x1 x2 Hx1 Hx2. rewrite list_elem_of_In in Hx1, Hx2.
    destruct Hx2 as [<-|[]]. apply in_rev in Hx1.
    rewrite Forall_forall in Hall. apply Hall. apply list_elem_of_In. exact Hx1.
Qed.

Lemma popWhile_descending indent stack :
  descending stack ->
  Forall (fun l => (lv_indent l < indent)%nat) (Tracker.popWhile indent stack) /\
  descending (Tracker.popWhile indent stack).
Proof.
  induction stack as [|top rest IH]; intros Hd; cbn [Tracker.popWhile].
  - split; constructor.
  - destruct Hd as [Hall Hd].
    destruct (Nat.leb_spec indent (lv_indent top)) as [Hle|Hlt].
    + apply IH, Hd.
    + split; [|split; assumption].
      constructor; [exact Hlt|].
      eapply Forall_impl; [exact Hall|]. intros l Hl; cbn in *. lia.
Qed.

Lemma popWhile_suffix indent stack :
  exists popped,
    stack = (popped ++ Tracker.popWhile indent stack)%list /\
    Forall (fun l => (indent <= lv_indent l)%nat) popped.
Proof.
  induction stack as [|top rest [popped [Heq Hall]]]; cbn [Tracker.popWhile].
  - exists []. split; [reflexivity|constructor].
  - destruct (Nat.leb_spec indent (lv_indent top)) as [Hle|Hlt].
    + exists (top :: popped). split; [cbn; f_equal; exact Heq|].
      constructor; assumption.
    + exists []. split; [reflexivity|constructor].
Qed.

Lemma processLine_descending tr n content indent :
  descending (Tracker.indentStack tr) ->
  descending (Tracker.indentStack (Tracker.processLine tr n content indent)) /\
  if String.eqb (trim content) "---"
  then Tracker.indentStack (Tracker.processLine tr n content indent) = []
  else Forall (fun l => (lv_indent l < indent)%nat)
         (Tracker.indentStack (Tracker.processLine tr n content indent)).
Proof.
  intros Hd. unfold Tracker.processLine.
  destruct (String.eqb (trim content) "---"); cbn.
  - split; [exact I|reflexivity].
  - destruct (popWhile_descending indent _ Hd); split; assumption.
Qed.

Lemma analyzeLine_descending a n content :
  descending (Tracker.indentStack (Analyzer.indentTracker a)) ->
  descending (Tracker.indentStack
                (Analyzer.indentTracker (snd (Analyzer.analyzeLine a n content)))).
Proof.
  intros Hd. unfold Analyzer.analyzeLine.
  destruct (processLine_descending (Analyzer.indentTracker a) n content
              (getIndent content) Hd) as [Hd' Hbelow].
  set (tr := Tracker.processLine _ _ _ _) in *.
  destruct (if bool_decide _ || bool_decide _ then _ else _) as [key value].
  cbn [snd]. unfold Analyzer.updateContext. cbn [Analyzer.indentTracker Analyzer.context].
  destruct (if decide _ then _ else _) as [inBlock blockIndent].
  cbn [Analyzer.indentTracker sl_key sl_type sl_indent sl_isListItem sl_lineNumber].
  destruct (truthy key && _); [|exact Hd'].
  cbn [Tracker.push Tracker.indentStack descending lv_indent]. split; [|exact Hd'].
  destruct (String.eqb (trim content) "---").
  - rewrite Hbelow. constructor.
  - exact Hbelow.
Qed.

Lemma parseLine_descending st n content :
  descending (Tracker.indentStack (Analyzer.indentTracker (fst st))) ->
  descending (Tracker.indentStack
                (Analyzer.indentTracker (fst (SemanticParser.parseLine st n content)))).
Proof.
  intros Hd. destruct st as [a acc]. unfold SemanticParser.parseLine.
  pose proof (analyzeLine_descending a n content Hd) as H.
  destruct (Analyzer.isInBlockScalar a); [exact H|].
  destruct (Analyzer.analyzeLine a n content) as [line a']. exact H.
Qed.

Lemma parseLines_descending rawLines st n :
  descending (Tracker.indentStack (Analyzer.indentTracker (fst st))) ->
  descending (Tracker.indentStack
                (Analyzer.indentTracker (fst (SemanticParser.parseLines st n rawLines)))).
Proof.
  revert st n; induction rawLines as [|content rest IH]; intros st n Hd.
  - exact Hd.
  - cbn [SemanticParser.parseLines]. apply IH, parseLine_descending, Hd.
Qed.

(** C8.  Whatever lines have been processed, the stack of the indentation
    tracker is strictly increasing in indent from bottom to top; and
    processing one more line keeps it so: a [---] separator clears the
    stack, and any other line pops frames until every remaining frame has
    an indent strictly below the incoming one. *)
Theorem tracker_stack_increasing (rawLines : list string) :
  let tr := Analyzer.indentTracker
              (fst (SemanticParser.parseLines (Analyzer.init, []) 1 rawLines)) in
  increasing (Tracker.getStack tr) /\
  forall (lineNumber : nat) (content : string) (indent : nat),
    let tr' := Tracker.processLine tr lineNumber content indent in
    increasing (Tracker.getStack tr') /\
    if String.eqb (trim content) "---" then Tracker.getStack tr' = []
    else
      Forall (fun l => (lv_indent l < indent)%nat) (Tracker.getStack tr') /\
      exists popped,
        Tracker.getStack tr = (Tracker.getStack tr' ++ popped)%list /\
        Forall (fun l => (indent <= lv_indent l)%nat) popped.
Proof.
  intros tr.
  assert (Hd : descending (Tracker.indentStack tr)).
  { apply parseLines_descending. exact I. }
  split; [apply descending_increasing, Hd|].
  intros n content indent tr'.
  destruct (processLine_descending tr n content indent Hd) as [Hd' Hbelow].
  fold tr' in Hd', Hbelow.
  split; [apply descending_increasing, Hd'|].
  unfold Tracker.getStack. subst tr'. unfold Tracker.processLine in *.
  destruct (String.eqb (trim content) "---"); cbn [Tracker.indentStack Tracker.reset] in *.
  - reflexivity.
  - split; [apply Forall_rev, Hbelow|].
    destruct (popWhile_suffix indent (Tracker.indentStack tr)) as [popped [Heq Hall]].
    exists (List.rev popped). split; [|apply Forall_rev, Hall].
    rewrite Heq at 1. apply rev_app_distr.
Qed.

End TrackerFacts.

(** ** Lines of a text *)

Section LineFacts.

Import Js.

Lemma splitLines_cons s : exists h t, splitLines s = h :: t.
Proof.
  induction s as [|c r [h [t IH]]]; cbn [splitLines]; [eauto|].
  destruct (isChar nl c); [eauto|]. rewrite IH. eauto.
Qed.

Lemma isChar_nl c : isChar nl c = true -> c = nl.
Proof.
  unfold isChar, code. intros H%N.eqb_eq.
  rewrite <- (ascii_N_embedding c), <- (ascii_N_embedding nl). f_equal. exact H.
Qed.

Lemma joinLines_cons h t :
  joinLines (h :: t) = match t with
                       | [] => h
                       | _ => h ++ NL ++ joinLines t
                       end.
Proof. destruct t; reflexivity. Qed.

Lemma join_split s : joinLines (splitLines s) = s.
Proof.
  induction s as [|c r IH]; [reflexivity|]. cbn [splitLines].
  destruct (splitLines_cons r) as [h [t Hr]]. rewrite Hr in *.
  destruct (isChar nl c) eqn:Ec.
  - apply isChar_nl in Ec as ->. rewrite joinLines_cons, IH. reflexivity.
  - destruct t as [|h' t'].
    + cbn in *. rewrite IH. reflexivity.
    + change (joinLines (String c h :: h' :: t'))
        with (String c (h ++ NL ++ joinLines (h' :: t'))).
      f_equal. exact IH.
Qed.

Lemma splitLines_singleLine s : Forall (fun l => singleLine l = true) (splitLines s).
Proof.
  induction s as [|c r IH]; cbn [splitLines]; [repeat constructor|].
  destruct (isChar nl c) eqn:Ec; [constructor; [reflexivity|exact IH]|].
  destruct (splitLines r) as [|h t];
    [repeat constructor; cbn [singleLine]; rewrite Ec; reflexivity|].
  inversion IH; subst. constructor; [|assumption].
  cbn [singleLine]. rewrite Ec. assumption.
Qed.

Lemma splitLines_single s : singleLine s = true -> splitLines s = [s].
Proof.
  induction s as [|c r IH]; [reflexivity|].
  cbn [singleLine splitLines]. intros [Hc Hr]%andb_true_iff.
  apply negb_true_iff in Hc. rewrite Hc, (IH Hr). reflexivity.
Qed.

Lemma splitLines_app h rest :
  singleLine h = true -> splitLines (h ++ NL ++ rest) = h :: splitLines rest.
Proof.
  induction h as [|c r IH]; [reflexivity|].
  cbn [singleLine]. intros [Hc Hr]%andb_true_iff.
  apply negb_true_iff in Hc.
  change (String c r ++ NL ++ rest) with (String c (r ++ NL ++ rest)).
  cbn [splitLines]. rewrite Hc, (IH Hr). reflexivity.
Qed.

Lemma split_join ls :
  ls <> [] -> Forall (fun l => singleLine l = true) ls ->
  splitLines (joinLines ls) = ls.
Proof.
  induction ls as [|h t IH]; [congruence|]. intros _ Hall.
  inversion Hall as [|? ? Hh Ht]; subst. rewrite joinLines_cons.
  destruct t as [|h' t'].
  - apply splitLines_single, Hh.
  - rewrite splitLines_app by exact Hh. f_equal. apply IH; [discriminate|exact Ht].
Qed.

Lemma length_splitLines s :
  List.length (splitLines s) = S (countChar (isChar nl) s).
Proof.
  induction s as [|c r IH]; [reflexivity|]. cbn [splitLines countChar].
  destruct (isChar nl c); [cbn [List.length]; lia|].
  destruct (splitLines r) as [|h t]; [discriminate IH|exact IH].
Qed.

Lemma countChar_app cls a b :
  countChar cls (a ++ b) = (countChar cls a + countChar cls b)%nat.
Proof.
  induction a as [|c r IH]; [reflexivity|].
  change (String c r ++ b) with (String c (r ++ b)).
  cbn [countChar]. rewrite IH. lia.
Qed.

Lemma singleLine_countChar s :
  singleLine s = true <-> countChar (isChar nl) s = 0%nat.
Proof.
  induction s as [|c r IH]; [split; reflexivity|]. cbn [singleLine countChar].
  destruct (isChar nl c); cbn [negb andb]; [split; [discriminate|lia]|].
  rewrite IH. reflexivity.
Qed.

Lemma lineBreaks_cons l ls :
  lineBreaks (l :: ls) = (countChar (isChar nl) l + lineBreaks ls)%nat.
Proof. reflexivity. Qed.

Lemma lineBreaks_none ls :
  lineBreaks ls = 0%nat <-> Forall (fun l => singleLine l = true) ls.
Proof.
  induction ls as [|l ls IH]; [split; [constructor|reflexivity]|].
  rewrite lineBreaks_cons, Forall_cons, singleLine_countChar, <- IH. lia.
Qed.

(** Every entry of the joined array gives one line, and every line break
    inside an entry one more. *)
Lemma length_split_join ls :
  ls <> [] ->
  List.length (splitLines (joinLines ls)) = (List.length ls + lineBreaks ls)%nat.
Proof.
  intros Hne. rewrite length_splitLines.
  induction ls as [|h t IH]; [congruence|]. clear Hne.
  rewrite joinLines_cons, lineBreaks_cons. destruct t as [|h' t'].
  - cbn. lia.
  - rewrite !countChar_app. change (countChar (isChar nl) NL) with 1%nat.
    specialize (IH ltac:(discriminate)). cbn [List.length] in *. lia.
Qed.

End LineFacts.

(** ** Applying a batch of fixes *)

Section ApplyFacts.

Import Js Intelligent.

Lemma lastTargeting_insertSorted k x l :
  lastTargeting k (insertSorted descendingLine x l) = lastTargeting k (x :: l).
Proof.
  induction l as [|y r IH]; [reflexivity|]. cbn [insertSorted].
  unfold descendingLine at 1.
  destruct (Z.ltb_spec 0 (lineNumber y - lineNumber x)) as [Hgt|Hle]; [|reflexivity].
  cbn [lastTargeting] in *. rewrite IH.
  destruct (lastTargeting k r); [reflexivity|].
  destruct (Z.eqb_spec (lineNumber x) k), (Z.eqb_spec (lineNumber y) k);
    try reflexivity; lia.
Qed.

Lemma lastTargeting_sort k l :
  lastTargeting k (sort descendingLine l) = lastTargeting k l.
Proof.
  induction l as [|x l IH]; [reflexivity|]. cbn [sort].
  rewrite lastTargeting_insertSorted. cbn [lastTargeting]. rewrite IH. reflexivity.
Qed.

Lemma applyOne_length lines f : List.length (applyOne lines f) = List.length lines.
Proof. unfold applyOne. destruct (_ && _); [apply length_insert|reflexivity]. Qed.

Lemma applyOne_lookup lines f i :
  applyOne lines f !! i =
  (fun orig => if (lineNumber f =? Z.of_nat i + 1)%Z then fixed f else orig)
    <$> lines !! i.
Proof.
  unfold applyOne.
  destruct (Z.ltb_spec 0 (lineNumber f)) as [Hpos|Hneg]; cbn [andb].
  - destruct (Z.leb_spec (lineNumber f) (Z.of_nat (List.length lines))) as [Hle|Hgt].
    + rewrite list_lookup_insert. case_decide as Hd.
      * destruct Hd as [<- Hlt].
        destruct (lookup_lt_is_Some_2 lines _ Hlt) as [orig ->]. cbn.
        destruct (Z.eqb_spec (lineNumber f) (Z.of_nat (Z.to_nat (lineNumber f - 1)) + 1));
          [reflexivity|lia].
      * destruct (lines !! i) as [orig|] eqn:Hi; [|reflexivity]. cbn.
        apply lookup_lt_Some in Hi.
        destruct (Z.eqb_spec (lineNumber f) (Z.of_nat i + 1)); [|reflexivity].
        exfalso. apply Hd. split; lia.
    + destruct (lines !! i) as [orig|] eqn:Hi; [|reflexivity]. cbn.
      apply lookup_lt_Some in Hi.
      destruct (Z.eqb_spec (lineNumber f) (Z.of_nat i + 1)); [lia|reflexivity].
  - destruct (lines !! i) as [orig|] eqn:Hi; [|reflexivity]. cbn.
    destruct (Z.eqb_spec (lineNumber f) (Z.of_nat i + 1)); [lia|reflexivity].
Qed.

Lemma fold_applyOne_lookup fixes lines i :
  List.fold_left applyOne fixes lines !! i = lineAfter fixes i <$> lines !! i.
Proof.
  revert lines; induction fixes as [|f fixes IH]; intros lines.
  - cbn. destruct (lines !! i); reflexivity.
  - cbn [List.fold_left]. rewrite IH, applyOne_lookup.
    destruct (lines !! i) as [orig|]; [|reflexivity]. cbn. f_equal.
    unfold lineAfter. cbn [lastTargeting].
    destruct (lastTargeting (Z.of_nat i + 1) fixes); [reflexivity|].
    destruct (lineNumber f =? Z.of_nat i + 1)%Z; reflexivity.
Qed.

(** What [applyFixes] computes, line by line. *)
Lemma applyFixes_lines yamlContent fixes :
  applyFixes yamlContent fixes =
  joinLines (imap (lineAfter fixes) (splitLines yamlContent)).
Proof.
  unfold applyFixes. f_equal. apply list_eq. intros i.
  rewrite fold_applyOne_lookup, list_lookup_imap.
  destruct (splitLines yamlContent !! i); [|reflexivity]. cbn. f_equal.
  unfold lineAfter. fold descendingLine. rewrite lastTargeting_sort. reflexivity.
Qed.

Lemma lastTargeting_Some k fixes f :
  lastTargeting k fixes = Some f -> In f fixes /\ lineNumber f = k.
Proof.
  induction fixes as [|g rest IH]; [discriminate|]. cbn [lastTargeting].
  destruct (lastTargeting k rest) as [h|].
  - intros [= ->]. destruct (IH eq_refl). split; [right|]; assumption.
  - destruct (Z.eqb_spec (lineNumber g) k); [|discriminate].
    intros [= ->]. split; [left; reflexivity|assumption].
Qed.

Lemma lastTargeting_filter n k fixes :
  (0 < k <= Z.of_nat n)%Z ->
  lastTargeting k (List.filter (inRange n) fixes) = lastTargeting k fixes.
Proof.
  intros Hk. induction fixes as [|f rest IH]; [reflexivity|].
  cbn [List.filter lastTargeting]. destruct (inRange n f) eqn:Hin.
  - cbn [lastTargeting]. rewrite IH. reflexivity.
  - rewrite IH. destruct (lastTargeting k rest); [reflexivity|].
    destruct (Z.eqb_spec (lineNumber f) k) as [Heq|]; [|reflexivity].
    unfold inRange in Hin. apply andb_false_iff in Hin as [H%Z.ltb_ge|H%Z.leb_gt]; lia.
Qed.

Lemma lineAfter_singleLine fixes lines :
  (forall f, In f fixes -> inRange (List.length lines) f = true ->
             singleLine (fixed f) = true) ->
  Forall (fun l => singleLine l = true) lines ->
  Forall (fun l => singleLine l = true) (imap (lineAfter fixes) lines).
Proof.
  intros Hfix Hlines. apply Forall_forall. intros l Hl.
  apply elem_of_lookup_imap_1 in Hl as [i [orig [-> Hi]]].
  unfold lineAfter.
  destruct (lastTargeting (Z.of_nat i + 1) fixes) as [f|] eqn:Hlast.
  - apply lastTargeting_Some in Hlast as [Hin Hnum]. apply Hfix; [exact Hin|].
    apply lookup_lt_Some in Hi. unfold inRange.
    apply andb_true_iff. split; [apply Z.ltb_lt|apply Z.leb_le]; lia.
  - rewrite Forall_forall in Hlines. eapply Hlines, list_elem_of_lookup_2, Hi.
Qed.

(** The lines of the result, when every fix that lands in the document
    replaces its line by a single line. *)
Lemma splitLines_applyFixes yamlContent fixes :
  (forall f, In f fixes ->
             inRange (List.length (splitLines yamlContent)) f = true ->
             singleLine (fixed f) = true) ->
  splitLines (applyFixes yamlContent fixes)
  = imap (lineAfter fixes) (splitLines yamlContent).
Proof.
  intros Hsingle. rewrite applyFixes_lines. apply split_join.
  - destruct (splitLines_cons yamlContent) as [h [t ->]]. discriminate.
  - apply lineAfter_singleLine; [exact Hsingle|apply splitLines_singleLine].
Qed.

(** C10, as amended.  For every text and every batch: the fixes whose
    line number is 0 or less, or beyond the last line, are ignored; the
    result joins an array with one entry for every line of the text, in
    which an entry that no fix of the batch targets is the line as it was;
    the result has as many lines as the text, and one more for every line
    break inside an entry.  When there is none, as when the replacement
    text of every fix that lands in the document is a single line, the
    number of lines is kept and every line of the result that no fix of
    the batch targets is the line of the text. *)
Theorem applyFixes_frame (yamlContent : string) (fixes : list FixSuggestion) :
  let lines := splitLines yamlContent in
  let entries := imap (lineAfter fixes) lines in
  applyFixes yamlContent fixes =
    applyFixes yamlContent (List.filter (inRange (List.length lines)) fixes) /\
  applyFixes yamlContent fixes = joinLines entries /\
  List.length entries = List.length lines /\
  (forall i : nat,
     (forall f, In f fixes -> lineNumber f <> (Z.of_nat i + 1)%Z) ->
     entries !! i = lines !! i) /\
  List.length (splitLines (applyFixes yamlContent fixes))
    = (List.length lines + lineBreaks entries)%nat /\
  ((forall f, In f fixes -> inRange (List.length lines) f = true ->
              singleLine (fixed f) = true) ->
   lineBreaks entries = 0%nat) /\
  (lineBreaks entries = 0%nat ->
   List.length (splitLines (applyFixes yamlContent fixes)) = List.length lines /\
   forall i : nat,
     (forall f, In f fixes -> lineNumber f <> (Z.of_nat i + 1)%Z) ->
     splitLines (applyFixes yamlContent fixes) !! i = lines !! i).
Proof.
  intros lines entries.
  assert (Hne : entries <> []).
  { unfold entries, lines. destruct (splitLines_cons yamlContent) as [h [t ->]].
    discriminate. }
  assert (Hframe : forall i : nat,
            (forall f, In f fixes -> lineNumber f <> (Z.of_nat i + 1)%Z) ->
            entries !! i = lines !! i).
  { intros i Hnone. unfold entries. rewrite list_lookup_imap.
    destruct (lines !! i) as [orig|]; [|reflexivity]. cbn. f_equal.
    unfold lineAfter.
    destruct (lastTargeting (Z.of_nat i + 1) fixes) as [f|] eqn:Hlast; [|reflexivity].
    apply lastTargeting_Some in Hlast as [Hin Hnum]. destruct (Hnone f Hin Hnum). }
  assert (Hcount : List.length (splitLines (applyFixes yamlContent fixes))
                   = (List.length lines + lineBreaks entries)%nat).
  { rewrite applyFixes_lines. fold lines. fold entries.
    rewrite (length_split_join _ Hne). unfold entries. rewrite length_imap.
    reflexivity. }
  split.
  { rewrite !applyFixes_lines. f_equal. apply imap_ext. intros i orig Hi.
    unfold lineAfter. rewrite lastTargeting_filter; [reflexivity|].
    apply lookup_lt_Some in Hi. unfold lines. lia. }
  split; [apply applyFixes_lines|]. split; [apply length_imap|].
  split; [exact Hframe|]. split; [exact Hcount|]. split.
  - intros Hsingle. apply lineBreaks_none, lineAfter_singleLine;
      [exact Hsingle|apply splitLines_singleLine].
  - intros Hnone. split; [lia|]. intros i Hi.
    rewrite applyFixes_lines. fold lines. fold entries.
    rewrite (split_join _ Hne) by (apply lineBreaks_none, Hnone).
    apply Hframe, Hi.
Qed.

Lemma applyFixes_frame_witness :
  applyFixes sampleText sampleBatch =
    applyFixes sampleText
      (List.filter (inRange (List.length (splitLines sampleText))) sampleBatch) /\
  List.length (splitLines (applyFixes sampleText sampleBatch))
    = List.length (splitLines sampleText) /\
  (forall i : nat,
     (forall f, In f sampleBatch -> lineNumber f <> (Z.of_nat i + 1)%Z) ->
     splitLines (applyFixes sampleText sampleBatch) !! i = splitLines sampleText !! i).
Proof.
  destruct (applyFixes_frame sampleText sampleBatch)
    as (Hignored & _ & _ & _ & _ & Hsingle & Hkept).
  split; [exact Hignored|]. apply Hkept, Hsingle.
  intros f Hin _. cbn in Hin.
  destruct Hin as [<-|[<-|[<-|[<-|[]]]]]; reflexivity.
Defined.

(** A replacement text with a line break adds a line: the batch
    [twoLineFix] turns the one line of its text into two. *)
Lemma applyFixes_two_lines :
  splitLines (applyFixes "a" [twoLineFix]) = ["x"; "y"].
Proof. vm_compute. reflexivity. Qed.

(** C10, as stated, fails: a fix whose replacement text holds a line break
    turns one line into two. *)
Lemma applyFixes_line_count_counterexample :
  ~ (forall (yamlContent : string) (fixes : list FixSuggestion),
       List.length (splitLines (applyFixes yamlContent fixes))
       = List.length (splitLines yamlContent)).
Proof.
  intros H. specialize (H "a" [twoLineFix]). vm_compute in H. discriminate H.
Qed.

End ApplyFacts.

(** ** The iterative fix loop *)

Section LoopFacts.

Import Js Intelligent.

Context `{YamlLib}.

Lemma loop_iteration_bound options fuel st :
  (iteration st <= maxIterations options)%nat ->
  (iteration (loop options fuel st) <= maxIterations options)%nat.
Proof.
  revert st; induction fuel as [|fuel IH]; intros st Hle; [exact Hle|].
  cbn [loop]. destruct (Nat.ltb_spec (iteration st) (maxIterations options)); [|exact Hle].
  destruct (List.length _ =? 0)%nat; [cbn; lia|].
  destruct (load _); [cbn; lia|]. apply IH. cbn. lia.
Qed.

(** Any fuel that covers the iterations left gives the same run. *)
Lemma loop_fuel options fuel1 fuel2 st :
  (maxIterations options - iteration st <= fuel1)%nat ->
  (maxIterations options - iteration st <= fuel2)%nat ->
  loop options fuel1 st = loop options fuel2 st.
Proof.
  revert fuel2 st; induction fuel1 as [|fuel1 IH]; intros fuel2 st H1 H2.
  - destruct fuel2; [reflexivity|]. cbn [loop].
    destruct (Nat.ltb_spec (iteration st) (maxIterations options)); [lia|reflexivity].
  - destruct fuel2 as [|fuel2]; cbn [loop];
      destruct (Nat.ltb_spec (iteration st) (maxIterations options)); try lia;
      try reflexivity.
    destruct (List.length _ =? 0)%nat; [reflexivity|].
    destruct (load _); [reflexivity|]. apply IH; cbn; lia.
Qed.

Lemma loop_stops options fuel st :
  (iteration st < maxIterations options)%nat ->
  validFixes options (currentYaml st) = [] ->
  loop options (S fuel) st = mkState (allFixes st) (currentYaml st) (S (iteration st)).
Proof.
  intros Hlt Hnone. cbn [loop].
  destruct (Nat.ltb_spec (iteration st) (maxIterations options)); [|lia].
  rewrite Hnone. reflexivity.
Qed.

Lemma textAt_next options t k :
  textAt options (nextText options t) k = textAt options t (S k).
Proof. unfold textAt. symmetry. apply Nat.iter_succ_r. Qed.

Lemma loop_run options k : forall fuel st,
  (iteration st + k < maxIterations options)%nat ->
  (k < fuel)%nat ->
  (forall j, (j < k)%nat ->
     validFixes options (textAt options (currentYaml st) j) <> [] /\
     rejects (textAt options (currentYaml st) (S j))) ->
  validFixes options (textAt options (currentYaml st) k) = [] ->
  iteration (loop options fuel st) = S (iteration st + k) /\
  currentYaml (loop options fuel st) = textAt options (currentYaml st) k.
Proof.
  induction k as [|k IH]; intros fuel st Hlt Hfuel Hgo Hstop.
  - destruct fuel as [|fuel]; [lia|]. rewrite loop_stops; cbn; [|lia|exact Hstop].
    split; [lia|reflexivity].
  - destruct fuel as [|fuel]; [lia|]. cbn [loop].
    destruct (Nat.ltb_spec (iteration st) (maxIterations options)); [|lia].
    destruct (Hgo 0%nat ltac:(lia)) as [Hsome [t Hrej]]. cbn in Hsome, Hrej.
    destruct (validFixes options (currentYaml st)) as [|f fs] eqn:Hvalid;
      [congruence|].
    cbn [List.length Nat.eqb]. fold (nextText options (currentYaml st)) in Hrej.
    unfold nextText in Hrej. rewrite Hvalid in Hrej. rewrite Hrej.
    set (st' := mkState _ _ _).
    assert (Htext : currentYaml st' = nextText options (currentYaml st)).
    { unfold nextText. rewrite Hvalid. reflexivity. }
    destruct (IH fuel st') as [Hit Hyaml].
    + cbn. lia.
    + lia.
    + intros j Hj. rewrite Htext, !textAt_next. apply Hgo. lia.
    + rewrite Htext, textAt_next. exact Hstop.
    + rewrite Hit, Hyaml, Htext, textAt_next. cbn. split; [lia|reflexivity].
Qed.

(** C3.  The loop of [fix] makes at most [maxIterations] iterations (3 by
    default), whatever the text and the options, and more fuel does not
    change the run.  The text returned is the text the loop ended on, and
    when the parser rejects it the result carries the parser's error.  When
    [k] iterations found fixes and left a text the parser rejects, and
    iteration [k + 1] finds no suggestion that passes the confidence
    filter, the loop stops there: [k + 1] iterations, and the text after
    the [k] batches is returned, parseable or not. *)
Theorem fix_loop_bounded (options : FixerOptions) (yamlContent : string) :
  let st := loop options (maxIterations options) (initialState yamlContent) in
  let result := fix_ options yamlContent in
  (iteration st <= maxIterations options)%nat /\
  maxIterations defaultOptions = 3%nat /\
  (forall fuel, (maxIterations options <= fuel)%nat ->
     loop options fuel (initialState yamlContent) = st) /\
  fixedYaml result = currentYaml st /\
  match load (fixedYaml result) with
  | Normal _ => isValid result = true /\ errors result = []
  | Throw t => isValid result = false /\ errors result = [reportedError t]
  end /\
  forall k : nat,
    (k < maxIterations options)%nat ->
    (forall j, (j < k)%nat ->
       validFixes options (textAt options yamlContent j) <> [] /\
       rejects (textAt options yamlContent (S j))) ->
    validFixes options (textAt options yamlContent k) = [] ->
    iteration st = S k /\ fixedYaml result = textAt options yamlContent k.
Proof.
  intros st result.
  assert (Hyaml : fixedYaml result = currentYaml st).
  { unfold result, fix_. fold (initialState yamlContent). fold st.
    destruct (finalErrors (currentYaml st)). reflexivity. }
  split; [apply loop_iteration_bound; cbn; lia|].
  split; [reflexivity|].
  split; [intros fuel Hfuel; apply loop_fuel; cbn; lia|].
  split; [exact Hyaml|]. split.
  - rewrite Hyaml. unfold result, fix_. fold (initialState yamlContent). fold st.
    unfold finalErrors. destruct (load (currentYaml st)); cbn; split; reflexivity.
  - intros k Hk Hgo Hstop.
    destruct (loop_run options k (maxIterations options) (initialState yamlContent))
      as [Hit Htext]; cbn; try assumption.
    rewrite Hyaml. fold st in Hit, Htext. cbn in Hit. split; assumption.
Qed.

End LoopFacts.

(** On [brokenEnv] with threshold 0.9 the first iteration adds the colon
    of [value x]; the second finds nothing above the threshold and the loop
    stops after two of its three iterations, on a text that does not
    parse. *)
Lemma fix_loop_bounded_witness :
  Intelligent.iteration
    (@Intelligent.loop rejectAll strictOptions 3 (initialState brokenEnv)) = 2%nat /\
  fixedYaml (@Intelligent.fix_ rejectAll strictOptions brokenEnv)
    = Js.joinLines ["- FOO"; "  value: x"] /\
  isValid (@Intelligent.fix_ rejectAll strictOptions brokenEnv) = false /\
  errors (@Intelligent.fix_ rejectAll strictOptions brokenEnv)
    = [reportedError Oracle.rejected].
Proof.
  destruct (@fix_loop_bounded rejectAll strictOptions brokenEnv)
    as (_ & _ & _ & _ & Herr & Hstop).
  destruct (Hstop 1%nat) as [Hit Htext].
  - vm_compute. lia.
  - intros j Hj. assert (j = 0%nat) as -> by lia. split.
    + vm_compute. discriminate.
    + exists Oracle.rejected. reflexivity.
  - vm_compute. reflexivity.
  - split; [exact Hit|]. split; [rewrite Htext; vm_compute; reflexivity|].
    rewrite Htext in Herr. exact Herr.
Defined.

(** ** Fixing a text that already parses *)

Section ValidInput.

Import Js Intelligent.

Context `{YamlLib}.

(** C4, as amended.  When no suggestion passes the confidence filter in the
    first iteration, [fix] returns the text as it came and reports no fix. *)
Theorem fix_without_suggestion_unchanged (options : FixerOptions)
    (yamlContent : string) :
  validFixes options yamlContent = [] ->
  fixedYaml (fix_ options yamlContent) = yamlContent /\
  fixes (fix_ options yamlContent) = [].
Proof.
  intros Hnone.
  assert (Hst : exists n,
    loop options (maxIterations options) (initialState yamlContent)
    = mkState [] yamlContent n).
  { destruct (maxIterations options) as [|m] eqn:Hm; [exists 0%nat; reflexivity|].
    exists 1%nat. apply loop_stops; [cbn; lia|exact Hnone]. }
  destruct Hst as [n Hst]. unfold fix_. fold (initialState yamlContent).
  rewrite Hst. cbn [currentYaml allFixes].
  destruct (finalErrors yamlContent). cbn. split; reflexivity.
Qed.

End ValidInput.

Lemma fix_without_suggestion_unchanged_witness :
  fixedYaml (@Intelligent.fix_ rejectAll Intelligent.defaultOptions "kind: Pod")
    = "kind: Pod" /\
  fixes (@Intelligent.fix_ rejectAll Intelligent.defaultOptions "kind: Pod") = [].
Proof.
  apply (@fix_without_suggestion_unchanged rejectAll).
  vm_compute. reflexivity.
Defined.

(** C4, as stated, fails: [misspelled] parses, and [fix] still rewrites
    its key and reports the fix. *)
Lemma fix_valid_input_counterexample :
  ~ (forall (Y : YamlLib) (options : FixerOptions) (yamlContent : string),
       (exists v, load yamlContent = Normal v) ->
       fixedYaml (Intelligent.fix_ options yamlContent) = yamlContent /\
       fixes (Intelligent.fix_ options yamlContent) = []).
Proof.
  intros Hclaim.
  destruct (Hclaim acceptsMisspelled Intelligent.defaultOptions misspelled)
    as [Htext _].
  - eexists. vm_compute. reflexivity.
  - vm_compute in Htext. discriminate Htext.
Qed.

(** ** The confidence threshold *)

Section Threshold.

Import Js Intelligent Scorer.

Local Open Scope Q_scope.

Lemma pushIfConfident_filter options c :
  pushIfConfident options c
  = List.filter (accepts (confidenceThreshold options)) (optionList c).
Proof. destruct c as [f|]; [|reflexivity]. cbn. unfold Qgeb, accepts.
  destruct (Qle_bool _ _); reflexivity. Qed.

Lemma filter_flat_map {A B : Type} (p : B -> bool) (f : A -> list B) l :
  List.filter p (List.flat_map f l) = List.flat_map (fun a => List.filter p (f a)) l.
Proof.
  induction l as [|a l IH]; [reflexivity|]. cbn [List.flat_map].
  rewrite List.filter_app, IH. reflexivity.
Qed.

Lemma iterationFixes_filter options yamlContent :
  iterationFixes options yamlContent
  = List.filter (accepts (confidenceThreshold options)) (candidates yamlContent).
Proof.
  unfold iterationFixes, candidates, ContextAwareKeyFixer.findMissingColons,
    FieldNormalizer.findTypos, ListStructureFixer.findBrokenLists,
    TypeCoercer.findTypeMismatches.
  rewrite !List.filter_app, !filter_flat_map.
  f_equal; [|f_equal; [|f_equal]]; apply List.flat_map_ext; intros line;
    rewrite ?pushIfConfident_filter.
  - destruct (ContextAwareKeyFixer.skips line); reflexivity.
  - destruct (FieldNormalizer.skips line); reflexivity.
  - destruct (negb (sl_isListItem line)); [reflexivity|].
    rewrite !List.filter_app. reflexivity.
  - reflexivity.
Qed.

Lemma filter_idem {A : Type} (p : A -> bool) l :
  List.filter p (List.filter p l) = List.filter p l.
Proof.
  induction l as [|a l IH]; [reflexivity|]. cbn. destruct (p a) eqn:E; [|exact IH].
  cbn. rewrite E, IH. reflexivity.
Qed.

Lemma validFixes_filter options yamlContent :
  validFixes options yamlContent
  = filterByConfidence (candidates yamlContent) (confidenceThreshold options).
Proof.
  unfold validFixes, filterByConfidence. rewrite iterationFixes_filter.
  apply filter_idem.
Qed.

Lemma accepts_mono t1 t2 f : t1 <= t2 -> accepts t2 f = true -> accepts t1 f = true.
Proof.
  unfold accepts. intros Hle H2%Qle_bool_iff. apply Qle_bool_iff.
  eapply Qle_trans; eassumption.
Qed.

Lemma filterByConfidence_mono fixes t1 t2 :
  t1 <= t2 ->
  (List.length (filterByConfidence fixes t2)
   <= List.length (filterByConfidence fixes t1))%nat.
Proof.
  intros Hle. unfold filterByConfidence.
  induction fixes as [|f fixes IH]; [reflexivity|]. cbn [List.filter].
  destruct (accepts t2 f) eqn:E2.
  - rewrite (accepts_mono t1 t2 f Hle E2). cbn. lia.
  - destruct (accepts t1 f); cbn; lia.
Qed.

Lemma insertSorted_length {A} (cmp : A -> A -> Z) x l :
  List.length (insertSorted cmp x l) = S (List.length l).
Proof.
  induction l as [|y l IH]; [reflexivity|]. cbn. destruct (0 <? cmp x y)%Z; cbn; lia.
Qed.

Lemma sort_length {A} (cmp : A -> A -> Z) l :
  List.length (sort cmp l) = List.length l.
Proof.
  induction l as [|x l IH]; [reflexivity|]. cbn. rewrite insertSorted_length. lia.
Qed.

End Threshold.

Section ThresholdMonotone.

Import Js Intelligent Scorer.

Local Open Scope Q_scope.

Context `{YamlLib}.

Lemma one_iteration_fixes options yamlContent :
  (maxIterations options <= 1)%nat ->
  List.length (fixes (fix_ options yamlContent))
  = if (maxIterations options =? 0)%nat then 0%nat
    else List.length (validFixes options yamlContent).
Proof.
  intros Hmax. unfold fix_.
  destruct (finalErrors _). cbn [fixes]. rewrite sort_length.
  destruct (maxIterations options) as [|[|m]] eqn:Hm; [reflexivity| |lia].
  cbn [loop Nat.eqb]. rewrite Hm. cbn [iteration Nat.ltb Nat.leb currentYaml allFixes].
  destruct (validFixes options yamlContent) as [|f fs]; [reflexivity|].
  cbn [List.length Nat.eqb]. destruct (load _); reflexivity.
Qed.

Lemma construct_threshold_mono o t1 t2 :
  t1 <= t2 ->
  confidenceThreshold (construct (withThreshold o t1))
  <= confidenceThreshold (construct (withThreshold o t2)).
Proof.
  intros Hle. unfold construct, withThreshold. cbn [aggressive confidenceThreshold].
  destruct (aggressive o); cbn [confidenceThreshold]; [|exact Hle].
  apply Q.min_le_compat_r, Hle.
Qed.

(** C5, as amended.  For thresholds [t1 <= t2] the confidence filter keeps
    no more suggestions at [t2] than at [t1]; and a fixer that is allowed a
    single iteration applies no more fixes at [t2] than at [t1] on the same
    text, the other options being equal. *)
Theorem fix_threshold_monotone_one_iteration (o : FixerOptions) (t1 t2 : Q)
    (yamlContent : string) :
  t1 <= t2 ->
  (maxIterations o <= 1)%nat ->
  (forall suggestions,
     (List.length (filterByConfidence suggestions t2)
      <= List.length (filterByConfidence suggestions t1))%nat) /\
  (List.length (fixes (fix_ (construct (withThreshold o t2)) yamlContent))
   <= List.length (fixes (fix_ (construct (withThreshold o t1)) yamlContent)))%nat.
Proof.
  intros Hle Hmax. split; [intros; apply filterByConfidence_mono, Hle|].
  assert (Hm : forall t, maxIterations (construct (withThreshold o t)) = maxIterations o).
  { intros t. unfold construct, withThreshold. cbn. destruct (aggressive o); reflexivity. }
  rewrite !one_iteration_fixes by (rewrite Hm; exact Hmax). rewrite !Hm.
  destruct (maxIterations o =? 0)%nat; [reflexivity|].
  rewrite !validFixes_filter. apply filterByConfidence_mono, construct_threshold_mono, Hle.
Qed.

End ThresholdMonotone.

Lemma fix_threshold_monotone_one_iteration_witness :
  (forall suggestions,
     (List.length (Scorer.filterByConfidence suggestions 0.8)
      <= List.length (Scorer.filterByConfidence suggestions 0.6))%nat) /\
  (List.length (fixes (@Intelligent.fix_ envParser
                         (Intelligent.construct (withThreshold oneIteration 0.8))
                         envText))
   <= List.length (fixes (@Intelligent.fix_ envParser
                            (Intelligent.construct (withThreshold oneIteration 0.6))
                            envText)))%nat.
Proof.
  apply (@fix_threshold_monotone_one_iteration envParser oneIteration 0.6 0.8 envText).
  - vm_compute. discriminate.
  - vm_compute. lia.
Defined.

(** C5, as stated, fails.  On [envText] threshold 0.6 accepts the colon
    after [- FOO] in the first iteration, the text parses and the loop ends
    with three fixes.  Threshold 0.8 leaves [- FOO] alone, the text does
    not parse, and the second iteration restructures both list items: four
    fixes. *)
Lemma fix_threshold_counterexample :
  ~ (forall (Y : YamlLib) (o : FixerOptions) (t1 t2 : Q) (yamlContent : string),
       (t1 <= t2)%Q ->
       (List.length (fixes (Intelligent.fix_
                              (Intelligent.construct (withThreshold o t2)) yamlContent))
        <= List.length (fixes (Intelligent.fix_
                                 (Intelligent.construct (withThreshold o t1))
                                 yamlContent)))%nat).
Proof.
  intros Hclaim.
  specialize (Hclaim envParser Intelligent.defaultOptions 0.6%Q 0.8%Q envText).
  assert (Hle : (0.6 <= 0.8)%Q) by (vm_compute; discriminate).
  specialize (Hclaim Hle). vm_compute in Hclaim. lia.
Qed.

Lemma fix_threshold_counterexample_counts :
  List.length (fixes (@Intelligent.fix_ envParser
                        (withThreshold Intelligent.defaultOptions 0.8) envText)) = 4%nat /\
  List.length (fixes (@Intelligent.fix_ envParser
                        (withThreshold Intelligent.defaultOptions 0.6) envText)) = 3%nat.
Proof. split; vm_compute; reflexivity. Qed.

(** ** The three-phase fixer on concrete documents *)

Section ThreePhase.

Import Js YAMLFixer.

(** C7.  Phase 1 on [listThenMapping]: the [name] under [x] is in another
    mapping than the [name] of the list item, separated from it by a
    dedent to column 0, and is removed all the same.  The seen keys of
    column 2 survive the dedent because [lastIndent] holds the indent of
    the dash (0), not the column of the key. *)
Theorem phase1_drops_key_after_dedent :
  fst (phase1_syntaxNormalization 2 listThenMapping) = ["list:"; "- name: a"; "x:"] /\
  List.map (fun c => (ch_type c, ch_line c, ch_original c))
    (snd (phase1_syntaxNormalization 2 listThenMapping))
  = [("DUPLICATE", 4%Z, "  name: b")].
Proof. split; vm_compute; reflexivity. Qed.

(** The same loss when a list item is written without the space after the
    dash: the reset for a new list item looks at the line as it was before
    the space was added. *)
Lemma phase1_drops_second_list_item :
  fst (phase1_syntaxNormalization 2 (joinLines ["- name: a"; "-name: b"]))
  = ["- name: a"].
Proof. vm_compute; reflexivity. Qed.

(** Two plain duplicates: the second goes. *)
Lemma phase1_removes_duplicate :
  fst (phase1_syntaxNormalization 2 (joinLines ["name: foo"; "name: foo"]))
  = ["name: foo"].
Proof. vm_compute; reflexivity. Qed.

Section WithParser.

Context `{YamlLib}.

(** C2.  [fix] on [blockText], when the parser accepts it: phase 1 leaves
    the line inside the block scalar alone, phase 3 does not know about
    block scalars and rewrites it. *)
Theorem fix_rewrites_block_scalar_line (docs : list JsValue) :
  loadAll blockText = Normal docs ->
  fst (phase1_syntaxNormalization 2 blockText) = splitLines blockText /\
  option_map fr_content
    (match fix_ 2 blockText false with Normal r => Some r | Throw _ => None end)
  = Some (joinLines ["data: |"; "  replicas: 3"]).
Proof.
  intros Hload. split; [vm_compute; reflexivity|].
  unfold fix_.
  replace (phase1_syntaxNormalization 2 blockText)
    with (splitLines blockText, @nil FixChange) by (vm_compute; reflexivity).
  rewrite join_split. unfold phase2_parseValidation. rewrite Hload.
  cbn [negb]. vm_compute. reflexivity.
Qed.

(** C1.  [fix] in aggressive mode on [scalarMetadata], when the parser
    gives the mapping the text denotes: moving [name] under [metadata]
    assigns a property of the string [foo], which throws; nothing in [fix]
    catches it. *)
Theorem fix_aggressive_throws :
  loadAll scalarMetadata = Normal [scalarMetadataDoc] ->
  exists msg, fix_ 2 scalarMetadata true = Throw (ThrowTypeError msg).
Proof.
  intros Hload. unfold fix_.
  replace (phase1_syntaxNormalization 2 scalarMetadata)
    with (splitLines scalarMetadata, @nil FixChange) by (vm_compute; reflexivity).
  rewrite join_split. unfold phase2_parseValidation. rewrite Hload.
  eexists. vm_compute. reflexivity.
Qed.

(** Without the aggressive mode [fix] always returns, and so does
    [validate]. *)
Lemma fix_returns (indentSize : nat) (content : string) :
  exists r, fix_ indentSize content false = Normal r.
Proof.
  unfold fix_. destruct (phase1_syntaxNormalization _ _) as [ls cs].
  destruct (phase2_parseValidation _) as [[valid errs] parsed].
  destruct valid; cbn [negb]; [|eauto].
  destruct (phase3_semanticFixes _ _ _). eauto.
Qed.

Lemma validate_returns (indentSize : nat) (content : string) :
  exists r, validate indentSize content = Normal r.
Proof.
  unfold validate. destruct (phase1_syntaxNormalization _ _) as [ls cs].
  destruct (phase2_parseValidation _) as [[valid errs] parsed]. eauto.
Qed.

(** When the parser throws, phase 2 turns the exception into one critical
    error with the one-based line and column. *)
Lemma phase2_catches (content : string) (e : YAMLException) (l c : Z) :
  loadAll content = Throw (ThrowYAML e) -> mark e = Some (l, c) ->
  phase2_parseValidation content
  = (false,
     [mkError (l + 1) (Some (c + 1)%Z) (message e) critical
        (Some "YAML_PARSE_ERROR") (Some false)],
     JUndefined).
Proof.
  intros Hload Hmark. unfold phase2_parseValidation. rewrite Hload. cbn.
  rewrite Hmark. reflexivity.
Qed.

End WithParser.

End ThreePhase.

Lemma fix_rewrites_block_scalar_line_witness :
  fst (YAMLFixer.phase1_syntaxNormalization 2 blockText) = Js.splitLines blockText /\
  option_map fr_content
    (match @YAMLFixer.fix_ blockParser 2 blockText false with
     | Normal r => Some r
     | Throw _ => None
     end)
  = Some (Js.joinLines ["data: |"; "  replicas: 3"]).
Proof.
  apply (@fix_rewrites_block_scalar_line blockParser
           [JObj [("data", JStr ("replicas: " ++ quoted "3" ++ Js.NL))]]).
  vm_compute. reflexivity.
Defined.

Lemma fix_aggressive_throws_witness :
  exists msg,
    @YAMLFixer.fix_ scalarMetadataParser 2 scalarMetadata true
    = Throw (ThrowTypeError msg).
Proof.
  apply (@fix_aggressive_throws scalarMetadataParser).
  vm_compute. reflexivity.
Defined.

Section SemanticBlockScalar.

Import Js Intelligent.

Context `{YamlLib}.

(** A run whose first iteration finds fixes and whose second finds none
    ends on the text after the first batch, whatever the parser says. *)
Lemma fix_two_iterations (options : FixerOptions) (yamlContent : string) :
  (2 <= maxIterations options)%nat ->
  validFixes options yamlContent <> [] ->
  validFixes options (nextText options yamlContent) = [] ->
  fixedYaml (fix_ options yamlContent) = nextText options yamlContent.
Proof.
  intros Hmax Hsome Hnone. unfold fix_.
  destruct (maxIterations options) as [|[|m]] eqn:Hm; try lia.
  cbn [loop]. rewrite Hm. cbn [iteration Nat.ltb Nat.leb currentYaml allFixes].
  fold (nextText options yamlContent).
  destruct (validFixes options yamlContent) as [|f fs] eqn:Hvalid; [congruence|].
  cbn [List.length Nat.eqb]. cbn [currentYaml iteration].
  destruct (load (nextText options yamlContent)).
  - destruct (finalErrors _). reflexivity.
  - rewrite Hnone. cbn [List.length Nat.eqb].
    destruct (finalErrors _). reflexivity.
Qed.

(** The semantic fixer on a block scalar that hangs under a key: the
    indicator line is classified as a key-value line, not as a block
    scalar, and the content is open to the passes. *)
Lemma intelligent_fix_rewrites_block_scalar_line :
  fixedYaml (fix_ defaultOptions (joinLines ["config: |"; "  metdata: x"]))
  = joinLines ["config: |"; "  metadata: x"].
Proof.
  rewrite fix_two_iterations; vm_compute; (reflexivity || lia || discriminate).
Qed.

End SemanticBlockScalar.

(** ** The scenarios of the specification, run on the embedding *)

Section Scenarios.

Import Js.

(** Scenario A: a space after every colon. *)
Example scenario_A :
  fst (YAMLFixer.phase1_syntaxNormalization 2
         (joinLines ["apiVersion:v1"; "kind:Pod"; "metadata:"; "  name:nginx"]))
  = ["apiVersion: v1"; "kind: Pod"; "metadata:"; "  name: nginx"].
Proof. vm_compute. reflexivity. Qed.

(** Scenario B: a parent key without colon gets it, with confidence at
    least 0.85. *)
Example scenario_B :
  List.map (fun f => (lineNumber f, fixed f, Qle_bool 0.85 (confidence f)))
    (Intelligent.validFixes Intelligent.defaultOptions
       (joinLines ["spec"; "  replicas: 3"]))
  = [(1%Z, "spec:", true)].
Proof. vm_compute. reflexivity. Qed.

(** Scenario C: a bare list item followed by [value:] becomes a named
    entry. *)
Example scenario_C :
  nextText Intelligent.defaultOptions
    (joinLines ["- DATABASE_URL"; "  value: " ++ quoted "x"])
  = joinLines ["- name: DATABASE_URL"; "  value: " ++ quoted "x"].
Proof. vm_compute. reflexivity. Qed.

(** Scenario D: of two consecutive [name: foo] lines under one parent the
    first is kept. *)
Example scenario_D :
  fst (YAMLFixer.phase1_syntaxNormalization 2
         (joinLines ["metadata:"; "  name: foo"; "  name: foo"]))
  = ["metadata:"; "  name: foo"].
Proof. vm_compute. reflexivity. Qed.

(** Scenario E: a quoted number in a numeric field loses its quotes. *)
Example scenario_E :
  fst (YAMLFixer.phase3_semanticFixes ["replicas: " ++ quoted "3"] JUndefined false)
  = ["replicas: 3"].
Proof. vm_compute. reflexivity. Qed.

(** Scenario F: a text that still does not parse comes back with one
    critical error carrying line and column. *)
Example scenario_F :
  @YAMLFixer.fix_ rejectAll 2 "key: [unclosed" false
  = Normal (mkFixResult "key: [unclosed" 0 []
              [mkError 1 (Some 1%Z) "rejected" critical
                 (Some "YAML_PARSE_ERROR") (Some false)]).
Proof. vm_compute. reflexivity. Qed.

End Scenarios.

(** ** The suggestions of the passes are single lines *)

Section SingleLineFixes.

Import Js Intelligent Scorer.

Lemma singleLine_app a b : singleLine (a ++ b) = singleLine a && singleLine b.
Proof.
  induction a as [|c a IH]; [reflexivity|].
  change (String c a ++ b) with (String c (a ++ b)). cbn [singleLine].
  rewrite IH. apply andb_assoc.
Qed.

Lemma singleLine_tail c s : singleLine (String c s) = true -> singleLine s = true.
Proof. cbn [singleLine]. intros [_ H]%andb_true_iff. exact H. Qed.

Lemma singleLine_trimStart s : singleLine s = true -> singleLine (trimStart s) = true.
Proof.
  induction s as [|c s IH]; [reflexivity|]. intros Hs. cbn [trimStart].
  destruct (isSpace c); [apply IH, (singleLine_tail c), Hs|exact Hs].
Qed.

Lemma singleLine_trimEnd s : singleLine s = true -> singleLine (trimEnd s) = true.
Proof.
  induction s as [|c s IH]; [reflexivity|]. cbn [singleLine trimEnd].
  intros [Hc Hs]%andb_true_iff.
  destruct (isSpace c && isEmpty (trimEnd s)); [reflexivity|].
  cbn [singleLine]. rewrite Hc, (IH Hs). reflexivity.
Qed.

Lemma singleLine_trim s : singleLine s = true -> singleLine (trim s) = true.
Proof. intros Hs. apply singleLine_trimStart, singleLine_trimEnd, Hs. Qed.

Lemma singleLine_substringFrom n s :
  singleLine s = true -> singleLine (substringFrom n s) = true.
Proof.
  revert s; induction n as [|n IH]; intros s Hs; [destruct s; exact Hs|].
  destruct s as [|c s]; [reflexivity|]. cbn [substringFrom].
  apply IH, (singleLine_tail c), Hs.
Qed.

Lemma singleLine_substringTo n s :
  singleLine s = true -> singleLine (substringTo n s) = true.
Proof.
  revert s; induction n as [|n IH]; intros s Hs; [destruct s; reflexivity|].
  destruct s as [|c s]; [reflexivity|]. cbn [substringTo singleLine] in *.
  apply andb_true_iff in Hs as [Hc Hs]. rewrite Hc, (IH s Hs). reflexivity.
Qed.

Lemma singleLine_slice a b s : singleLine s = true -> singleLine (slice a b s) = true.
Proof. intros Hs. apply singleLine_substringTo, singleLine_substringFrom, Hs. Qed.

Lemma singleLine_repeat s n : singleLine s = true -> singleLine (repeat s n) = true.
Proof.
  intros Hs. induction n as [|n IH]; [reflexivity|]. cbn [repeat].
  rewrite singleLine_app, Hs, IH. reflexivity.
Qed.

Lemma singleLine_join sep l :
  singleLine sep = true -> Forall (fun s => singleLine s = true) l ->
  singleLine (join sep l) = true.
Proof.
  intros Hsep Hl. induction Hl as [|x l Hx Hl IH]; [reflexivity|].
  destruct l as [|y l]; [exact Hx|].
  change (join sep (x :: y :: l)) with (x ++ sep ++ join sep (y :: l)).
  rewrite !singleLine_app, Hx, Hsep, IH. reflexivity.
Qed.

Lemma singleLine_splitWs_from s b :
  singleLine s = true -> Forall (fun p => singleLine p = true) (splitWs_from s b).
Proof.
  revert b; induction s as [|c s IH]; intros b Hs; [repeat constructor|].
  cbn [singleLine] in Hs. apply andb_true_iff in Hs as [Hc Hs]. cbn [splitWs_from].
  destruct (isSpace c).
  - destruct b; [apply IH, Hs|constructor; [reflexivity|apply IH, Hs]].
  - specialize (IH false Hs). destruct (splitWs_from s false) as [|h t].
    + repeat constructor. cbn [singleLine]. rewrite Hc. reflexivity.
    + inversion IH; subst. constructor; [|assumption].
      cbn [singleLine]. rewrite Hc. assumption.
Qed.

Lemma singleLine_hd l :
  Forall (fun p => singleLine p = true) l -> singleLine (List.hd "" l) = true.
Proof. destruct 1; [reflexivity|assumption]. Qed.

Lemma singleLine_tl l :
  Forall (fun p => singleLine p = true) l ->
  Forall (fun p => singleLine p = true) (List.tl l).
Proof. destruct 1; [constructor|assumption]. Qed.

Lemma singleLine_spaces n : singleLine (spaces n) = true.
Proof. apply singleLine_repeat. reflexivity. Qed.

Lemma singleLine_splitWs s :
  singleLine s = true -> Forall (fun p => singleLine p = true) (splitWs s).
Proof. apply singleLine_splitWs_from. Qed.

Create HintDb single.
#[local] Hint Resolve singleLine_trim singleLine_substringFrom singleLine_substringTo
  singleLine_slice singleLine_spaces singleLine_join singleLine_hd singleLine_tl
  singleLine_splitWs : single.

(** Closes [singleLine (a ++ b ++ ...) = true]. *)
Ltac single :=
  rewrite ?singleLine_app;
  repeat (apply andb_true_iff; split);
  try reflexivity; auto 6 with single.

Lemma extractKeyValue_ok trimmed :
  singleLine trimmed = true ->
  textOk (fst (Analyzer.extractKeyValue trimmed)) /\
  textOk (snd (Analyzer.extractKeyValue trimmed)).
Proof.
  intros Ht. unfold Analyzer.extractKeyValue.
  set (t := if startsWith trimmed "- " then _ else _).
  assert (Hok : singleLine t = true).
  { unfold t. destruct (startsWith trimmed "- "); auto with single. }
  destruct (negb _); cbn [fst snd textOk]; split; auto with single.
Qed.

Lemma analyzeLine_ok a n content :
  singleLine content = true -> lineOk (fst (Analyzer.analyzeLine a n content)).
Proof.
  intros Hc. unfold Analyzer.analyzeLine.
  destruct (extractKeyValue_ok (trim content)) as [Hk Hv]; [auto with single|].
  destruct (bool_decide _ || bool_decide _).
  - destruct (Analyzer.extractKeyValue (trim content)) as [key value].
    cbn [fst]. repeat split; assumption.
  - cbn [fst]. repeat split; assumption.
Qed.

Lemma parseLine_ok a acc n content :
  Forall lineOk acc -> singleLine content = true ->
  Forall lineOk (snd (SemanticParser.parseLine (a, acc) n content)).
Proof.
  intros Hacc Hc. unfold SemanticParser.parseLine.
  destruct (Analyzer.isInBlockScalar a).
  - cbn [snd]. apply Forall_app. split; [exact Hacc|].
    repeat constructor. exact Hc.
  - pose proof (analyzeLine_ok a n content Hc) as Hl.
    destruct (Analyzer.analyzeLine a n content) as [line a']. cbn [snd fst] in *.
    apply Forall_app. split; [exact Hacc|]. repeat constructor; apply Hl.
Qed.

Lemma parseLines_ok rawLines : forall st n,
  Forall lineOk (snd st) -> Forall (fun l => singleLine l = true) rawLines ->
  Forall lineOk (snd (SemanticParser.parseLines st n rawLines)).
Proof.
  induction rawLines as [|content rest IH]; intros st n Hst Hraw; [exact Hst|].
  inversion Hraw; subst. cbn [SemanticParser.parseLines]. apply IH; [|assumption].
  destruct st as [a acc]. apply parseLine_ok; assumption.
Qed.

Lemma linkParents_ok ls : forall stack,
  Forall lineOk ls -> Forall lineOk (SemanticParser.linkParents stack ls).
Proof.
  induction ls as [|line rest IH]; intros stack Hls; [constructor|].
  inversion Hls as [|? ? Hline Hrest]; subst. cbn [SemanticParser.linkParents].
  destruct (bool_decide _ || bool_decide _); constructor; auto.
Qed.

Lemma parse_ok yamlContent :
  Forall lineOk (SemanticParser.lines (SemanticParser.parse yamlContent)).
Proof.
  unfold SemanticParser.parse.
  pose proof (parseLines_ok (splitLines yamlContent) (Analyzer.init, []) 1
                ltac:(constructor) (splitLines_singleLine yamlContent)) as Hok.
  destruct (SemanticParser.parseLines _ _ _) as [a ls]. cbn [snd] in Hok.
  cbn [SemanticParser.lines]. unfold SemanticParser.buildRelationships.
  apply Forall_forall. intros l Hl. apply list_elem_of_In, in_map_iff in Hl.
  destruct Hl as [l0 [<- Hin]].
  pose proof (linkParents_ok ls [] Hok) as Hlinked.
  rewrite Forall_forall in Hlinked. apply list_elem_of_In, Hlinked in Hin.
  exact Hin.
Qed.

(** Splits the tests of a detection function and checks the text of the
    fix on every path that returns one. *)
Ltac paths Hf :=
  repeat (match type of Hf with
          | context [if ?b then _ else _] => destruct b
          | context [match ?o with Some _ => _ | None => _ end] => destruct o
          end);
  try discriminate Hf;
  injection Hf as <-; unfold fixOk; cbn [fixed]; single.

Lemma detectMissingColon_ok parser line f :
  lineOk line ->
  ContextAwareKeyFixer.detectMissingColon parser line = Some f -> fixOk f.
Proof.
  intros [Hc _] Hf. unfold ContextAwareKeyFixer.detectMissingColon in Hf.
  assert (Ht : singleLine (trim (sl_content line)) = true) by auto with single.
  destruct (startsWith (trim (sl_content line)) "- ").
  - unfold ContextAwareKeyFixer.detectMissingColonInListItem in Hf.
    assert (Hparts : Forall (fun p => singleLine p = true)
                       (splitWs (trim (substringFrom 2 (trim (sl_content line))))))
      by auto with single.
    paths Hf.
  - unfold ContextAwareKeyFixer.detectMissingColonInKey in Hf.
    assert (Hparts : Forall (fun p => singleLine p = true)
                       (splitWs (trim (sl_content line)))) by auto with single.
    paths Hf.
Qed.

Lemma closest_In target candidates maxDistance best m d :
  Fuzzy.closest target candidates maxDistance best = Some (m, d) ->
  In m candidates \/ best = Some (m, d).
Proof.
  revert best; induction candidates as [|c rest IH]; intros best Hc; [right; exact Hc|].
  cbn [Fuzzy.closest] in Hc. apply IH in Hc as [Hin|Hbest]; [left; right; exact Hin|].
  destruct (_ && _); [|right; exact Hbest].
  injection Hbest as -> _. left; left; reflexivity.
Qed.

Lemma findClosestMatch_In target candidates maxDistance m d :
  Fuzzy.findClosestMatch target candidates maxDistance = Some (m, d) ->
  In m candidates.
Proof.
  unfold Fuzzy.findClosestMatch.
  destruct (Fuzzy.closest target candidates maxDistance None) as [[m' d']|] eqn:Hc;
    [|discriminate].
  destruct (isEmpty m'); [discriminate|]. intros [= -> ->].
  apply closest_In in Hc as [Hin|Hnone]; [exact Hin|discriminate].
Qed.

Lemma known_fields_single p :
  In p Knowledge.KNOWN_FIELDS -> singleLine p = true.
Proof.
  assert (H : List.forallb singleLine Knowledge.KNOWN_FIELDS = true)
    by (vm_compute; reflexivity).
  rewrite List.forallb_forall in H. apply H.
Qed.

Lemma canonical_single fieldName canonical :
  Knowledge.getCanonicalFieldName fieldName = Some canonical ->
  singleLine canonical = true.
Proof.
  unfold Knowledge.getCanonicalFieldName.
  destruct (List.find _ Knowledge.FIELD_ALIASES) as [[c aliases]|] eqn:Hfind;
    [|discriminate].
  intros [= <-]. apply List.find_some in Hfind as [Hin _].
  assert (H : List.forallb (fun e => singleLine (fst e)) Knowledge.FIELD_ALIASES = true)
    by (vm_compute; reflexivity).
  rewrite List.forallb_forall in H. apply (H _ Hin).
Qed.

Lemma createTypoFix_ok line correctField confidence reason :
  lineOk line -> singleLine correctField = true ->
  fixOk (FieldNormalizer.createTypoFix line correctField confidence reason).
Proof.
  intros (Hc & Hk & Hv) Hfield. unfold fixOk, FieldNormalizer.createTypoFix.
  cbn [fixed]. destruct (sl_value line) as [v|]; cbn [textOk truthy default] in *;
    destruct (sl_isListItem line), (sl_hasColon line);
    try destruct (negb (isEmpty v)); single.
Qed.

Lemma detectTypo_ok parser line f :
  lineOk line -> FieldNormalizer.detectTypo parser line = Some f -> fixOk f.
Proof.
  intros Hline Hf. unfold FieldNormalizer.detectTypo in Hf.
  destruct (Knowledge.isKnownField _); [discriminate|].
  destruct (Knowledge.getCanonicalFieldName _) as [canonical|] eqn:Hcanon.
  - destruct (isEmpty canonical); [discriminate|]. injection Hf as <-.
    apply createTypoFix_ok; [exact Hline|eapply canonical_single, Hcanon].
  - destruct (Fuzzy.findClosestMatch _ _ _) as [[m d]|] eqn:Hclosest; [|discriminate].
    apply findClosestMatch_In in Hclosest.
    unfold FieldNormalizer.knownFieldsArray in Hclosest.
    pose proof (known_fields_single m Hclosest) as Hm.
    destruct (FieldNormalizer.isContextAppropriate parser m); injection Hf as <-;
      apply createTypoFix_ok; assumption.
Qed.

Lemma restructure_ok line what confidence :
  lineOk line ->
  fixOk (ListStructureFixer.restructure line (trim (sl_content line)) what confidence).
Proof.
  intros [Hc _]. unfold fixOk, ListStructureFixer.restructure. cbn [fixed]. single.
Qed.

Lemma listFixes_ok parser line f :
  lineOk line ->
  In f (optionList (ListStructureFixer.fixBrokenEnvVar parser line)
        ++ optionList (ListStructureFixer.fixBrokenContainer parser line)
        ++ optionList (ListStructureFixer.fixBrokenVolumeMount parser line))%list ->
  fixOk f.
Proof.
  intros Hline Hin. rewrite !in_app_iff in Hin.
  unfold ListStructureFixer.fixBrokenEnvVar, ListStructureFixer.fixBrokenContainer,
    ListStructureFixer.fixBrokenVolumeMount in Hin.
  destruct Hin as [Hin|[Hin|Hin]];
    repeat (match type of Hin with
            | context [if ?b then _ else _] => destruct b
            | context [match ?o with Some _ => _ | None => _ end] => destruct o
            end);
    cbn [optionList In] in Hin; try contradiction;
    destruct Hin as [<-|[]]; apply restructure_ok, Hline.
Qed.

Lemma detectTypeMismatch_ok line f :
  lineOk line -> TypeCoercer.detectTypeMismatch line = Some f -> fixOk f.
Proof.
  intros (Hc & Hk & Hv) Hf. unfold TypeCoercer.detectTypeMismatch in Hf.
  destruct (sl_key line) as [key|]; [|discriminate].
  destruct (sl_value line) as [value|]; [|discriminate]. cbn [textOk] in Hk, Hv.
  destruct (negb _); [discriminate|].
  set (coerced := match Knowledge.getExpectedType key None with
                  | Some _ => _ | None => _ end) in Hf.
  assert (Hco : singleLine coerced = true).
  { unfold coerced, TypeCoercer.unquoteNumber, TypeRegistry.coerceToType.
    destruct (Knowledge.getExpectedType key None) as [[| | | | |]|]; try exact Hv.
    - destruct (_ && _ && _); [auto with single|].
      destruct (Inherited.lookup Knowledge.wordToNumber _) as [v|] eqn:Hlook;
        [|exact Hv].
      destruct (isEmpty v); [exact Hv|].
      unfold Inherited.lookup, Knowledge.assoc in Hlook.
      assert (Htab : forall tab, List.forallb (fun e => singleLine (snd e)) tab = true ->
                forall k w, option_map snd (List.find (fun kv => String.eqb (fst kv) k) tab)
                            = Some w -> singleLine w = true).
      { intros tab Htab k w Hw.
        destruct (List.find _ tab) as [kv|] eqn:Hfind; [|discriminate].
        injection Hw as <-. apply List.find_some in Hfind as [Hin _].
        rewrite List.forallb_forall in Htab. apply (Htab _ Hin). }
      destruct (option_map snd (List.find _ Knowledge.wordToNumber)) as [w|] eqn:Hw.
      + injection Hlook as <-. eapply Htab; [|exact Hw]. vm_compute; reflexivity.
      + eapply Htab; [|exact Hlook]. vm_compute; reflexivity.
    - destruct (_ || _); [reflexivity|]. destruct (_ || _); [reflexivity|exact Hv]. }
  destruct (String.eqb coerced value); [discriminate|].
  injection Hf as <-. unfold fixOk. cbn [fixed]. single.
Qed.

Lemma flat_map_ok {A : Type} (P : A -> Prop) (g : A -> list FixSuggestion) l :
  Forall P l -> (forall a f, P a -> In f (g a) -> fixOk f) ->
  Forall fixOk (List.flat_map g l).
Proof.
  intros Hl Hg. apply Forall_forall. intros f Hf.
  apply list_elem_of_In, in_flat_map in Hf as [a [Ha Hf]].
  rewrite Forall_forall in Hl. apply list_elem_of_In, Hl in Ha. eapply Hg; eassumption.
Qed.

(** No pass proposes a replacement text that holds a line break. *)
Lemma candidates_ok yamlContent : Forall fixOk (candidates yamlContent).
Proof.
  unfold candidates, SemanticParser.getLines.
  pose proof (parse_ok yamlContent) as Hlines.
  repeat apply Forall_app_2; apply (flat_map_ok lineOk); try exact Hlines;
    intros line f Hline Hf.
  - destruct (ContextAwareKeyFixer.skips line); [destruct Hf|].
    destruct (ContextAwareKeyFixer.detectMissingColon _ line) as [g|] eqn:Hg;
      [|destruct Hf].
    destruct Hf as [<-|[]]. eapply detectMissingColon_ok; eassumption.
  - destruct (FieldNormalizer.skips line); [destruct Hf|].
    destruct (FieldNormalizer.detectTypo _ line) as [g|] eqn:Hg; [|destruct Hf].
    destruct Hf as [<-|[]]. eapply detectTypo_ok; eassumption.
  - destruct (negb (sl_isListItem line)); [destruct Hf|].
    eapply listFixes_ok; eassumption.
  - destruct (TypeCoercer.detectTypeMismatch line) as [g|] eqn:Hg; [|destruct Hf].
    destruct Hf as [<-|[]]. eapply detectTypeMismatch_ok; eassumption.
Qed.

Lemma validFixes_ok options yamlContent :
  Forall fixOk (validFixes options yamlContent).
Proof.
  rewrite validFixes_filter. unfold filterByConfidence.
  apply Forall_forall. intros f Hf.
  apply list_elem_of_In, List.filter_In in Hf as [Hf _].
  pose proof (candidates_ok yamlContent) as Hall. rewrite Forall_forall in Hall.
  apply Hall, list_elem_of_In, Hf.
Qed.

(** The batches the loop of [fix] applies are made of single-line fixes,
    so an iteration never changes the number of lines of the document. *)
Lemma nextText_line_count options t :
  List.length (splitLines (nextText options t)) = List.length (splitLines t).
Proof.
  unfold nextText. rewrite splitLines_applyFixes; [apply length_imap|].
  intros f Hf _. pose proof (validFixes_ok options t) as Hall.
  rewrite Forall_forall in Hall. apply Hall, list_elem_of_In, Hf.
Qed.

Lemma textAt_line_count options yamlContent k :
  List.length (splitLines (textAt options yamlContent k))
  = List.length (splitLines yamlContent).
Proof.
  induction k as [|k IH]; [reflexivity|].
  change (textAt options yamlContent (S k))
    with (nextText options (textAt options yamlContent k)).
  rewrite nextText_line_count. exact IH.
Qed.

End SingleLineFixes.

(* ================================================================== *)
(** * Further properties of the code *)
(* ================================================================== *)

(** ** fixers/utils/fuzzy-matcher.ts *)

Section FuzzyFacts.

Import Js Fuzzy.

Lemma editDistance_cons c1 ra c2 rb :
  editDistance (c1 :: ra) (c2 :: rb)
  = Nat.min (Nat.min (editDistance ra (c2 :: rb) + 1) (editDistance (c1 :: ra) rb + 1))
            (editDistance ra rb + if Ascii.eqb c1 c2 then 0 else 1).
Proof. reflexivity. Qed.

Lemma editDistance_nil_r ra : editDistance ra [] = List.length ra.
Proof. destruct ra; reflexivity. Qed.

Lemma fillRow_rowFrom c1 ra s2 : forall rb,
  fillRow c1 s2 (editDistance ra rb) (rowFrom ra rb s2) (editDistance (c1 :: ra) rb)
  = rowFrom (c1 :: ra) rb s2.
Proof.
  induction s2 as [|c2 r2 IH]; intros rb; [reflexivity|].
  cbn [rowFrom fillRow]. rewrite <- editDistance_cons. f_equal. apply IH.
Qed.

Lemma nextRow_rowFrom c1 ra s2 :
  nextRow (S (List.length ra)) c1 s2 (editDistance ra [] :: rowFrom ra [] s2)
  = editDistance (c1 :: ra) [] :: rowFrom (c1 :: ra) [] s2.
Proof.
  unfold nextRow. rewrite <- fillRow_rowFrom. reflexivity.
Qed.

Lemma rows_rowFrom s1 s2 : forall ra,
  rows s1 (S (List.length ra)) s2 (editDistance ra [] :: rowFrom ra [] s2)
  = editDistance (reversed s1 ++ ra) [] :: rowFrom (reversed s1 ++ ra) [] s2.
Proof.
  induction s1 as [|c1 r1 IH]; intros ra; [reflexivity|].
  cbn [rows]. rewrite nextRow_rowFrom.
  change (S (S (List.length ra))) with (S (List.length (c1 :: ra))).
  rewrite IH. unfold reversed. cbn [list_ascii_of_string List.rev].
  rewrite <- List.app_assoc. reflexivity.
Qed.

Lemma last_cons {A : Type} (l : list A) : forall x d,
  List.last (x :: l) d = List.last l x.
Proof.
  induction l as [|y l IH]; intros x d; [reflexivity|].
  change (List.last (x :: y :: l) d) with (List.last (y :: l) d).
  rewrite !IH. reflexivity.
Qed.

Lemma rowFrom_last ra s2 : forall rb,
  List.last (rowFrom ra rb s2) (editDistance ra rb)
  = editDistance ra (reversed s2 ++ rb).
Proof.
  induction s2 as [|c r IH]; intros rb; [reflexivity|].
  cbn [rowFrom]. unfold reversed. cbn [list_ascii_of_string List.rev].
  rewrite <- List.app_assoc. cbn [List.app]. rewrite <- IH. apply last_cons.
Qed.

Lemma seq_rowFrom s2 : forall rb,
  List.seq (S (List.length rb)) (String.length s2) = rowFrom [] rb s2.
Proof.
  induction s2 as [|c r IH]; intros rb; [reflexivity|].
  cbn [String.length List.seq rowFrom editDistance List.length]. f_equal.
  apply (IH (c :: rb)).
Qed.

(** The matrix computes the edit distance. *)
Lemma levenshteinDistance_editDistance str1 str2 :
  levenshteinDistance str1 str2 = editDistance (reversed str1) (reversed str2).
Proof.
  unfold levenshteinDistance.
  change (List.seq 0 (S (String.length str2)))
    with (editDistance [] [] :: List.seq (S (@List.length ascii [])) (String.length str2)).
  rewrite (seq_rowFrom str2 []).
  change 1%nat with (S (@List.length ascii [])).
  rewrite (rows_rowFrom str1 str2 []). rewrite List.app_nil_r.
  pose proof (rowFrom_last (reversed str1) str2 []) as Hlast.
  rewrite List.app_nil_r in Hlast. rewrite <- Hlast. apply last_cons.
Qed.

Lemma editDistance_sym ra : forall rb, editDistance ra rb = editDistance rb ra.
Proof.
  induction ra as [|c1 ra IHa]; intros rb.
  - symmetry. apply editDistance_nil_r.
  - induction rb as [|c2 rb IHb]; [reflexivity|].
    rewrite !editDistance_cons, IHb, (IHa (c2 :: rb)), (IHa rb).
    rewrite (Ascii.eqb_sym c1 c2). lia.
Qed.

Lemma editDistance_refl ra : editDistance ra ra = 0%nat.
Proof.
  induction ra as [|c ra IH]; [reflexivity|].
  rewrite editDistance_cons, IH, Ascii.eqb_refl. lia.
Qed.

Lemma editDistance_zero ra : forall rb, editDistance ra rb = 0%nat -> ra = rb.
Proof.
  induction ra as [|c1 ra IHa]; intros rb.
  - destruct rb; [reflexivity|discriminate].
  - induction rb as [|c2 rb IHb]; [discriminate|].
    rewrite editDistance_cons. intros H.
    destruct (Ascii.eqb_spec c1 c2) as [->|Hne].
    + f_equal. apply IHa. lia.
    + lia.
Qed.

Lemma editDistance_bounds ra : forall rb,
  (List.length ra - List.length rb <= editDistance ra rb
   /\ List.length rb - List.length ra <= editDistance ra rb
   /\ editDistance ra rb <= Nat.max (List.length ra) (List.length rb))%nat.
Proof.
  induction ra as [|c1 ra IHa]; intros rb.
  - cbn [editDistance List.length]. lia.
  - induction rb as [|c2 rb IHb]; [cbn [editDistance List.length]; lia|].
    rewrite editDistance_cons.
    pose proof (IHa (c2 :: rb)) as H1. pose proof (IHa rb) as H2.
    cbn [List.length] in *. destruct (Ascii.eqb c1 c2); lia.
Qed.

Lemma reversed_length s : List.length (reversed s) = String.length s.
Proof.
  unfold reversed. rewrite List.length_rev.
  induction s as [|c s IH]; [reflexivity|]. cbn. rewrite IH. reflexivity.
Qed.

Lemma reversed_inj a b : reversed a = reversed b -> a = b.
Proof.
  unfold reversed. intros H.
  apply (f_equal (@List.rev ascii)) in H. rewrite !List.rev_involutive in H.
  rewrite <- (string_of_list_ascii_of_string a), <- (string_of_list_ascii_of_string b).
  rewrite H. reflexivity.
Qed.

(** X1.  [levenshteinDistance] on an empty text: the distance between the
    empty text and a text is the length of that text, on either side. *)
Theorem levenshteinDistance_empty (s : string) :
  levenshteinDistance "" s = String.length s /\
  levenshteinDistance s "" = String.length s.
Proof.
  rewrite !levenshteinDistance_editDistance. split.
  - cbn [reversed list_ascii_of_string List.rev editDistance]. apply reversed_length.
  - rewrite editDistance_nil_r. apply reversed_length.
Qed.

(** X2.  [levenshteinDistance] is 0 exactly when the two texts are the
    same. *)
Theorem levenshteinDistance_zero_iff (str1 str2 : string) :
  levenshteinDistance str1 str2 = 0%nat <-> str1 = str2.
Proof.
  rewrite levenshteinDistance_editDistance. split.
  - intros H. apply reversed_inj, editDistance_zero, H.
  - intros ->. apply editDistance_refl.
Qed.

(** X3.  [levenshteinDistance] does not depend on the order of its two
    arguments. *)
Theorem levenshteinDistance_sym (str1 str2 : string) :
  levenshteinDistance str1 str2 = levenshteinDistance str2 str1.
Proof. rewrite !levenshteinDistance_editDistance. apply editDistance_sym. Qed.

(** X4.  [levenshteinDistance] is at least the difference of the two
    lengths and at most the greater length. *)
Theorem levenshteinDistance_bounds (str1 str2 : string) :
  (String.length str1 - String.length str2 <= levenshteinDistance str1 str2
   /\ String.length str2 - String.length str1 <= levenshteinDistance str1 str2
   /\ levenshteinDistance str1 str2
      <= Nat.max (String.length str1) (String.length str2))%nat.
Proof.
  rewrite levenshteinDistance_editDistance, <- !reversed_length.
  apply editDistance_bounds.
Qed.

Lemma closest_inv target maxDistance rest : forall seen best,
  closestInv target maxDistance seen best ->
  closestInv target maxDistance (seen ++ rest)
    (closest target rest maxDistance best).
Proof.
  induction rest as [|c rest IH]; intros seen best Hinv.
  - rewrite List.app_nil_r. exact Hinv.
  - cbn [closest]. fold (distanceTo target c).
    replace (seen ++ c :: rest)%list with ((seen ++ [c]) ++ rest)%list
      by (rewrite <- List.app_assoc; reflexivity).
    apply IH. destruct best as [[m d]|]; cbn [closestInv] in *.
    + destruct Hinv as (Hin & Hd & Hle & Hmin).
      destruct (Nat.leb_spec (distanceTo target c) maxDistance) as [Hc|Hc];
        destruct (Nat.ltb_spec (distanceTo target c) d) as [Hlt|Hge]; cbn [andb].
      * repeat split; [apply in_or_app; right; left; reflexivity|exact Hc|].
        intros c' [Hc'|[<-|[]]]%in_app_or; [specialize (Hmin c' Hc'); lia|lia].
      * repeat split; [apply in_or_app; left; exact Hin|exact Hd|exact Hle|].
        intros c' [Hc'|[<-|[]]]%in_app_or; [exact (Hmin c' Hc')|lia].
      * repeat split; [apply in_or_app; left; exact Hin|exact Hd|exact Hle|].
        intros c' [Hc'|[<-|[]]]%in_app_or; [exact (Hmin c' Hc')|lia].
      * repeat split; [apply in_or_app; left; exact Hin|exact Hd|exact Hle|].
        intros c' [Hc'|[<-|[]]]%in_app_or; [exact (Hmin c' Hc')|lia].
    + destruct (Nat.leb_spec (distanceTo target c) maxDistance) as [Hc|Hc]; cbn [andb].
      * repeat split; [apply in_or_app; right; left; reflexivity|exact Hc|].
        intros c' [Hc'|[<-|[]]]%in_app_or; [specialize (Hinv c' Hc'); lia|lia].
      * intros c' [Hc'|[<-|[]]]%in_app_or; [exact (Hinv c' Hc')|lia].
Qed.

Lemma closest_all target candidates maxDistance :
  closestInv target maxDistance candidates
    (closest target candidates maxDistance None).
Proof. apply (closest_inv target maxDistance candidates [] None). intros c []. Qed.

(** X5.  What [findClosestMatch] returns is one of the candidates, with
    its distance to the target (both lower-cased); the distance is within
    the cutoff and no candidate is nearer. *)
Theorem findClosestMatch_sound (target : string) (candidates : list string)
    (maxDistance : nat) (m : string) (d : nat) :
  findClosestMatch target candidates maxDistance = Some (m, d) ->
  In m candidates /\ d = distanceTo target m /\ (d <= maxDistance)%nat /\
  forall c, In c candidates -> (d <= distanceTo target c)%nat.
Proof.
  unfold findClosestMatch. pose proof (closest_all target candidates maxDistance) as H.
  destruct (closest target candidates maxDistance None) as [[m' d']|]; [|discriminate].
  destruct (isEmpty m'); [discriminate|]. intros [= <- <-]. exact H.
Qed.

(** X6.  When no candidate is the empty text, [findClosestMatch] returns
    null exactly when every candidate is farther from the target than the
    cutoff. *)
Theorem findClosestMatch_none_iff (target : string) (candidates : list string)
    (maxDistance : nat) :
  ~ In "" candidates ->
  (findClosestMatch target candidates maxDistance = None <->
   forall c, In c candidates -> (maxDistance < distanceTo target c)%nat).
Proof.
  intros Hne. unfold findClosestMatch.
  pose proof (closest_all target candidates maxDistance) as H.
  destruct (closest target candidates maxDistance None) as [[m d]|];
    cbn [closestInv] in H.
  - destruct H as (Hin & Hd & Hle & Hmin).
    destruct m as [|a m]; [destruct (Hne Hin)|]. cbn [isEmpty]. split; [discriminate|].
    intros Hall. specialize (Hall _ Hin). lia.
  - split; [intros _; exact H|reflexivity].
Qed.

(** An empty candidate that is the nearest one is dropped by the final
    test [closestMatch ? ... : null], whatever its distance. *)
Lemma findClosestMatch_empty_candidate target maxDistance :
  findClosestMatch target [""] maxDistance = None.
Proof.
  unfold findClosestMatch. cbn [closest]. destruct (_ && _); reflexivity.
Qed.

(** X7.  [calculateFuzzyConfidence] is a number between 0 and 1, for every
    distance and target length. *)
Theorem calculateFuzzyConfidence_range (distance targetLength : nat) :
  (0 <= calculateFuzzyConfidence distance targetLength
   /\ calculateFuzzyConfidence distance targetLength <= 1)%Q.
Proof.
  unfold calculateFuzzyConfidence.
  destruct distance as [|[|[|d]]];
    [split; vm_compute; discriminate|split; vm_compute; discriminate
    |split; vm_compute; discriminate|].
  destruct (targetLength =? 0)%nat eqn:Hlen; [split; vm_compute; discriminate|].
  apply Nat.eqb_neq in Hlen. split; [apply Q.le_max_l|].
  apply Q.max_lub; [discriminate|].
  set (q := (inject_Z (Z.of_nat (S (S (S d)))) / inject_Z (Z.of_nat targetLength))%Q).
  assert (Hq : (0 <= q)%Q).
  { unfold q, Qdiv. apply Qmult_le_0_compat.
    - change 0%Q with (inject_Z 0). rewrite <- Zle_Qle. lia.
    - apply Qinv_le_0_compat. change 0%Q with (inject_Z 0). rewrite <- Zle_Qle. lia. }
  unfold Double.sub, Double.div. fold q.
  apply round_le_double; [|apply round_1].
  pose proof (round_nonneg q Hq). lra.
Qed.

(** X8.  [areSimilar] is symmetric, holds between a text and itself for
    every cutoff, and with cutoff 0 holds only between equal texts. *)
Theorem areSimilar_facts (str1 str2 : string) (maxDistance : nat) :
  areSimilar str1 str2 maxDistance = areSimilar str2 str1 maxDistance /\
  areSimilar str1 str1 maxDistance = true /\
  (areSimilar str1 str2 0 = true <-> str1 = str2).
Proof.
  unfold areSimilar. rewrite !levenshteinDistance_editDistance.
  split; [rewrite editDistance_sym; reflexivity|]. split.
  - rewrite editDistance_refl. reflexivity.
  - rewrite Nat.leb_le. split.
    + intros H. apply reversed_inj, editDistance_zero. lia.
    + intros ->. rewrite editDistance_refl. lia.
Qed.

End FuzzyFacts.

Lemma findClosestMatch_sound_witness :
  In "metadata" ["spec"; "metadata"; "data"] /\
  1%nat = distanceTo "metdata" "metadata" /\ (1 <= 2)%nat /\
  forall c, In c ["spec"; "metadata"; "data"] -> (1 <= distanceTo "metdata" c)%nat.
Proof.
  apply (findClosestMatch_sound "metdata" ["spec"; "metadata"; "data"] 2 "metadata" 1).
  vm_compute. reflexivity.
Defined.

Lemma findClosestMatch_none_iff_witness :
  Fuzzy.findClosestMatch "replicas" ["spec"; "metadata"] 2 = None <->
  forall c, In c ["spec"; "metadata"] -> (2 < distanceTo "replicas" c)%nat.
Proof.
  apply (findClosestMatch_none_iff "replicas" ["spec"; "metadata"] 2).
  intros [H|[H|[]]]; discriminate H.
Defined.

(** ** Sorting with a comparator *)

Section SortFacts.

Context {A : Type} (cmp : A -> A -> Z) (le : A -> A -> Prop).
Hypothesis le_trans : forall a b c, le a b -> le b c -> le a c.
Hypothesis cmp_after : forall x y, (0 < cmp x y)%Z -> le y x.
Hypothesis cmp_before : forall x y, ~ (0 < cmp x y)%Z -> le x y.






End SortFacts.

(** ** confidence/scorer.ts *)

Section ScorerMoreFacts.

Import Scorer.
Local Open Scope Q_scope.







(** One clamped bonus on a double of at most 1. *)
Lemma bonus_step a k :
  Double.round a == a -> a <= 1 -> 0 <= k ->
  a <= Qmin (Double.add a (Double.lit k)) 1.0 /\
  Qmin (Double.add a (Double.lit k)) 1.0 <= 1 /\
  Double.round (Qmin (Double.add a (Double.lit k)) 1.0)
  == Qmin (Double.add a (Double.lit k)) 1.0.
Proof.
  intros Hdouble Ha Hk. unfold Double.add, Double.lit.
  pose proof (round_nonneg k Hk) as Hrk.
  assert (Hsum : a <= Double.round (a + Double.round k))
    by (apply round_ge_double; [lra|exact Hdouble]).
  pose proof (round_idem (a + Double.round k)) as Hidem.
  assert (Hone : Double.round 1.0 == 1.0) by (vm_compute; reflexivity).
  destruct (Q.min_spec (Double.round (a + Double.round k)) 1.0) as [[Hlt Hmin]|[Hle Hmin]].
  - split; [lra|]. split; [lra|].
    rewrite (round_eq _ _ Hmin), Hmin. exact Hidem.
  - split; [lra|]. split; [lra|].
    rewrite (round_eq _ _ Hmin), Hmin. exact Hone.
Qed.

(** X11.  [adjustConfidenceByContext] never lowers a confidence that is at
    most 1 and never pushes it above 1: with the sums rounded as the code
    rounds them, the result is at least the base confidence (the double it
    denotes) and at most 1. *)
Theorem adjustConfidenceByContext_bounds (baseConfidence : Q)
    (context : ConfidenceContext) :
  baseConfidence <= 1 ->
  Double.lit baseConfidence <= adjustConfidenceByContext baseConfidence context /\
  adjustConfidenceByContext baseConfidence context <= 1.
Proof.
  intros Hbase. unfold adjustConfidenceByContext.
  set (a0 := Double.lit baseConfidence).
  assert (H0 : a0 <= 1 /\ Double.round a0 == a0).
  { split; [apply round_le_double; [exact Hbase|apply round_1]|apply round_idem]. }
  set (a1 := if hasKnownParent context then _ else _).
  assert (H1 : a0 <= a1 /\ a1 <= 1 /\ Double.round a1 == a1).
  { unfold a1. destruct (hasKnownParent context); [|split; [lra|exact H0]].
    apply bonus_step; [apply H0|apply H0|discriminate]. }
  set (a2 := if hasSimilarSiblings context then _ else _).
  assert (H2 : a1 <= a2 /\ a2 <= 1 /\ Double.round a2 == a2).
  { unfold a2. destruct (hasSimilarSiblings context); [|split; [lra|apply H1]].
    apply bonus_step; [apply H1|apply H1|discriminate]. }
  set (a3 := if isTopLevel context then _ else _).
  assert (H3 : a2 <= a3 /\ a3 <= 1 /\ Double.round a3 == a3).
  { unfold a3. destruct (isTopLevel context); [|split; [lra|apply H2]].
    apply bonus_step; [apply H2|apply H2|discriminate]. }
  set (a4 := if matchesSchema context then _ else _).
  assert (H4 : a3 <= a4 /\ a4 <= 1 /\ Double.round a4 == a4).
  { unfold a4. destruct (matchesSchema context); [|split; [lra|apply H3]].
    apply bonus_step; [apply H3|apply H3|discriminate]. }
  lra.
Qed.

(** The boosted confidences of a typo fix: the edit distances 0, 1 and 2
    give 1.0, 0.9 and 0.7, and [0.7 + 0.1] rounds to 0.7999999999999999,
    the double just below 0.8. *)
Lemma boost_values :
  FieldNormalizer.boost 1.0 == 1 /\ FieldNormalizer.boost 0.9 == 1 /\
  FieldNormalizer.boost 0.7 == 7205759403792793 # 9007199254740992.
Proof. repeat split; vm_compute; reflexivity. Qed.

(** The sum the code rounds down: 0.7 with the bonus 0.1 for similar
    siblings is 0.7999999999999999, the double just below 0.8. *)
Lemma adjustConfidenceByContext_rounds :
  adjustConfidenceByContext 0.7 (mkConfidenceContext false true false false)
  == 7205759403792793 # 9007199254740992.
Proof. vm_compute. reflexivity. Qed.

End ScorerMoreFacts.

Lemma adjustConfidenceByContext_bounds_witness :
  (Double.lit 0.9 <= Scorer.adjustConfidenceByContext 0.9
                       (Scorer.mkConfidenceContext true true false false) /\
   Scorer.adjustConfidenceByContext 0.9
     (Scorer.mkConfidenceContext true true false false) <= 1)%Q.
Proof.
  apply (adjustConfidenceByContext_bounds 0.9
           (Scorer.mkConfidenceContext true true false false)).
  vm_compute. discriminate.
Defined.

(** ** semantic/indentation-tracker.ts *)

Section TrackerMoreFacts.

Import Js Tracker.

(** X12.  The indent [calculateCorrectIndent] proposes, for a child or for
    a sibling, passes [isValidIndent] in the same tracker state; the child
    indent is the one [getExpectedChildIndent] gives. *)
Theorem calculateCorrectIndent_valid (tr : Tracker.t) (isChild : bool)
    (indentSize : nat) :
  isValidIndent tr (calculateCorrectIndent tr isChild indentSize) indentSize = true /\
  calculateCorrectIndent tr true indentSize = getExpectedChildIndent tr indentSize.
Proof.
  unfold isValidIndent, calculateCorrectIndent, getExpectedChildIndent.
  destruct (indentStack tr) as [|top rest]; [split; reflexivity|].
  split; [|reflexivity]. destruct isChild; rewrite Nat.eqb_refl;
    [reflexivity|apply orb_true_r].
Qed.

Lemma popWhile_split indent stack :
  exists popped,
    stack = (popped ++ popWhile indent stack)%list /\
    Forall (fun lv => (indent <= lv_indent lv)%nat) popped /\
    match popWhile indent stack with
    | top :: _ => (lv_indent top < indent)%nat
    | [] => True
    end.
Proof.
  induction stack as [|top rest IH]; [exists []; repeat split; constructor|].
  cbn [popWhile]. destruct (Nat.leb_spec indent (lv_indent top)) as [Hle|Hlt].
  - destruct IH as (popped & Heq & Hall & Htop). exists (top :: popped).
    split; [cbn; f_equal; exact Heq|]. split; [constructor; assumption|exact Htop].
  - exists []. repeat split; [constructor|exact Hlt].
Qed.

(** X13.  [processLine] on a line that is not a document separator only
    pops: the levels it keeps are the bottom of the old stack, every level
    it drops has an indent at least that of the line, the level left on
    top (if any) has a smaller indent, and the current indent is that of
    the line. *)
Theorem processLine_pops (tr : Tracker.t) (lineNumber : nat) (content : string)
    (indent : nat) :
  trim content <> "---" ->
  let tr' := processLine tr lineNumber content indent in
  (exists popped,
     getStack tr = (getStack tr' ++ popped)%list /\
     Forall (fun lv => (indent <= lv_indent lv)%nat) popped) /\
  match List.last (getStack tr') (mkLevel 0 "" object 0) with
  | top => getStack tr' = [] \/ (lv_indent top < indent)%nat
  end /\
  getCurrentIndent tr' = indent.
Proof.
  intros Hsep. cbn zeta. unfold processLine.
  destruct (String.eqb_spec (trim content) "---") as [Heq|_]; [destruct (Hsep Heq)|].
  unfold getStack, getCurrentIndent. cbn [indentStack currentIndent].
  destruct (popWhile_split indent (indentStack tr)) as (popped & Heq & Hall & Htop).
  split; [|split; [|reflexivity]].
  - exists (List.rev popped). split.
    + rewrite Heq at 1. apply List.rev_app_distr.
    + apply Forall_forall. intros lv Hin.
      rewrite Forall_forall in Hall. apply Hall.
      apply list_elem_of_In. apply list_elem_of_In, List.in_rev in Hin. exact Hin.
  - destruct (popWhile indent (indentStack tr)) as [|top rest]; [left; reflexivity|].
    right. cbn [List.rev]. rewrite List.last_last. exact Htop.
Qed.

End TrackerMoreFacts.

Lemma processLine_pops_witness :
  let tr := Tracker.mk [mkLevel 4 "b" object 2; mkLevel 0 "a" object 1] 4 in
  let tr' := Tracker.processLine tr 3 "  c: d" 2 in
  (exists popped,
     Tracker.getStack tr = (Tracker.getStack tr' ++ popped)%list /\
     Forall (fun lv => (2 <= lv_indent lv)%nat) popped) /\
  match List.last (Tracker.getStack tr') (mkLevel 0 "" object 0) with
  | top => Tracker.getStack tr' = [] \/ (lv_indent top < 2)%nat
  end /\
  Tracker.getCurrentIndent tr' = 2%nat.
Proof.
  apply (processLine_pops
           (Tracker.mk [mkLevel 4 "b" object 2; mkLevel 0 "a" object 1] 4)
           3 "  c: d" 2).
  vm_compute. discriminate.
Defined.

(** ** semantic/semantic-parser.ts and semantic/context-analyzer.ts *)

Section ParserFacts.

Import Js SemanticParser.

Lemma analyzeLine_fst a n content :
  fst (Analyzer.analyzeLine a n content) = analysed n content.
Proof.
  unfold analysed, Analyzer.analyzeLine.
  destruct (if _ || _ then Analyzer.extractKeyValue (trim content) else _)
    as [key value]. reflexivity.
Qed.

Lemma parseLine_snd a acc n content :
  exists l, snd (parseLine (a, acc) n content) = (acc ++ [l])%list /\
            (l = analysed n content \/ l = blockLine n content).
Proof.
  unfold parseLine. destruct (Analyzer.isInBlockScalar a).
  - eexists. split; [reflexivity|]. right. reflexivity.
  - pose proof (analyzeLine_fst a n content) as Hl.
    destruct (Analyzer.analyzeLine a n content) as [l a']. cbn [fst snd] in *.
    exists l. split; [reflexivity|]. left. exact Hl.
Qed.

Lemma parseLines_recorded raw : forall st n,
  exists new, snd (parseLines st n raw) = (snd st ++ new)%list /\ recorded n raw new.
Proof.
  induction raw as [|content raw IH]; intros [a acc] n.
  - exists []. cbn. rewrite List.app_nil_r. split; [reflexivity|exact I].
  - cbn [parseLines].
    destruct (parseLine_snd a acc n content) as (l & Hl & Hshape).
    destruct (parseLine (a, acc) n content) as [a' acc'] eqn:Hstep. cbn [snd] in Hl.
    subst acc'. destruct (IH (a', (acc ++ [l])%list) (S n)) as (new & Hnew & Hrec).
    exists (l :: new). split; [|split; assumption].
    rewrite Hnew. cbn [snd]. rewrite <- List.app_assoc. reflexivity.
Qed.

Lemma recorded_facts raw : forall n new,
  recorded n raw new ->
  List.map sl_content new = raw /\
  List.map sl_lineNumber new = List.seq n (List.length raw) /\
  Forall lineShape new /\
  Forall (fun l => sl_parent l = None) new.
Proof.
  induction raw as [|content raw IH]; intros n [|l new] Hrec; try destruct Hrec.
  - repeat split; constructor.
  - destruct (IH _ _ H0) as (Hc & Hn & Hs & Hp). cbn [List.map List.length List.seq].
    assert (Hl : sl_lineNumber l = n /\ sl_content l = content /\ sl_parent l = None).
    { destruct H as [->| ->]; [|repeat split].
      unfold analysed, Analyzer.analyzeLine.
      destruct (if _ || _ then Analyzer.extractKeyValue (trim content) else _)
        as [key value]. repeat split. }
    destruct Hl as (Hln & Hlc & Hlp).
    repeat split; [congruence|congruence| |constructor; assumption].
    constructor; [|exact Hs]. unfold lineShape. rewrite Hln, Hlc.
    destruct H as [->| ->]; [left|right]; reflexivity.
Qed.

Lemma linkParents_core ls : forall stack,
  List.map core (linkParents stack ls) = List.map core ls.
Proof.
  induction ls as [|line rest IH]; intros stack; [reflexivity|].
  cbn [linkParents]. destruct (_ || _); cbn [List.map]; rewrite IH; reflexivity.
Qed.

Lemma buildRelationships_core ls :
  List.map core (buildRelationships ls) = List.map core ls.
Proof.
  unfold buildRelationships. rewrite List.map_map.
  rewrite <- (linkParents_core ls []). apply List.map_ext. reflexivity.
Qed.

(** The lines of a parse, up to the links, are the recorded ones. *)
Lemma parse_recorded yamlContent :
  exists new,
    recorded 1 (splitLines yamlContent) new /\
    List.map core (lines (parse yamlContent)) = List.map core new /\
    lines (parse yamlContent) = buildRelationships new.
Proof.
  unfold parse.
  destruct (parseLines_recorded (splitLines yamlContent) (Analyzer.init, []) 1)
    as (new & Hnew & Hrec).
  destruct (parseLines _ _ _) as [a ls]. cbn [snd List.app] in Hnew. subst ls.
  exists new. cbn [lines]. split; [exact Hrec|]. split; [|reflexivity].
  apply buildRelationships_core.
Qed.

Lemma map_core_proj {B : Type} (g : Core -> B) (f : SemanticLine -> B) l1 l2 :
  (forall l, f l = g (core l)) ->
  List.map core l1 = List.map core l2 -> List.map f l1 = List.map f l2.
Proof.
  intros Hf H. rewrite (List.map_ext f (fun l => g (core l)) Hf l1),
    (List.map_ext f (fun l => g (core l)) Hf l2).
  rewrite <- !(List.map_map core g). rewrite H. reflexivity.
Qed.

Lemma map_core_Forall (P : SemanticLine -> Prop) l1 : forall l2,
  (forall a b, core a = core b -> P a -> P b) ->
  List.map core l1 = List.map core l2 -> Forall P l1 -> Forall P l2.
Proof.
  induction l1 as [|a l1 IH]; intros [|b l2] HP H Hall; try discriminate H;
    [constructor|].
  cbn [List.map] in H.
  pose proof (f_equal (List.hd (core a)) H) as Hab.
  pose proof (f_equal (@List.tl Core) H) as Ht. cbn [List.hd List.tl] in Hab, Ht.
  inversion Hall as [|? ? Ha Hl1]; subst.
  constructor; [exact (HP a b Hab Ha)|exact (IH l2 HP Ht Hl1)].
Qed.

Lemma core_eq a b :
  core a = core b ->
  sl_lineNumber a = sl_lineNumber b /\ sl_content a = sl_content b /\
  sl_indent a = sl_indent b /\ sl_type a = sl_type b /\ sl_key a = sl_key b /\
  sl_value a = sl_value b /\ sl_isListItem a = sl_isListItem b /\
  sl_hasColon a = sl_hasColon b.
Proof. unfold core. intros H. repeat split; congruence. Qed.

Lemma lineShape_core a b : core a = core b -> lineShape a -> lineShape b.
Proof.
  unfold lineShape. intros H. destruct (core_eq a b H) as (Hn & Hc & _).
  rewrite <- H, <- Hn, <- Hc. exact id.
Qed.

Lemma parse_lineShape yamlContent : Forall lineShape (lines (parse yamlContent)).
Proof.
  destruct (parse_recorded yamlContent) as (new & Hrec & Hcore & _).
  apply recorded_facts in Hrec as (_ & _ & Hshape & _).
  eapply map_core_Forall; [exact lineShape_core|symmetry; exact Hcore|exact Hshape].
Qed.

Lemma parse_contents yamlContent :
  List.map sl_content (lines (parse yamlContent)) = splitLines yamlContent.
Proof.
  destruct (parse_recorded yamlContent) as (new & Hrec & Hcore & _).
  apply recorded_facts in Hrec as (Hc & _). rewrite <- Hc.
  apply (map_core_proj (fun c => c.1.1.1.1.1.1.2)); [reflexivity|exact Hcore].
Qed.

Lemma parse_numbers yamlContent :
  List.map sl_lineNumber (lines (parse yamlContent))
  = List.seq 1 (List.length (lines (parse yamlContent))).
Proof.
  destruct (parse_recorded yamlContent) as (new & Hrec & Hcore & _).
  apply recorded_facts in Hrec as (Hc & Hn & _).
  rewrite (map_core_proj (fun c => c.1.1.1.1.1.1.1) sl_lineNumber _ new
             ltac:(reflexivity) Hcore), Hn.
  f_equal. rewrite <- Hc.
  rewrite <- (List.length_map core (lines (parse yamlContent))), Hcore.
  rewrite !List.length_map. reflexivity.
Qed.

(** X14.  [parse] records one line per line of the text, in order: the
    contents are the lines of the text (joining them gives the text back),
    the numbers run from 1, and the indent of each is the length of its
    leading white space. *)
Theorem parse_lines (yamlContent : string) :
  let ls := lines (parse yamlContent) in
  List.map sl_content ls = splitLines yamlContent /\
  joinLines (List.map sl_content ls) = yamlContent /\
  List.map sl_lineNumber ls = List.seq 1 (List.length (splitLines yamlContent)) /\
  Forall (fun l => sl_indent l = getIndent (sl_content l)) ls.
Proof.
  cbn zeta. pose proof (parse_contents yamlContent) as Hcontent.
  split; [exact Hcontent|]. split; [rewrite Hcontent; apply join_split|]. split.
  - rewrite parse_numbers. f_equal. rewrite <- Hcontent. symmetry.
    apply List.length_map.
  - eapply Forall_impl; [apply parse_lineShape|].
    intros l [H|H]; apply core_eq in H as (_ & _ & Hi & _); rewrite Hi.
    + unfold analysed, Analyzer.analyzeLine.
      destruct (if _ || _ then Analyzer.extractKeyValue (trim (sl_content l)) else _)
        as [key value]. reflexivity.
    + reflexivity.
Qed.

Lemma find_by_number ls : forall n0 i,
  List.map sl_lineNumber ls = List.seq n0 (List.length ls) ->
  List.find (fun line => (sl_lineNumber line =? n0 + i)%nat) ls = ls !! i.
Proof.
  induction ls as [|l ls IH]; intros n0 i Hn; [reflexivity|].
  cbn [List.map List.length List.seq] in Hn.
  pose proof (f_equal (List.hd 0%nat) Hn) as Hl.
  pose proof (f_equal (@List.tl nat) Hn) as Ht. cbn [List.hd List.tl] in Hl, Ht.
  cbn [List.find]. rewrite Hl. destruct i as [|i].
  - rewrite Nat.add_0_r, Nat.eqb_refl. reflexivity.
  - destruct (Nat.eqb_spec n0 (n0 + S i)) as [Heq|_]; [lia|].
    replace (n0 + S i)%nat with (S n0 + i)%nat by lia. apply IH, Ht.
Qed.

Lemma find_below_numbers ls : forall n0 k,
  List.map sl_lineNumber ls = List.seq n0 (List.length ls) -> (k < n0)%nat ->
  List.find (fun line => (sl_lineNumber line =? k)%nat) ls = None.
Proof.
  induction ls as [|l ls IH]; intros n0 k Hn Hk; [reflexivity|].
  cbn [List.map List.length List.seq] in Hn.
  pose proof (f_equal (List.hd 0%nat) Hn) as Hl.
  pose proof (f_equal (@List.tl nat) Hn) as Ht. cbn [List.hd List.tl] in Hl, Ht.
  cbn [List.find]. rewrite Hl.
  destruct (Nat.eqb_spec n0 k) as [Heq|_]; [lia|]. apply (IH (S n0)); [exact Ht|lia].
Qed.

Lemma getLine_lookup yamlContent i :
  getLine (parse yamlContent) (S i) = lines (parse yamlContent) !! i.
Proof. unfold getLine. apply (find_by_number _ 1 i), parse_numbers. Qed.

(** X15.  [getLine] on a parse is the lookup by position: line number
    [i + 1] is the line at index [i], and there is no line number 0 (nor
    any beyond the last line). *)
Theorem getLine_parse (yamlContent : string) :
  getLine (parse yamlContent) 0 = None /\
  forall i : nat, getLine (parse yamlContent) (S i) = lines (parse yamlContent) !! i.
Proof.
  split.
  - unfold getLine. apply (find_below_numbers _ 1 0); [apply parse_numbers|lia].
  - apply getLine_lookup.
Qed.

Lemma popOpen_sub indent stack q : In q (popOpen indent stack) -> In q stack.
Proof.
  induction stack as [|top rest IH]; [intros []|]. cbn [popOpen].
  destruct (indent <=? sl_indent top)%nat; [right; apply IH, H|exact id].
Qed.

Lemma popOpen_top indent stack top rest :
  popOpen indent stack = top :: rest -> (sl_indent top < indent)%nat.
Proof.
  induction stack as [|x xs IH]; [discriminate|]. cbn [popOpen].
  destruct (Nat.leb_spec indent (sl_indent x)) as [_|Hlt]; [exact IH|].
  intros [= -> _]. exact Hlt.
Qed.

(** What [buildRelationships] knows of a parent: it is an earlier line that
    can have children, with a smaller indent. *)
Lemma linkParents_parent ls : forall n0 stack,
  List.map sl_lineNumber ls = List.seq n0 (List.length ls) ->
  Forall (fun x => sl_parent x = None) ls ->
  Forall (fun q => (sl_lineNumber q < n0)%nat /\ canHaveChildren (sl_type q) = true)
    stack ->
  forall l n, In l (linkParents stack ls) -> sl_parent l = Some n ->
    ~ (sl_type l = blank \/ sl_type l = comment) /\
    exists q, (In q stack \/ In q (linkParents stack ls)) /\
              sl_lineNumber q = n /\ (n < sl_lineNumber l)%nat /\
              (sl_indent q < sl_indent l)%nat /\
              canHaveChildren (sl_type q) = true.
Proof.
  induction ls as [|line rest IH]; intros n0 stack Hn Hnone Hstack l n Hin Hparent;
    [destruct Hin|].
  cbn [List.map List.length List.seq] in Hn.
  pose proof (f_equal (List.hd 0%nat) Hn) as Hl.
  pose proof (f_equal (@List.tl nat) Hn) as Ht. cbn [List.hd List.tl] in Hl, Ht.
  inversion Hnone as [|? ? Hline Hrest]; subst.
  cbn [linkParents] in Hin |- *.
  destruct (bool_decide (sl_type line = blank) || bool_decide (sl_type line = comment))
    eqn:Hskip.
  - destruct Hin as [<-|Hin]; [congruence|].
    assert (Hstack' : Forall (fun q => (sl_lineNumber q < S (sl_lineNumber line))%nat
                                       /\ canHaveChildren (sl_type q) = true) stack).
    { eapply Forall_impl; [exact Hstack|]. intros q [Hq Hc]. split; [lia|exact Hc]. }
    destruct (IH _ stack Ht Hrest Hstack' l n Hin Hparent) as (Hnb & q & Hq & Hrestq).
    split; [exact Hnb|]. exists q. split; [|exact Hrestq].
    destruct Hq as [Hq|Hq]; [left; exact Hq|right; right; exact Hq].
  - remember (popOpen (sl_indent line) stack) as stack1 eqn:Hs1.
    set (line' := mkLine _ _ _ _ _ _ _ _ _ _) in *.
    assert (Hsub : forall q, In q stack1 -> In q stack).
    { intros q Hq. rewrite Hs1 in Hq. eapply popOpen_sub, Hq. }
    assert (Hstack1 : Forall (fun q => (sl_lineNumber q < sl_lineNumber line)%nat
                                       /\ canHaveChildren (sl_type q) = true) stack1).
    { apply Forall_forall. intros q Hq. rewrite Forall_forall in Hstack.
      apply Hstack. apply list_elem_of_In. apply list_elem_of_In in Hq.
      apply Hsub, Hq. }
    destruct Hin as [<-|Hin].
    + split.
      { cbn [sl_type line']. apply orb_false_iff in Hskip as [H1 H2].
        apply bool_decide_eq_false in H1, H2. tauto. }
      cbn [sl_parent line'] in Hparent.
      destruct stack1 as [|top rest1]; [discriminate|].
      injection Hparent as <-. exists top.
      rewrite Forall_forall in Hstack1.
      destruct (Hstack1 top) as [Hlt Hc]; [apply list_elem_of_In; left; reflexivity|].
      split; [left; apply Hsub; left; reflexivity|].
      split; [reflexivity|]. split; [exact Hlt|]. split; [|exact Hc].
      cbn [sl_indent line']. eapply popOpen_top. symmetry. exact Hs1.
    + set (stack2 := if canHaveChildren (sl_type line) then line' :: stack1 else stack1)
        in *.
      assert (Hstack2 : Forall (fun q => (sl_lineNumber q < S (sl_lineNumber line))%nat
                                         /\ canHaveChildren (sl_type q) = true) stack2).
      { assert (H1 : Forall (fun q => (sl_lineNumber q < S (sl_lineNumber line))%nat
                                      /\ canHaveChildren (sl_type q) = true) stack1).
        { eapply Forall_impl; [exact Hstack1|]. intros q [Hq Hc]. split; [lia|exact Hc]. }
        unfold stack2. destruct (canHaveChildren (sl_type line)) eqn:Hcan; [|exact H1].
        constructor; [|exact H1]. split; [cbn; lia|exact Hcan]. }
      destruct (IH _ stack2 Ht Hrest Hstack2 l n Hin Hparent) as (Hnb & q & Hq & Hrestq).
      split; [exact Hnb|]. exists q. split; [|exact Hrestq].
      destruct Hq as [Hq|Hq]; [|right; right; exact Hq].
      unfold stack2 in Hq. destruct (canHaveChildren (sl_type line)).
      * destruct Hq as [<-|Hq]; [right; left; reflexivity|].
        left. apply Hsub, Hq.
      * left. apply Hsub, Hq.
Qed.

Lemma lookup_map {A B : Type} (g : A -> B) (l : list A) : forall i,
  List.map g l !! i = option_map g (l !! i).
Proof.
  induction l as [|a l IH]; intros [|i]; try reflexivity. apply IH.
Qed.

Lemma lookup_by_number ls : forall n0 q,
  List.map sl_lineNumber ls = List.seq n0 (List.length ls) -> In q ls ->
  (n0 <= sl_lineNumber q)%nat /\ ls !! (sl_lineNumber q - n0)%nat = Some q.
Proof.
  induction ls as [|l ls IH]; intros n0 q Hn Hin; [destruct Hin|].
  cbn [List.map List.length List.seq] in Hn.
  pose proof (f_equal (List.hd 0%nat) Hn) as Hl.
  pose proof (f_equal (@List.tl nat) Hn) as Ht. cbn [List.hd List.tl] in Hl, Ht.
  destruct Hin as [<-|Hin].
  - rewrite Hl, Nat.sub_diag. split; [lia|reflexivity].
  - destruct (IH _ q Ht Hin) as [Hle Hq]. split; [lia|].
    replace (sl_lineNumber q - n0)%nat with (S (sl_lineNumber q - S n0)) by lia.
    exact Hq.
Qed.

(** X16.  The parent [parse] gives a line is an earlier line of the parse
    that can have children (a key or a list item) and is indented less
    than the line; blank lines and comments get no parent. *)
Theorem parse_parent (yamlContent : string) (l : SemanticLine) (n : nat) :
  In l (lines (parse yamlContent)) -> sl_parent l = Some n ->
  ~ (sl_type l = blank \/ sl_type l = comment) /\
  (n < sl_lineNumber l)%nat /\
  exists q, getLine (parse yamlContent) n = Some q /\
            (sl_indent q < sl_indent l)%nat /\
            canHaveChildren (sl_type q) = true.
Proof.
  intros Hin Hparent.
  destruct (parse_recorded yamlContent) as (new & Hrec & _ & Hlines).
  apply recorded_facts in Hrec as (Hc & Hn & _ & Hnone).
  assert (Hnum : List.map sl_lineNumber new = List.seq 1 (List.length new)).
  { rewrite Hn. f_equal. rewrite <- Hc. apply List.length_map. }
  set (g := fun line : SemanticLine =>
              mkLine (sl_lineNumber line) (sl_content line) (sl_indent line)
                (sl_type line) (sl_key line) (sl_value line) (sl_isListItem line)
                (sl_hasColon line) (sl_parent line)
                (childrenOf (linkParents [] new) (sl_lineNumber line))).
  assert (Hg : lines (parse yamlContent) = List.map g (linkParents [] new))
    by (rewrite Hlines; reflexivity).
  rewrite Hg in Hin. apply List.in_map_iff in Hin as (l0 & <- & Hin0).
  cbn [g sl_parent sl_type sl_lineNumber sl_indent] in *.
  destruct (linkParents_parent new 1 [] Hnum Hnone ltac:(constructor) l0 n Hin0 Hparent)
    as (Hnb & q & Hq & Hqn & Hlt & Hind & Hcan).
  destruct Hq as [[]|Hq]. split; [exact Hnb|]. split; [exact Hlt|].
  exists (g q). split; [|split; assumption].
  assert (Hlinked : List.map sl_lineNumber (linkParents [] new)
                    = List.seq 1 (List.length (linkParents [] new))).
  { pose proof (linkParents_core new []) as Hcore.
    rewrite (map_core_proj (fun c => c.1.1.1.1.1.1.1) sl_lineNumber _ new
               ltac:(reflexivity) Hcore), Hnum.
    f_equal. rewrite <- (List.length_map core new), <- Hcore. apply List.length_map. }
  destruct (lookup_by_number _ 1 q Hlinked Hq) as [Hle Hlook].
  destruct n as [|i]; [lia|].
  rewrite getLine_lookup, Hg.
  rewrite Hqn in Hlook. replace (S i - 1)%nat with i in Hlook by lia.
  rewrite lookup_map, Hlook. reflexivity.
Qed.

Lemma startsWith_dash t :
  startsWith t "- " = true -> exists r, t = String "-" (String " " r).
Proof.
  unfold startsWith. destruct t as [|c1 [|c2 r]]; cbn [String.prefix]; try discriminate.
  - destruct (ascii_dec "-" c1); discriminate.
  - destruct (ascii_dec "-" c1) as [<-|]; [|discriminate].
    destruct (ascii_dec " " c2) as [<-|]; [|discriminate]. intros _. eauto.
Qed.

Lemma classifyLine_dash r :
  Analyzer.classifyLine (String "-" (String " " r)) = list_item.
Proof.
  unfold Analyzer.classifyLine.
  replace (startsWith (String "-" (String " " r)) "- ") with true
    by (destruct r; reflexivity).
  replace (startsWith (String "-" (String " " r)) "#") with false
    by (destruct r; reflexivity).
  cbn [String.eqb Ascii.eqb Bool.eqb orb andb].
  destruct (includes _ _); reflexivity.
Qed.

Lemma analysed_eq n content :
  analysed n content =
  let trimmed := trim content in
  let ty := Analyzer.classifyLine trimmed in
  let kv := if bool_decide (ty = key_value) || bool_decide (ty = key_only)
            then Analyzer.extractKeyValue trimmed else (None, None) in
  mkLine n content (getIndent content) ty (fst kv) (snd kv)
    (startsWith trimmed "-") (includes trimmed ":") None [].
Proof.
  unfold analysed, Analyzer.analyzeLine. cbn zeta.
  destruct (if _ || _ then Analyzer.extractKeyValue (trim content) else _)
    as [key value]. reflexivity.
Qed.

Lemma extractKeyValue_key t : is_Some (fst (Analyzer.extractKeyValue t)).
Proof. unfold Analyzer.extractKeyValue. destruct (negb _); cbn [fst]; eauto. Qed.

Lemma analysed_key n content :
  (is_Some (sl_key (analysed n content)) <->
   sl_type (analysed n content) = key_value \/ sl_type (analysed n content) = key_only) /\
  (startsWith (trim content) "- " = true ->
   sl_type (analysed n content) = list_item /\
   sl_key (analysed n content) = None /\ sl_value (analysed n content) = None).
Proof.
  rewrite analysed_eq. cbn zeta. cbn [sl_key sl_value sl_type].
  set (ty := Analyzer.classifyLine (trim content)). split.
  - destruct (bool_decide (ty = key_value) || bool_decide (ty = key_only)) eqn:Hty.
    + split; [|intros _; apply extractKeyValue_key].
      intros _. apply orb_true_iff in Hty as [H|H]; apply bool_decide_eq_true in H; tauto.
    + apply orb_false_iff in Hty as [H1 H2]. apply bool_decide_eq_false in H1, H2.
      cbn [fst]. split; [intros [x Hx]; discriminate|tauto].
  - intros [r Hr]%startsWith_dash. unfold ty. rewrite Hr, classifyLine_dash.
    repeat split.
Qed.

(** X17.  In a parse, a line has a key exactly when it is classified as a
    key-value or key-only line.  A line that starts with a dash and a
    space is a list item (or block-scalar content) and carries neither key
    nor value, whatever follows the dash. *)
Theorem parse_keys (yamlContent : string) :
  Forall (fun l =>
      (is_Some (sl_key l) <-> sl_type l = key_value \/ sl_type l = key_only) /\
      (startsWith (trim (sl_content l)) "- " = true ->
       (sl_type l = list_item \/ sl_type l = block_scalar) /\
       sl_key l = None /\ sl_value l = None))
    (lines (parse yamlContent)).
Proof.
  eapply Forall_impl; [apply parse_lineShape|].
  intros l [H|H]; apply core_eq in H as (_ & _ & _ & Ht & Hk & Hv & _);
    rewrite Ht, Hk, Hv.
  - destruct (analysed_key (sl_lineNumber l) (sl_content l)) as [H1 H2].
    split; [exact H1|]. intros Hdash. destruct (H2 Hdash) as (? & ? & ?). tauto.
  - cbn [blockLine sl_type sl_key sl_value]. split.
    + split; [intros [x Hx]; discriminate|intros [|]; discriminate].
    + intros _. tauto.
Qed.

Lemma find_split {A : Type} (f : A -> bool) (l : list A) b :
  List.find f l = Some b ->
  exists pre post, l = (pre ++ b :: post)%list /\
                   Forall (fun x => f x = false) pre /\ f b = true.
Proof.
  induction l as [|x l IH]; [discriminate|]. cbn [List.find].
  destruct (f x) eqn:Hx.
  - intros [= ->]. exists [], l. repeat split; [constructor|exact Hx].
  - intros H. destruct (IH H) as (pre & post & -> & Hpre & Hb).
    exists (x :: pre), post. repeat split; [constructor; assumption|exact Hb].
Qed.

Lemma find_app_skip {A : Type} (f : A -> bool) (pre rest : list A) :
  Forall (fun x => f x = false) pre -> List.find f (pre ++ rest) = List.find f rest.
Proof.
  induction 1 as [|x pre Hx _ IH]; [reflexivity|]. cbn [List.app List.find].
  rewrite Hx. exact IH.
Qed.

(** X18.  [getNextNonBlankLine] returns the first line after the given
    number that is neither blank nor a comment; from a line that is
    itself neither, stepping to the next such line and back with
    [getPreviousNonBlankLine] returns to it. *)
Theorem next_previous_line (yamlContent : string) (a b : SemanticLine) :
  In a (lines (parse yamlContent)) ->
  getNextNonBlankLine (parse yamlContent) (sl_lineNumber a) = Some b ->
  (sl_lineNumber a < sl_lineNumber b)%nat /\ isBlankOrComment b = false /\
  (forall l, In l (lines (parse yamlContent)) ->
             (sl_lineNumber a < sl_lineNumber l < sl_lineNumber b)%nat ->
             isBlankOrComment l = true) /\
  (isBlankOrComment a = false ->
   getPreviousNonBlankLine (parse yamlContent) (sl_lineNumber b) = Normal (Some a)).
Proof.
  intros Ha Hnext. set (L := lines (parse yamlContent)) in *.
  pose proof (parse_numbers yamlContent) as Hnum. fold L in Hnum.
  destruct (lookup_by_number L 1 a Hnum Ha) as [Hle Hlook].
  unfold getNextNonBlankLine in Hnext. fold L in Hnext.
  apply find_split in Hnext as (blanks & post & Hskip & Hblanks & Hb).
  apply negb_true_iff in Hb.
  set (i := (sl_lineNumber a - 1)%nat) in *.
  assert (Hi : sl_lineNumber a = S i) by (unfold i; lia).
  assert (HL : L = (List.firstn i L ++ a :: blanks ++ b :: post)%list).
  { rewrite <- (List.firstn_skipn i L) at 1. f_equal.
    rewrite (drop_S L a i Hlook). f_equal.
    rewrite <- Hskip, Hi. reflexivity. }
  assert (Hleni : List.length (List.firstn i L) = i).
  { apply List.firstn_length_le. apply lookup_lt_Some in Hlook. lia. }
  assert (Hbnum : sl_lineNumber b = (S i + S (List.length blanks))%nat).
  { assert (Hbl : L !! (i + S (List.length blanks))%nat = Some b).
    { rewrite HL. rewrite lookup_app_r; rewrite Hleni; [|lia].
      replace (i + S (List.length blanks) - i)%nat with (S (List.length blanks)) by lia.
      change ((a :: blanks ++ b :: post)%list !! S (List.length blanks))
        with ((blanks ++ b :: post)%list !! List.length blanks).
      rewrite lookup_app_r; [|lia]. rewrite Nat.sub_diag. reflexivity. }
    assert (Hin : In b L) by (apply list_elem_of_In; eapply list_elem_of_lookup_2, Hbl).
    destruct (lookup_by_number L 1 b Hnum Hin) as [Hle' Hlook'].
    assert (Hnd : NoDup L).
    { apply (NoDup_fmap_1 sl_lineNumber). unfold fmap.
      replace (list_fmap _ _ sl_lineNumber L) with (List.map sl_lineNumber L).
      - rewrite Hnum. apply NoDup_ListNoDup, List.seq_NoDup.
      - clear. induction L as [|x L IH]; [reflexivity|]. cbn. rewrite IH. reflexivity. }
    pose proof (NoDup_lookup L _ _ b Hnd Hbl Hlook') as Heq. lia. }
  split; [lia|]. split; [exact Hb|]. split.
  - intros l Hl Hbetween.
    destruct (lookup_by_number L 1 l Hnum Hl) as [Hle' Hlook'].
    rewrite HL in Hlook'. rewrite lookup_app_r in Hlook'; rewrite Hleni in *; [|lia].
    replace (sl_lineNumber l - 1 - i)%nat with (S (sl_lineNumber l - 2 - i)) in Hlook'
      by lia.
    change ((a :: blanks ++ b :: post)%list !! S (sl_lineNumber l - 2 - i))
      with ((blanks ++ b :: post)%list !! (sl_lineNumber l - 2 - i)%nat) in Hlook'.
    rewrite lookup_app_l in Hlook' by lia.
    rewrite Forall_forall in Hblanks.
    specialize (Hblanks l (list_elem_of_lookup_2 _ _ _ Hlook')).
    apply negb_false_iff in Hblanks. exact Hblanks.
  - intros Hnb. unfold getPreviousNonBlankLine. fold L.
    replace (sl_lineNumber b) with (S (S (i + List.length blanks))) by lia.
    assert (Hlen : List.length L = (i + S (List.length blanks + S (List.length post)))%nat).
    { rewrite HL at 1. rewrite List.length_app, Hleni. cbn [List.length].
      rewrite List.length_app. cbn [List.length]. reflexivity. }
    destruct (Nat.leb_spec (List.length L) (i + List.length blanks)) as [Hbad|_]; [lia|].
    f_equal.
    assert (Hfirst : List.firstn (S (i + List.length blanks)) L
                     = (List.firstn i L ++ a :: blanks)%list).
    { rewrite HL at 1.
      replace (S (i + List.length blanks))
        with (List.length (List.firstn i L ++ a :: blanks)%list)
        by (rewrite List.length_app, Hleni; cbn [List.length]; lia).
      replace (List.firstn i L ++ a :: blanks ++ b :: post)%list
        with ((List.firstn i L ++ a :: blanks) ++ b :: post)%list
        by (rewrite <- List.app_assoc; reflexivity).
      rewrite List.firstn_app, Nat.sub_diag, List.firstn_all. cbn [List.firstn].
      apply List.app_nil_r. }
    rewrite Hfirst, List.rev_app_distr. cbn [List.rev].
    rewrite <- List.app_assoc, find_app_skip.
    + cbn [List.app List.find]. rewrite Hnb. reflexivity.
    + apply Forall_forall. intros x Hx. rewrite Forall_forall in Hblanks.
      apply list_elem_of_In, List.in_rev, list_elem_of_In in Hx.
      apply Hblanks in Hx. apply negb_false_iff in Hx. rewrite Hx. reflexivity.
Qed.

End ParserFacts.

(** ** Queries of the parser, the analyzer and the knowledge base *)

Section QueryFacts.

Import Js SemanticParser Knowledge.


Lemma star_eos cls s : forall pos opens caps,
  star cls (run [Eos]) s pos opens caps
  = if every cls s then Some ((pos + String.length s)%nat, List.rev caps) else None.
Proof.
  induction s as [|c r IH]; intros pos opens caps.
  - cbn. rewrite Nat.add_0_r. reflexivity.
  - cbn [star every String.length]. destruct (cls c); cbn [andb]; [|reflexivity].
    rewrite IH. destruct (every cls r); [|reflexivity].
    f_equal. f_equal. lia.
Qed.

Lemma test_one_star c1 c2 s :
  test [Ch c1 One; Ch c2 Star; Eos] s
  = match s with String c r => c1 c && every c2 r | EmptyString => false end.
Proof.
  unfold test, exec. cbn [run]. destruct s as [|c r]; [reflexivity|].
  destruct (c1 c); [|reflexivity]. rewrite star_eos.
  destruct (every c2 r); reflexivity.
Qed.

Lemma test_plus c1 s :
  test [Ch c1 Plus; Eos] s
  = match s with String c r => c1 c && every c1 r | EmptyString => false end.
Proof.
  unfold test, exec. cbn [run]. destruct s as [|c r]; [reflexivity|].
  destruct (c1 c); [|reflexivity]. rewrite star_eos.
  destruct (every c1 r); reflexivity.
Qed.

Lemma every_impl (p q : ascii -> bool) s :
  (forall c, p c = true -> q c = true) -> every p s = true -> every q s = true.
Proof.
  intros Hpq. induction s as [|c r IH]; [reflexivity|]. cbn [every].
  intros [Hc Hr]%andb_true_iff. rewrite (Hpq c Hc), (IH Hr). reflexivity.
Qed.

(** X20.  The parser's [matchesFieldPattern] and the knowledge base's
    [matchesKubernetesPattern] accept the same texts: the third pattern
    of the knowledge base (lower-case letters only) adds nothing to the
    first two. *)
Theorem matchesFieldPattern_agrees (text : string) :
  matchesFieldPattern text = matchesKubernetesPattern text.
Proof.
  unfold matchesFieldPattern, matchesKubernetesPattern, FIELD_PATTERNS,
    reCamelCase, reHyphenated, reLowercase.
  cbn [List.existsb]. rewrite !test_one_star, test_plus.
  destruct text as [|c r]; [reflexivity|]. rewrite orb_false_r.
  destruct (isLower c) eqn:Hc; cbn [andb]; [|reflexivity].
  destruct (every isLower r) eqn:Hr; [|rewrite orb_false_r; reflexivity].
  rewrite (every_impl isLower isAlnum r); [reflexivity| |exact Hr].
  intros c' Hc'. unfold isAlnum, isAlpha. rewrite Hc', orb_true_r. reflexivity.
Qed.

(** X21.  [isFieldExpectedHere] accepts every field in every state of the
    analyzer: each of its tests ends in the same answer. *)
Theorem isFieldExpectedHere_always (a : Analyzer.t) (fieldName : string) :
  Analyzer.isFieldExpectedHere a fieldName = true.
Proof.
  unfold Analyzer.isFieldExpectedHere.
  repeat match goal with |- context [if ?b then _ else _] => destruct b end;
    reflexivity.
Qed.

Lemma lowerChar_idem c : lowerChar (lowerChar c) = lowerChar c.
Proof. destruct c as [[] [] [] [] [] [] [] []]; vm_compute; reflexivity. Qed.

Lemma toLowerCase_idem s : toLowerCase (toLowerCase s) = toLowerCase s.
Proof.
  induction s as [|c s IH]; [reflexivity|]. cbn [toLowerCase].
  rewrite lowerChar_idem, IH. reflexivity.
Qed.

Lemma inList_In s l : inList s l = true <-> In s l.
Proof.
  unfold inList. rewrite List.existsb_exists. split.
  - intros (x & Hx & ->%String.eqb_eq). exact Hx.
  - intros H. exists s. split; [exact H|apply String.eqb_refl].
Qed.

(** X22.  [getCanonicalFieldName] ignores the case of the name; what it
    returns is a known field whose alias list holds the lower-cased name;
    so the aliases [imageName] and [volumeMount], which are listed with a
    capital letter, are never matched. *)
Theorem getCanonicalFieldName_facts (fieldName : string) :
  getCanonicalFieldName (toLowerCase fieldName) = getCanonicalFieldName fieldName /\
  (forall canonical, getCanonicalFieldName fieldName = Some canonical ->
     isKnownField canonical = true /\
     exists aliases, In (canonical, aliases) FIELD_ALIASES /\
                     In (toLowerCase fieldName) aliases) /\
  getCanonicalFieldName "imageName" = None /\
  getCanonicalFieldName "volumeMount" = None.
Proof.
  split; [unfold getCanonicalFieldName; rewrite toLowerCase_idem; reflexivity|].
  split; [|split; reflexivity].
  intros canonical. unfold getCanonicalFieldName.
  destruct (List.find _ FIELD_ALIASES) as [[c aliases]|] eqn:Hfind; [|discriminate].
  intros [= <-]. apply List.find_some in Hfind as [Hin Halias].
  apply inList_In in Halias.
  assert (Hall : List.forallb (fun e => isKnownField (fst e)) FIELD_ALIASES = true)
    by (vm_compute; reflexivity).
  rewrite List.forallb_forall in Hall. specialize (Hall _ Hin). cbn [fst] in Hall.
  split; [exact Hall|]. exists aliases. split; assumption.
Qed.

(** X23.  Every known field matches one of the Kubernetes naming patterns. *)
Theorem isKnownField_matchesKubernetesPattern (fieldName : string) :
  isKnownField fieldName = true -> matchesKubernetesPattern fieldName = true.
Proof.
  unfold isKnownField. intros Hin%inList_In.
  assert (Hall : List.forallb matchesKubernetesPattern KNOWN_FIELDS = true)
    by (vm_compute; reflexivity).
  rewrite List.forallb_forall in Hall. apply Hall, Hin.
Qed.

End QueryFacts.

Lemma parse_parent_witness :
  ~ (sl_type nestedChild = blank \/ sl_type nestedChild = comment) /\
  (1 < sl_lineNumber nestedChild)%nat /\
  exists q, SemanticParser.getLine (SemanticParser.parse nestedText) 1 = Some q /\
            (sl_indent q < sl_indent nestedChild)%nat /\
            SemanticParser.canHaveChildren (sl_type q) = true.
Proof.
  apply (parse_parent nestedText nestedChild 1); [|reflexivity].
  vm_compute. right. right. left. reflexivity.
Defined.

Lemma next_previous_line_witness :
  (sl_lineNumber nestedParent < sl_lineNumber nestedChild)%nat /\
  SemanticParser.isBlankOrComment nestedChild = false /\
  (forall l, In l (SemanticParser.lines (SemanticParser.parse nestedText)) ->
             (sl_lineNumber nestedParent < sl_lineNumber l
              < sl_lineNumber nestedChild)%nat ->
             SemanticParser.isBlankOrComment l = true) /\
  (SemanticParser.isBlankOrComment nestedParent = false ->
   SemanticParser.getPreviousNonBlankLine (SemanticParser.parse nestedText)
     (sl_lineNumber nestedChild) = Normal (Some nestedParent)).
Proof.
  apply (next_previous_line nestedText nestedParent nestedChild).
  - vm_compute. left. reflexivity.
  - vm_compute. reflexivity.
Defined.

Lemma isKnownField_matchesKubernetesPattern_witness :
  Knowledge.matchesKubernetesPattern "volumeMounts" = true.
Proof.
  apply (isKnownField_matchesKubernetesPattern "volumeMounts").
  vm_compute. reflexivity.
Defined.
